(** * rtf2html: the RTF reader of [src/index.js]

    A shallow embedding of the three layers of the reader: the tokenizer
    ([GetRtfTk], the token constructor and the token accessors), the
    block skipper ([RtfSkipB]), the OLE Package decoder ([RtfPkgOb]), the
    destination-dispatch parser ([RtfParser]), of its handlers
    [HandleMeta], [HandleColorTable] and [HandlePcData], and the text
    escaping of the HTML converter ([esc_]).

    Conventions.
    - The RTF source is a byte string: [string], whose characters have the
      codes 0..255.  [charCodeAt] answers [None] where JavaScript answers
      [NaN].
    - Indices into the source are [nat]; every number that goes through a
      bit operation is a [Z], and the 32-bit wrap-around of JavaScript's
      bit operators is written out ([toInt32]).
    - Strings built with [String.fromCharCode] by the Package decoder can
      hold codes above 255; they are lists of codes ([list Z]).
    - Numbers are doubles: the result of [parseInt] and what is added to
      it are rounded as doubles are ([double]).
    - The objects that the parser uses as dictionaries are plain objects:
      they answer to the names of [Object.prototype] as well as to their
      own properties ([dhd_get], [cache_broken]).
    - [trace] and [dtrace], which the decoder and [HandlePcData] call,
      are defined nowhere in the repository; whether the program that
      loads the module defines them is a parameter ([Pkg.Hooks]). *)

From Stdlib Require Import ZArith List String Ascii Bool Lia.
From stdpp Require Import gmap strings list fin_maps.

Local Open Scope Z_scope.

(** ** JavaScript numbers and bit operators *)

Module JS.

(** [ToInt32]: the value modulo 2^32, read as a signed 32-bit integer. *)
Definition toInt32 (z : Z) : Z := (z + 2147483648) mod 4294967296 - 2147483648.

(** [NaN] converts to 0. *)
Definition toInt32o (o : option Z) : Z :=
  match o with Some z => toInt32 z | None => 0 end.

(** [x << n], for a shift count [0 <= n < 32]. *)
Definition shl (x n : Z) : Z := toInt32 (Z.shiftl (toInt32 x) n).

(** [x >> n] (sign-propagating). *)
Definition shr (x n : Z) : Z := Z.shiftr (toInt32 x) n.

(** [x | y] and [x & y]. *)
Definition bor (x y : Z) : Z := Z.lor (toInt32 x) (toInt32 y).
Definition band (x y : Z) : Z := Z.land (toInt32 x) (toInt32 y).

(** Comparisons of a possibly-[NaN] number with a constant: every
    comparison with [NaN] is false, except [!=] and [!==]. *)
Definition eq (c : option Z) (k : Z) : bool :=
  match c with Some x => x =? k | None => false end.
Definition ne (c : option Z) (k : Z) : bool := negb (eq c k).
Definition lt (c : option Z) (k : Z) : bool :=
  match c with Some x => x <? k | None => false end.
Definition gt (c : option Z) (k : Z) : bool :=
  match c with Some x => x >? k | None => false end.
Definition le (c : option Z) (k : Z) : bool :=
  match c with Some x => x <=? k | None => false end.
Definition ge (c : option Z) (k : Z) : bool :=
  match c with Some x => x >=? k | None => false end.

(** A number is a double.  All the numbers of the reader are integers,
    so a finite one is kept as the integer it is, and a number that may
    fail to be finite is an [option Z]: [None] stands for [NaN] and for
    the two infinities, which the reader cannot tell apart (it compares
    such a number only where it can be [NaN] alone, and what it adds to
    or shifts gives 0 for all three).

    [double z] is the double nearest to the integer [z], ties going to
    the even mantissa: [z] itself up to 2^53 in size, beyond that the
    multiple of the spacing of the doubles next to it, and no finite
    number from 2^1024 on. *)
Definition double (z : Z) : option Z :=
  let a := Z.abs z in
  let e := Z.log2 a - 52 in
  if e <=? 0 then Some z
  else
    let q := Z.shiftr a e in
    let r := Z.land a (Z.ones e) in
    let half := Z.shiftl 1 (e - 1) in
    let q := if (half <? r) || ((r =? half) && Z.odd q) then q + 1 else q in
    let m := Z.shiftl q e in
    if 2 ^ 1024 <=? m then None else Some (Z.sgn z * m).
Arguments double : simpl never.

(** [c + k] and [c - k], rounded as the sum of two doubles is. *)
Definition add (c : option Z) (k : Z) : option Z :=
  match c with Some x => double (x + k) | None => None end.

Definition code (a : ascii) : Z := Z.of_nat (nat_of_ascii a).

(** [s.charCodeAt(i)] *)
Definition charCodeAt (s : string) (i : nat) : option Z :=
  match String.get i s with
  | Some a => Some (code a)
  | None => None
  end.

(** The part of [s] from index [n] on. *)
Fixpoint drop (n : nat) (s : string) : string :=
  match n, s with
  | O, _ => s
  | S n', String _ s' => drop n' s'
  | S _, EmptyString => EmptyString
  end.

(** [s.substr(start, len)] and [s.slice(from, to)] for indices inside the
    numbers the reader passes (non-negative). *)
Definition substr (s : string) (start len : nat) : string :=
  String.substring start len s.
Definition slice (s : string) (from to : nat) : string :=
  String.substring from (to - from) s.

(** Decimal digits at the head of a string: the number read so far and
    whether a digit was seen. *)
Fixpoint digits (s : string) (acc : Z) (seen : bool) : Z * bool :=
  match s with
  | String a s' =>
      let c := code a in
      if (48 <=? c) && (c <=? 57)
      then digits s' (10 * acc + (c - 48)) true
      else (acc, seen)
  | EmptyString => (acc, seen)
  end.

(** The integer that a string of ['-'] and decimal digits begins with:
    an optional sign, then digits up to the first other character;
    [None] when there is no digit. *)
Definition integer (s : string) : option Z :=
  match s with
  | String a s' =>
      if code a =? 45
      then match digits s' 0 false with
           | (n, true) => Some (- n)
           | (_, false) => None
           end
      else match digits s 0 false with
           | (n, true) => Some n
           | (_, false) => None
           end
  | EmptyString => None
  end.

(** [parseInt(s)] for the strings the tokenizer passes, which hold only
    ['-'] and decimal digits: [NaN] when no integer is read, else the
    double nearest to that integer (for more than 20 digits the language
    leaves the last places of the rounding to the implementation; they
    are rounded exactly here, as V8 does), infinite from 2^1024 on. *)
Definition parseInt (s : string) : option Z :=
  match integer s with
  | Some n => double n
  | None => None
  end.

(** A plain object ([{ }]) answers to some names that are no properties
    of its own: the properties of [Object.prototype].  Each of
    [proto_functions] holds a function; [__proto__] is an accessor,
    which answers the prototype itself and, when it is assigned an
    object or [null], makes that the prototype of the object. *)
Definition proto_functions : list string :=
  ["constructor"; "hasOwnProperty"; "isPrototypeOf"; "propertyIsEnumerable";
   "toLocaleString"; "toString"; "valueOf";
   "__defineGetter__"; "__defineSetter__"; "__lookupGetter__"; "__lookupSetter__"]%string.

Definition is_proto_function (k : string) : bool :=
  existsb (String.eqb k) proto_functions.

End JS.

(** ** Tokens and the tokenizer *)

Module Tok.

(** Token types, as [RtfConst] names them. *)
Definition INVALID : Z := 0.
Definition DATA : Z := 1.
Definition PUSH : Z := 2.
Definition POP : Z := 3.
Definition IGNORABLE : Z := 4.
Definition SYMBOL : Z := 5.
Definition CONTROL : Z := 6.
Definition CHARACTER : Z := 7.

(** [RtfTkTyp]: [(t >> 8) & 0x7] *)
Definition RtfTkTyp (t : Z) : Z := JS.band (JS.shr t 8) 7.

(** [RtfTkLen]: [t & 0xFF] *)
Definition RtfTkLen (t : Z) : Z := JS.band t 255.

(** [RtfTkVal]: [NaN] when the top bit is clear, else the 16-bit field
    minus 32768. *)
Definition RtfTkVal (t : Z) : option Z :=
  if JS.shr t 31 =? 0 then None
  else Some (JS.band (JS.shr t 15) 65535 - 32768).

(** [RtfTkTxt]: [s.substr(i, t & 0xFF)] *)
Definition RtfTkTxt (t : Z) (s : string) (i : nat) : string :=
  JS.substr s i (Z.to_nat (JS.band t 255)).

(** [RtfTkCtl]: [null] unless the type bits are 6, else
    [s.substr(1 + i, 1 + ((t >> 11) & 0xF))]. *)
Definition RtfTkCtl (t : Z) (s : string) (i : nat) : option string :=
  if negb (JS.band t 1792 =? 1536) then None
  else Some (JS.substr s (1 + i) (Z.to_nat (1 + JS.band (JS.shr t 11) 15))).

(** [RtfTkChr]: the code of the one-character string, [null] unless the
    token is a character or a symbol.  [String.fromCharCode] takes its
    argument modulo 2^16. *)
Definition RtfTkChr (t : Z) : option Z :=
  if negb (JS.band t 1792 =? 1792) && negb (JS.band t 1792 =? 1280) then None
  else Some ((JS.band (JS.shr t 15) 65535 - 32768) mod 65536).

(** The loop over the lower-case letters of a control word,
    [for (c = s.charCodeAt(++i); c >= 97 && c <= 122; c = s.charCodeAt(++i)) len++],
    run on the text from the incremented index on.  It answers the final
    [i] and [len]. *)
Fixpoint scan_letters (rest : string) (i : nat) (len : Z) : nat * Z :=
  match rest with
  | String a rest' =>
      let c := JS.code a in
      if (c >=? 97) && (c <=? 122)
      then scan_letters rest' (S i) (len + 1)
      else (i, len)
  | EmptyString => (i, len)
  end.

(** The loop over a numeric parameter,
    [for (c = s.charCodeAt(++i); i < s.length; c = s.charCodeAt(++i))]. *)
Fixpoint scan_value (rest : string) (i : nat) (len : Z) : nat * Z :=
  match rest with
  | String a rest' =>
      let c := JS.code a in
      let len := len + 1 in
      if negb (c =? 45) && ((c <? 48) || (c >? 57))
      then (i, if c =? 32 then len + 1 else len)
      else scan_value rest' (S i) len
  | EmptyString => (i, len)
  end.

(** The loop over a run of CR and LF. *)
Fixpoint scan_crlf (rest : string) (len : Z) : Z :=
  match rest with
  | String a rest' =>
      let c := JS.code a in
      if negb (c =? 10) && negb (c =? 13) then len
      else
        let len := len + 1 in
        if len =? 255 then len else scan_crlf rest' len
  | EmptyString => len
  end.

(** The loop over plain data. *)
Fixpoint scan_data (rest : string) (len : Z) : Z :=
  match rest with
  | String a rest' =>
      let c := JS.code a in
      if (c =? 92) || (c =? 123) || (c =? 125) || (c =? 13) || (c =? 10) then len
      else
        let len := len + 1 in
        if len =? 255 then len else scan_data rest' len
  | EmptyString => len
  end.

(** One hexadecimal digit of [\'HH]; [None] is the [return 4] branch. *)
Definition hexdigit (d : option Z) : option Z :=
  if JS.ge d 48 && JS.le d 57 then JS.add d (-48)
  else if JS.ge d 65 && JS.le d 70 then JS.add d (-55)
  else if JS.ge d 97 && JS.le d 102 then JS.add d (-87)
  else None.

(** [GetRtfTk(s, i)] *)
Definition GetRtfTk (s : string) (i : nat) : Z :=
  let c := JS.charCodeAt s i in
  if JS.eq c 123 then 513
  else if JS.eq c 125 then 769
  else if JS.eq c 92 then
    let '(i, len) := scan_letters (JS.drop (S i) s) (S i) 1 in
    let c := JS.charCodeAt s i in
    if len =? 1 then
      if JS.eq c 42 then 1026
      else if JS.eq c 39 then
        if (Z.of_nat i + 2 >? Z.of_nat (String.length s))
        then (Z.of_nat (String.length s) - Z.of_nat i) + 2
        else
          match hexdigit (JS.charCodeAt s (i + 1)) with
          | None => 4
          | Some d1 =>
              match hexdigit (JS.charCodeAt s (i + 2)) with
              | None => 4
              | Some d2 =>
                  JS.bor (JS.bor (JS.bor (JS.shl 1 31) (JS.shl d1 19)) (JS.shl d2 15)) 1796
              end
          end
      else if JS.ne c 92 && JS.ne c 45 && JS.ne c 58 && JS.ne c 95
              && JS.lt c 123 && JS.gt c 126
      then 2
      else JS.bor (JS.bor (JS.shl 1 31) (JS.shl (JS.toInt32o (JS.add c 32768)) 15)) 1282
    else if JS.eq c 45 || (JS.ge c 48 && JS.le c 57) then
      let skp := len in
      let vi := i in
      let '(i, len) := scan_value (JS.drop (S i) s) (S i) len in
      let val := JS.parseInt (JS.slice s vi i) in
      let val := JS.add val 32768 in
      JS.bor (JS.bor (JS.bor (JS.bor (JS.shl 1 31) (JS.shl (JS.toInt32o val) 15))
                             (JS.shl (skp - 2) 11)) 1536) len
    else if JS.eq c 32 then
      let len := len + 1 in
      JS.bor (JS.bor (JS.shl (len - 3) 11) 1536) len
    else
      JS.bor (JS.bor (JS.shl (len - 2) 11) 1536) len
  else if JS.eq c 10 || JS.eq c 13 then
    let len := scan_crlf (JS.drop (S i) s) 1 in
    JS.bor (JS.bor (JS.shl 1 31) 1074169088) len
  else
    let len := scan_data (JS.drop (S i) s) 1 in
    JS.bor 256 len.

(** The number of CR and LF characters at the head of a text. *)
Fixpoint crlf_run (rest : string) : nat :=
  match rest with
  | String a rest' =>
      if (JS.code a =? 10) || (JS.code a =? 13) then S (crlf_run rest') else O
  | EmptyString => O
  end.

(** Texts made of lower-case letters only, and of ['-'] and digits only. *)
Fixpoint lowers (s : string) : bool :=
  match s with
  | String a s' => (JS.code a >=? 97) && (JS.code a <=? 122) && lowers s'
  | EmptyString => true
  end.

Fixpoint numeric (s : string) : bool :=
  match s with
  | String a s' => ((JS.code a =? 45) || ((JS.code a >=? 48) && (JS.code a <=? 57))) && numeric s'
  | EmptyString => true
  end.

(** The number of characters at the head of a text that are none of
    backslash, the braces, CR and LF. *)
Fixpoint data_run (rest : string) : nat :=
  match rest with
  | String a rest' =>
      let c := JS.code a in
      if (c =? 92) || (c =? 123) || (c =? 125) || (c =? 13) || (c =? 10) then O
      else S (data_run rest')
  | EmptyString => O
  end.

(** The exceptions of [NewRtfTk]. *)
Inductive NewTkError : Type :=
| MissingType                     (* Missing or invalid type *)
| MissingLength (typ : Z)         (* Missing length *)
| ValueOutOfRange (val : Z)       (* Value out of range (-32,768 to 32,767) *)
| SkipOutOfRange (skp : Z).       (* Skip amount out of range (2 to 17) *)

(** [NewRtfTk(typ, len, val, skp)], for arguments that are integers or are
    missing ([None]: [parseInt] answers [NaN] for them). *)
Definition NewRtfTk (typ len val skp : option Z) : NewTkError + Z :=
  match typ with
  | None => inl MissingType
  | Some typ =>
      let len :=
        match len with
        | Some len => Some len
        | None =>
            if (typ =? 2) || (typ =? 3) then Some 1
            else if typ =? 4 then Some 2
            else None
        end in
      match len with
      | None => inl (MissingLength typ)
      | Some len =>
          let hv :=
            match val with
            | None => inr (0, 0)
            | Some val =>
                if (val <? -32768) || (val >? 32767) then inl (ValueOutOfRange val)
                else inr (1, val)
            end in
          match hv with
          | inl e => inl e
          | inr (has, val) =>
              let sk :=
                match skp with
                | None => inr 0
                | Some skp =>
                    if (skp <? 2) || (skp >? 17) then inl (SkipOutOfRange skp)
                    else inr (skp - 2)
                end in
              match sk with
              | inl e => inl e
              | inr skp =>
                  inr (JS.bor (JS.bor (JS.bor (JS.bor (JS.shl has 31) (JS.shl val 15))
                                              (JS.shl skp 11)) (JS.shl typ 8)) len)
              end
          end
      end
  end.

End Tok.


(** ** The block skipper *)

Module Skip.
Import Tok.

(** The loop of [RtfSkipB],
    [for (var ps = i; ps < s.length; ps += tl)].  A token of length 0
    does not advance [ps], so the loop need not end: [fuel] bounds the
    number of iterations and [None] means the bound was reached. *)
Fixpoint RtfSkipB_loop (fuel : nat) (s : string) (ps : nat) (bc : Z) : option nat :=
  match fuel with
  | O => None
  | S fuel' =>
      if (ps <? String.length s)%nat then
        let tk := GetRtfTk s ps in
        let tl := JS.band tk 255 in
        let ty := JS.band (JS.shr tk 8) 7 in
        if ty =? 2 then RtfSkipB_loop fuel' s (ps + Z.to_nat tl) (bc + 1)
        else if ty =? 3 then
          if bc =? 0 then Some (ps + Z.to_nat tl)%nat
          else RtfSkipB_loop fuel' s (ps + Z.to_nat tl) (bc - 1)
        else RtfSkipB_loop fuel' s (ps + Z.to_nat tl) bc
      else Some ps
  end.

(** [RtfSkipB(s, i, bc)]; a missing [bc] is 0. *)
Definition RtfSkipB (fuel : nat) (s : string) (i : nat) (bc : option Z) : option nat :=
  RtfSkipB_loop fuel s i (match bc with Some b => b | None => 0 end).

(** The scan that the loops of [RtfSkipB] and [RtfParser::Document]
    share: tokenize at the cursor, advance by [tk & 0xFF], until the
    cursor is no longer inside the source.  It answers the tokens met
    and the final cursor. *)
Fixpoint scan (fuel : nat) (s : string) (pos : nat) : option (list Z * nat) :=
  match fuel with
  | O => None
  | S fuel' =>
      if (pos <? String.length s)%nat then
        let tk := GetRtfTk s pos in
        match scan fuel' s (pos + Z.to_nat (RtfTkLen tk)) with
        | Some (tks, p) => Some (tk :: tks, p)
        | None => None
        end
      else Some ([], pos)
  end.

Definition sum_len (tks : list Z) : Z := fold_right (fun t acc => RtfTkLen t + acc) 0 tks.

(** [lexes s i tks j]: tokenizing [s] from offset [i], each token found
    inside the source and followed by the next, meets the tokens [tks]
    and arrives at offset [j]. *)
Inductive lexes (s : string) : nat -> list Z -> nat -> Prop :=
| lexes_nil (i : nat) : lexes s i [] i
| lexes_cons (i : nat) (tk : Z) (tks : list Z) (j : nat) :
    (i < String.length s)%nat ->
    tk = GetRtfTk s i ->
    lexes s (i + Z.to_nat (RtfTkLen tk)) tks j ->
    lexes s i (tk :: tks) j.

(** Token sequences in which every [GroupOpen] has its [GroupClose]:
    nothing, a token that is no brace before such a sequence, or a group
    around one, before another. *)
Inductive balanced : list Z -> Prop :=
| balanced_nil : balanced []
| balanced_plain (t : Z) (ts : list Z) :
    RtfTkTyp t <> PUSH -> RtfTkTyp t <> POP -> balanced ts -> balanced (t :: ts)
| balanced_group (t1 : Z) (inner : list Z) (t2 : Z) (ts : list Z) :
    RtfTkTyp t1 = PUSH -> balanced inner -> RtfTkTyp t2 = POP -> balanced ts ->
    balanced (t1 :: inner ++ t2 :: ts).

(** Token sequences that leave [k] groups: [k] times a balanced run and
    the [GroupClose] that ends the group around it, then a balanced run. *)
Inductive leaves : nat -> list Z -> Prop :=
| leaves_O (tks : list Z) : balanced tks -> leaves O tks
| leaves_S (k : nat) (inner : list Z) (t : Z) (ts : list Z) :
    balanced inner -> RtfTkTyp t = POP -> leaves k ts -> leaves (S k) (inner ++ t :: ts).

End Skip.

(** ** The OLE Package decoder *)

Module Pkg.

(** [RtfPkgOb] and [bstr_] call the functions [trace] and [dtrace],
    which the repository defines nowhere: they are looked up among the
    globals of the program that loads the module.  A call of one that is
    not defined throws a [ReferenceError]; one that is defined is taken
    to log its message and to return.  The module on its own runs with
    [no_hooks]. *)
Record Hooks : Type := MkHooks {
  has_trace : bool;
  has_dtrace : bool
}.
Definition no_hooks : Hooks := MkHooks false false.
Definition all_hooks : Hooks := MkHooks true true.

(** The errors [RtfPkgOb] throws, one per [throw], and the
    [ReferenceError] of a call of [f] that is not defined. *)
Inductive Error : Type :=
| NotDefined (f : string)         (* ReferenceError: f is not defined *)
| BadMagic (n : Z)                (* Expected: 01 05 00 00 *)
| BadConstant (n : Z)             (* Expected: 02 00 00 00 (2) *)
| ExpectedTwoZeros                (* Expected two zero numbers! *)
| InvalidSize (n : Z)             (* Invalid Size *)
| InvalidStringsLength (n : Z)    (* Invalid Strings.length *)
| ExpectedDoubleZero              (* Expected Double-Zero's After Strings *)
| UnsupportedOleType (n : Z)      (* Unsupported OLE Type *)
| WastedData (n : Z)              (* Wasted Data *)
| InvalidTerminator (n : Z)       (* Invalid Terminator *)
| BstrOutOfData                   (* bstr_: Out of Data *)
| UnterminatedString (c : option Z) (* bstr_: Unterminated String *)
| HxOutOfData                     (* hx_: Out of Data *)
| HxUnexpectedCode (c : option Z). (* hx_: Unexpected Code *)

Inductive result (A : Type) : Type :=
| Ok (a : A) (i : nat)
| Throw (e : Error).
Arguments Ok {A} a i.
Arguments Throw {A} e.

(** A reader: from the cursor [i] to a value and the new cursor, or an
    exception. *)
Definition Dec (A : Type) : Type := nat -> result A.

Definition ret {A} (a : A) : Dec A := fun i => Ok a i.
Definition bind {A B} (m : Dec A) (k : A -> Dec B) : Dec B :=
  fun i => match m i with
           | Ok a j => k a j
           | Throw e => Throw e
           end.
Definition throw {A} (e : Error) : Dec A := fun _ => Throw e.
Definition cursor : Dec nat := fun i => Ok i i.

Global Instance dec_ret : MRet Dec := fun A a => ret a.
Global Instance dec_bind : MBind Dec := fun A B k m => bind m k.

(** [String.fromCharCode.apply(null, a)]: codes are taken modulo 2^16. *)
Definition fromCharCode (a : list Z) : list Z := map (fun c => c mod 65536) a.

Section Readers.
Variable G : Hooks.
Variable txt : string.
Variable end_ : nat.

(** [trace(...)] and [dtrace(...)]: the message is built from values at
    hand and has no effect of its own. *)
Definition trace : Dec unit :=
  if has_trace G then ret tt else throw (NotDefined "trace").
Definition dtrace : Dec unit :=
  if has_dtrace G then ret tt else throw (NotDefined "dtrace").

(** The [do ... while] of [hx_]: read [txt.charCodeAt(i++)] until the
    character is not a space, CR or LF.  Run on the text from [i] on, it
    answers the last [c] read and the final [i]. *)
Fixpoint hx_skip (rest : string) (i : nat) : option Z * nat :=
  match rest with
  | String a rest' =>
      let c := JS.code a in
      if (c =? 32) || (c =? 13) || (c =? 10) then hx_skip rest' (S i)
      else (Some c, S i)
  | EmptyString => (None, S i)
  end.

(** [hx_()]: read hex character *)
Definition hx_ : Dec Z := fun i =>
  let '(c, i) := hx_skip (JS.drop i txt) i in
  match c with
  | Some c =>
      if (c >=? 48) && (c <=? 57) then Ok (c - 48) i
      else if (c >=? 65) && (c <=? 90) then Ok (c - 55) i
      else if (c >=? 97) && (c <=? 122) then Ok (c - 87) i
      else if (end_ <=? i)%nat then Throw HxOutOfData
      else Throw (HxUnexpectedCode (Some c))
  | None =>
      if (end_ <=? i)%nat then Throw HxOutOfData
      else Throw (HxUnexpectedCode None)
  end.

(** [be4_()]: read 4-byte big endian integer *)
Definition be4_ : Dec Z :=
  h1 ← hx_; h2 ← hx_; h3 ← hx_; h4 ← hx_;
  h5 ← hx_; h6 ← hx_; h7 ← hx_; h8 ← hx_;
  ret (JS.bor (JS.bor (JS.bor (JS.bor (JS.bor (JS.bor (JS.bor
         (JS.shl h1 28) (JS.shl h2 24)) (JS.shl h3 20)) (JS.shl h4 16))
         (JS.shl h5 12)) (JS.shl h6 8)) (JS.shl h7 4)) h8).

(** [le4_()]: read 4-byte little endian integer *)
Definition le4_ : Dec Z :=
  h1 ← hx_; h2 ← hx_; h3 ← hx_; h4 ← hx_;
  h5 ← hx_; h6 ← hx_; h7 ← hx_; h8 ← hx_;
  ret (JS.bor (JS.bor (JS.bor (JS.bor (JS.bor (JS.bor (JS.bor
         (JS.shl h1 4) h2) (JS.shl h3 12)) (JS.shl h4 8))
         (JS.shl h5 20)) (JS.shl h6 16)) (JS.shl h7 28)) (JS.shl h8 24)).

(** [le2_()]: read 2-byte little endian integer *)
Definition le2_ : Dec Z :=
  h1 ← hx_; h2 ← hx_; h3 ← hx_; h4 ← hx_;
  ret (JS.bor (JS.bor (JS.bor (JS.shl h1 4) h2) (JS.shl h3 12)) (JS.shl h4 8)).

(** One byte, [(hx_() << 4) | hx_()]. *)
Definition byte_ : Dec Z :=
  h1 ← hx_; h2 ← hx_; ret (JS.bor (JS.shl h1 4) h2).

(** The [while (i < end)] loop of [bstr_], on the chunk [a], the count
    [cnt] and the chunks [hs].  Every iteration advances the cursor, so
    [end - i] iterations are enough: [fuel] starts there. *)
Fixpoint bstr_loop (fuel : nat) (len : Z) (a : list Z) (cnt : Z)
         (hs : list (list Z)) : Dec (list Z * list (list Z)) :=
  match fuel with
  | O => ret (a, hs)
  | S fuel' =>
      i ← cursor;
      if (i <? end_)%nat then
        c ← byte_;
        let a := a ++ [c] in
        let cnt := cnt + 1 in
        if cnt >=? len then ret (a, hs)
        else if (Z.of_nat (List.length a) >? 500)
             then bstr_loop fuel' len [] cnt (hs ++ [fromCharCode a])
             else bstr_loop fuel' len a cnt hs
      else ret (a, hs)
  end.

(** [bstr_(zt)]: read binary string that is preceded by a 4-byte length *)
Definition bstr_ (zt : bool) : Dec (list Z) :=
  len ← le4_;
  dtrace;;
  i ← cursor;
  if Z.of_nat i + len >? Z.of_nat end_ then throw BstrOutOfData
  else
    '(a, hs) ← bstr_loop (end_ - i) len [] 0 [];
    let hs := if (Z.of_nat (List.length a) >? 0) then hs ++ [fromCharCode a] else hs in
    let s := concat hs in
    if zt then
      match last s with
      | Some 0 => ret (removelast s)
      | c => throw (UnterminatedString c)
      end
    else ret s.

(** The loop of [str_]. *)
Fixpoint str_loop (fuel : nat) (a : list Z) (hs : list (list Z))
  : Dec (list Z * list (list Z)) :=
  match fuel with
  | O => ret (a, hs)
  | S fuel' =>
      i ← cursor;
      if (i <? end_)%nat then
        c ← byte_;
        if c =? 0 then ret (a, hs)
        else
          let a := a ++ [c] in
          if (Z.of_nat (List.length a) >? 500)
          then str_loop fuel' [] (hs ++ [fromCharCode a])
          else str_loop fuel' a hs
      else ret (a, hs)
  end.

(** [str_()]: read string that is zero terminated w/ no length prefix *)
Definition str_ : Dec (list Z) :=
  i ← cursor;
  '(a, hs) ← str_loop (end_ - i) [] [];
  let hs := if (Z.of_nat (List.length a) >? 0) then hs ++ [fromCharCode a] else hs in
  ret (concat hs).

(** An item of the package: [path], [data] when the package is static,
    and [name], which the last pass of [RtfPkgOb] fills in. *)
Record Item : Type := MkItem {
  path : list Z;
  data : option (list Z);
  name : list Z
}.

Record Package : Type := MkPackage {
  progid : list Z;
  totalsz : Z;
  strings : list (list Z);
  label : list Z;
  oletype : Z;
  items : list Item
}.

(** [for (var si = 0; si < pkg.strings.length; si++)]: the string table,
    with the byte counter. *)
Fixpoint strings_loop (n : nat) (acc : list (list Z)) (bc : Z)
  : Dec (list (list Z) * Z) :=
  match n with
  | O => ret (acc, bc)
  | S n' =>
      str ← str_;
      let bc := bc + Z.of_nat (List.length str) + 1 in
      trace;;
      strings_loop n' (acc ++ [str]) bc
  end.

(** [while (i < end)]: the items of a static package, as pairs of a
    path and its data. *)
Fixpoint static_loop (fuel : nat) (size : Z) (acc : list (list Z * option (list Z)))
         (bc : Z) : Dec (list (list Z * option (list Z)) * Z) :=
  match fuel with
  | O => ret (acc, bc)
  | S fuel' =>
      i ← cursor;
      if (i <? end_)%nat then
        dtrace;;
        p ← bstr_ true;
        let bc := bc + Z.of_nat (List.length p) + 5 in
        dtrace;;
        d ← bstr_ false;
        let bc := bc + Z.of_nat (List.length d) + 4 in
        let acc := acc ++ [(p, Some d)] in
        if bc =? size - 2 then ret (acc, bc)
        else static_loop fuel' size acc bc
      else ret (acc, bc)
  end.

(** [item.path.indexOf("~") >= 0] *)
Definition has_tilde (p : list Z) : bool := existsb (fun c => c =? 126) p.

(** [for (var si = 0; si < pkg.items.length; si++)]: the items of a
    linked package. *)
Fixpoint linked_loop (n : nat) (lbl : list Z) (acc : list (list Z * option (list Z)))
         (bc : Z) : Dec (list (list Z * option (list Z)) * Z) :=
  match n with
  | O => ret (acc, bc)
  | S n' =>
      p ← str_;
      trace;;
      let bc := bc + Z.of_nat (List.length p) + 1 in
      p ← (if has_tilde p then trace;; ret lbl else ret p);
      linked_loop n' lbl (acc ++ [(p, None)]) bc
  end.

(** [p.lastIndexOf("\\")], -1 when there is none. *)
Fixpoint lastIndexOf_from (p : list Z) (c : Z) (i found : Z) : Z :=
  match p with
  | [] => found
  | x :: p' => lastIndexOf_from p' c (i + 1) (if x =? c then i else found)
  end.
Definition lastIndexOf (p : list Z) (c : Z) : Z := lastIndexOf_from p c 0 (-1).

(** The last pass: [si = item.path.lastIndexOf("\\")], then
    [item.path.substr(si + 1)] if [si > 0], else [item.path]. *)
Definition item_name (p : list Z) : list Z :=
  let si := lastIndexOf p 92 in
  if si >? 0 then drop (Z.to_nat (si + 1)) p else p.

Definition with_name (it : list Z * option (list Z)) : Item :=
  MkItem (fst it) (snd it) (item_name (fst it)).

(** [RtfPkgOb], as a reader started at [beg]. *)
Definition RtfPkgOb_body : Dec Package :=
  n ← be4_;
  if negb (n =? 17104896) then throw (BadMagic n) else   (* 0x01050000 *)
  n ← le4_;
  if negb (n =? 2) then throw (BadConstant n) else
  pid ← bstr_ true;
  trace;;
  z1 ← le4_;
  (if negb (z1 =? 0) then throw ExpectedTwoZeros
   else z2 ← le4_; if negb (z2 =? 0) then throw ExpectedTwoZeros else ret tt);;
  size ← le4_;
  trace;;
  if (size <? 2) || (size >? 1048576) then throw (InvalidSize size) else
  let bc := 0 in
  nstr ← le2_;
  let bc := bc + 2 in
  dtrace;;
  if (nstr <? 2) || (nstr >? 10) then throw (InvalidStringsLength nstr) else
  '(strs, bc) ← strings_loop (Z.to_nat nstr) [] bc;
  let lbl := nth 0 strs [] in
  let bc := bc + 2 in
  z ← le2_;
  if negb (z =? 0) then throw ExpectedDoubleZero else
  ty ← le2_;
  let bc := bc + 2 in
  trace;;
  if negb (ty =? 1) && negb (ty =? 3) then throw (UnsupportedOleType ty) else
  its ← (if ty =? 3 then
           i ← cursor;
           '(its, bc) ← static_loop (end_ - i) size [] bc;
           ret its
         else
           m ← le2_;
           let bc := bc + 2 in
           dtrace;;
           '(its, bc) ← linked_loop (Z.to_nat m) lbl [] bc;
           if negb (bc =? size - 2) then throw (WastedData (size - 2 - bc))
           else ret its);
  trm ← le2_;
  if negb (trm =? 0) then throw (InvalidTerminator trm) else
  ret (MkPackage pid size strs lbl ty (map with_name its)).

End Readers.

(** [RtfPkgOb(txt, beg, end)], run where the hooks are as [G] says. *)
Definition RtfPkgOb (G : Hooks) (txt : string) (beg end_ : nat) : result Package :=
  RtfPkgOb_body G txt end_ beg.

(** The characters [hx_] skips, and those it takes for a digit. *)
Definition is_ws (c : Z) : bool := (c =? 32) || (c =? 13) || (c =? 10).
Definition is_alnum (c : Z) : bool :=
  ((c >=? 48) && (c <=? 57)) || ((c >=? 65) && (c <=? 90)) || ((c >=? 97) && (c <=? 122)).

(** The range is closed at [end_]: the character there, if the text has
    one, is neither skipped nor taken for a digit.  The converter calls
    [RtfPkgOb] with the offset of the brace that closes [\objdata]. *)
Definition closed_at (txt : string) (end_ : nat) : bool :=
  match JS.charCodeAt txt end_ with
  | Some c => negb (is_ws c) && negb (is_alnum c)
  | None => true
  end.

(** Only skipped characters are left from [i] to [end_]. *)
Definition blank_until (txt : string) (i end_ : nat) : Prop :=
  forall k, (i <= k < end_)%nat ->
            exists c, JS.charCodeAt txt k = Some c /\ is_ws c = true.

(** A reader that, started at or before [end_], ends there at the
    latest when it succeeds. *)
Definition stays {A : Type} (end_ : nat) (m : Dec A) : Prop :=
  forall (i : nat) (a : A) (j : nat),
    (i <= end_)%nat -> m i = Ok a j -> (i <= j <= end_)%nat.

(** A reader that never moves the cursor back, and one that moves it
    on, when they succeed. *)
Definition forward {A : Type} (m : Dec A) : Prop :=
  forall (i : nat) (a : A) (j : nat), m i = Ok a j -> (i <= j)%nat.
Definition progresses {A : Type} (m : Dec A) : Prop :=
  forall (i : nat) (a : A) (j : nat), m i = Ok a j -> (i < j)%nat.

(** A reader that, started at or before [end_], has moved the cursor on
    by [n] characters at least, and not past [end_], when it succeeds. *)
Definition takes {A : Type} (end_ n : nat) (m : Dec A) : Prop :=
  forall (i : nat) (a : A) (j : nat),
    (i <= end_)%nat -> m i = Ok a j -> (i + n <= j <= end_)%nat.

(** Only characters that [hx_] skips or takes for a digit stand from
    [i] to [end_]. *)
Definition hex_until (txt : string) (i end_ : nat) : Prop :=
  forall k, (i <= k < end_)%nat ->
            exists c, JS.charCodeAt txt k = Some c /\ is_ws c || is_alnum c = true.

(** A reader that, started at or before [end_] on such a text, throws
    only errors with the property [P]. *)
Definition fails_with {A : Type} (txt : string) (end_ : nat) (P : Error -> Prop)
           (m : Dec A) : Prop :=
  forall (i : nat) (e : Error),
    (i <= end_)%nat -> hex_until txt i end_ -> m i = Throw e -> P e.

(** The errors of [bstr_] on such a text. *)
Definition bstr_error (e : Error) : Prop :=
  e = HxOutOfData \/ e = BstrOutOfData \/ (exists c, e = UnterminatedString c) \/
  e = NotDefined "dtrace".

(** A reader whose value, when it succeeds, has the property [Q]. *)
Definition yields {A : Type} (m : Dec A) (Q : A -> Prop) : Prop :=
  forall (i : nat) (a : A) (j : nat), m i = Ok a j -> Q a.

(** The codes of a byte string, to write decoded strings down. *)
Fixpoint codes (s : string) : list Z :=
  match s with
  | String a s' => JS.code a :: codes s'
  | EmptyString => []
  end.

(** The text of bytes in [\objdata]: two upper-case hexadecimal digits
    for each byte. *)
Definition hexchar (n : Z) : ascii :=
  ascii_of_nat (Z.to_nat (if n <? 10 then 48 + n else 55 + n)).
Definition hex2 (b : Z) : string :=
  String (hexchar (b / 16)) (String (hexchar (b mod 16)) EmptyString).
Fixpoint hex (l : list Z) : string :=
  match l with
  | [] => EmptyString
  | b :: l' => (hex2 b ++ hex l')%string
  end.

(** The number whose hexadecimal digits are [l], the lowest first. *)
Fixpoint nib (l : list Z) : Z :=
  match l with
  | [] => 0
  | n :: l' => n + 16 * nib l'
  end.

End Pkg.

(** ** The parser *)

Module Parser.
Import Tok Skip.

(** What the parser is given from outside: handler functions, compared
    by reference ([===]), among them the values that a plain object
    inherits under the names of [Object.prototype], which the parser
    takes for handlers when a destination has such a name; regular
    expressions, with [toString] and [test] (patterns without the [g]
    and [y] flags, whose [test] depends on the pattern and the string
    only); the state the handlers work on (the document and what they
    attach to frames), and the exceptions they throw. *)
Class Host : Type := MkHost {
  Handler : Type;
  Handler_eq_dec :: EqDecision Handler;
  inherited : string -> Handler;
  RegExp : Type;
  re_toString : RegExp -> string;
  re_test : RegExp -> string -> bool;
  World : Type;
  Exn : Type
}.

(** A stack frame, [nfr]: the opening control word and its position, its
    name, the stack path and the resolved handlers. *)
Record Frame `{Host} : Type := MkFrame {
  f_tok : Z;
  f_pos : nat;
  f_ctl : string;
  f_pth : string;
  f_dh : list Handler
}.

(** A call [h(t, s, i, o)]: the handler sees the token, the source, the
    offset, its frame and the stack, and changes the world or throws. *)
Class Calls `{Host} : Type :=
  call : Handler -> Z -> string -> nat -> Frame -> list Frame -> World -> Exn + World.

(** [this.frm]: the empty object the constructor sets, [null], or a
    frame. *)
Inductive Cur `{Host} : Type :=
| CurInit
| CurNull
| CurFrame (f : Frame).

(** The first argument of [HandleDest]: a regular expression, a
    string, [null] or [undefined], or any other value, whose
    [constructor] is neither [RegExp] nor [String]. *)
Inductive Dest `{Host} : Type :=
| DRegExp (re : RegExp)
| DString (d : string)
| DOther
| DNull.

(** The parser object.  [dhd] and [dhc] are plain objects used as
    dictionaries: the maps hold their own properties, and what they
    inherit is read through [dhd_get] and [cache_broken].  [dhc] holds
    [null] for a path that resolved to no handler, which [hasOwnProperty]
    tells from a path that is not cached; [dhc_bare] tells that [dhc]
    has lost its prototype.  [dhr] is the array of the registered
    patterns and handlers, taken in pairs. *)
Record RtfParser `{Host} : Type := MkParser {
  txt : string;
  pos : nat;
  world : World;
  stk : list Frame;
  frm : Cur;
  dhd : gmap string (list Handler);
  dhr : list (RegExp * Handler);
  dhc : gmap string (option (list Handler));
  dhc_bare : bool;
  chit : Z;
  cmis : Z
}.

(** What [this.dhd[k]] answers: an array that [HandleDest] stored, a
    function or the prototype object that [this.dhd] inherits, or
    [undefined]. *)
Inductive Slot `{Host} : Type :=
| Own (l : list Handler)
| ProtoFunction (v : Handler)
| ProtoObject (v : Handler)
| Undefined.

(** What [Handlers] answers: [null], a list, or the [TypeError] of
    calling [this.dhc.hasOwnProperty] when that is no function. *)
Inductive Answer `{Host} : Type :=
| NotAFunction
| Resolved (dh : option (list Handler)).

(** The exceptions of [HandleDest]: "Invalid destination param", and the
    [TypeError]s of [list.push] on a value without [push] and of
    [dest.constructor] on [null]. *)
Inductive DestError : Type :=
| InvalidDestination
| NoPush
| NoConstructor.

Section Defs.
Context `{HC : Calls}.

Definition set_pos (p : RtfParser) (n : nat) : RtfParser :=
  MkParser _ (txt p) n (world p) (stk p) (frm p) (dhd p) (dhr p) (dhc p) (dhc_bare p)
           (chit p) (cmis p).
Definition set_world (p : RtfParser) (w : World) : RtfParser :=
  MkParser _ (txt p) (pos p) w (stk p) (frm p) (dhd p) (dhr p) (dhc p) (dhc_bare p)
           (chit p) (cmis p).
Definition set_stack (p : RtfParser) (st : list Frame) (f : Cur) : RtfParser :=
  MkParser _ (txt p) (pos p) (world p) st f (dhd p) (dhr p) (dhc p) (dhc_bare p)
           (chit p) (cmis p).
Definition set_registry (p : RtfParser) (d : gmap string (list Handler))
           (r : list (RegExp * Handler)) : RtfParser :=
  MkParser _ (txt p) (pos p) (world p) (stk p) (frm p) d r (dhc p) (dhc_bare p)
           (chit p) (cmis p).
Definition set_cache (p : RtfParser) (c : gmap string (option (list Handler)))
           (hit mis : Z) : RtfParser :=
  MkParser _ (txt p) (pos p) (world p) (stk p) (frm p) (dhd p) (dhr p) c (dhc_bare p)
           hit mis.
Definition set_bare (p : RtfParser) (b : bool) : RtfParser :=
  MkParser _ (txt p) (pos p) (world p) (stk p) (frm p) (dhd p) (dhr p) (dhc p) b
           (chit p) (cmis p).

(** [new RtfParser(text, strict, true)]: no basic handler enabled. *)
Definition new_parser (text : string) (w : World) : RtfParser :=
  MkParser _ text 0 w [] CurInit ∅ [] ∅ false 0 0.

(** [this.dhd[k]] *)
Definition dhd_get (d : gmap string (list Handler)) (k : string) : Slot :=
  match d !! k with
  | Some l => Own l
  | None =>
      if JS.is_proto_function k then ProtoFunction (inherited k)
      else if String.eqb k "__proto__" then ProtoObject (inherited k)
      else Undefined
  end.

(** [this.dhc.hasOwnProperty] is no function: [dhc] has a property of
    its own of that name (a cached list or [null]), or no prototype to
    inherit the function from. *)
Definition cache_broken (p : RtfParser) : bool :=
  dhc_bare p || match dhc p !! "hasOwnProperty"%string with Some _ => true | None => false end.

(** [this.dhc[path] = v].  Under the name [__proto__] it is the
    prototype of [dhc] that is set: to none when [v] is [null], to the
    list otherwise, through which [dhc] still inherits
    [hasOwnProperty]. *)
Definition cache_put (p : RtfParser) (pth : string) (v : option (list Handler))
  : RtfParser :=
  if String.eqb pth "__proto__"
  then match v with None => set_bare p true | Some _ => p end
  else set_cache p (<[pth := v]> (dhc p)) (chit p) (cmis p).

(** [for (i = 0; i < list.length; i++) if (list[i] === handler) break;]
    then [i == list.length]: the handler is not in the list. *)
Definition absent (h : Handler) (l : list Handler) : bool :=
  forallb (fun h' => negb (bool_decide (h' = h))) l.

(** [RtfParser::HandleDest(dest, handler)]: the parser it leaves and
    the exception, if it throws one.  The cache is cleared first, by a
    new object.  Under a name that [this.dhd] inherits, [list] is not
    [null]: a function has a [length] and no elements, so that the loop
    ends with [i == list.length] and [list.push] is called, which no
    function has; the prototype object has no [length], the loop does
    not run and [0 == undefined] is false, so that nothing is done. *)
Definition HandleDest (p : RtfParser) (dest : Dest) (handler : Handler)
  : RtfParser * (DestError + unit) :=
  let p := set_bare (set_cache p ∅ 0 0) false in
  match dest with
  | DRegExp re =>
      let sDest := re_toString re in
      if forallb (fun rh => negb (bool_decide (snd rh = handler)
                                  && String.eqb (re_toString (fst rh)) sDest)) (dhr p)
      then (set_registry p (dhd p) (dhr p ++ [(re, handler)]), inr tt)
      else (p, inr tt)
  | DString d =>
      match dhd_get (dhd p) d with
      | Undefined => (set_registry p (<[d := [handler]]> (dhd p)) (dhr p), inr tt)
      | Own l =>
          if absent handler l
          then (set_registry p (<[d := l ++ [handler]]> (dhd p)) (dhr p), inr tt)
          else (p, inr tt)
      | ProtoFunction _ => (p, inl NoPush)
      | ProtoObject _ => (p, inr tt)
      end
  | DOther => (p, inl InvalidDestination)
  | DNull => (p, inl NoConstructor)
  end.

(** Source 3 of [Handlers]: the loop over the registered patterns. *)
Fixpoint by_regexp (r : list (RegExp * Handler)) (pth : string) (dh : list Handler)
  : list Handler :=
  match r with
  | [] => dh
  | (re, fnc) :: r' =>
      if negb (absent fnc dh) then by_regexp r' pth dh
      else if re_test re pth then by_regexp r' pth (dh ++ [fnc])
      else by_regexp r' pth dh
  end.

(** [dh.concat(a)] when [a] is not [null]: an array gives its elements,
    any other value itself. *)
Definition concat_slot (dh : list Handler) (a : Slot) : list Handler :=
  match a with
  | Own l => dh ++ l
  | ProtoFunction v | ProtoObject v => dh ++ [v]
  | Undefined => dh
  end.

(** The list [Handlers] builds on a cache miss. *)
Definition build (d : gmap string (list Handler)) (r : list (RegExp * Handler))
           (nm pth : string) : list Handler :=
  let dh := [] in
  let dh := concat_slot dh (dhd_get d nm) in
  let dh := concat_slot dh (dhd_get d pth) in
  by_regexp r pth dh.

(** [RtfParser::Handlers(tok, txt, pos, name, path)]: the list, or
    [None] for [null]; the value of [this.dhc[path] = dh] is [dh]
    whatever the assignment does. *)
Definition Handlers (p : RtfParser) (nm pth : string) : Answer * RtfParser :=
  if cache_broken p then (NotAFunction, p)
  else
    match dhc p !! pth with
    | Some v => (Resolved v, set_cache p (dhc p) (chit p + 1) (cmis p))
    | None =>
        let p := set_cache p (dhc p) (chit p) (cmis p + 1) in
        let dh := build (dhd p) (dhr p) nm pth in
        if (length dh =? 0)%nat
        then (Resolved None, cache_put p pth None)
        else (Resolved (Some dh), cache_put p pth (Some dh))
    end.

(** What one iteration of the main loop ends in. *)
Inductive Error : Type :=
| NoControlAfterOpen            (* No control after open brace! *)
| UnhandledDestination (ctl pth : string)
| TooManyClosingBraces
| TypeError                     (* [this.frm._dh] is undefined, or
                                   [this.dhc.hasOwnProperty] is not a function *)
| HandlerThrew (e : Exn).

Inductive outcome : Type :=
| Done (p : RtfParser)
| Throws (e : Error)
| OutOfFuel.

(** [for (var i = 0; i < dh.length; i++) dh[i](t, s, i, o)] *)
Fixpoint call_all (dh : list Handler) (t : Z) (s : string) (i : nat) (o : Frame)
         (st : list Frame) (w : World) : Exn + World :=
  match dh with
  | [] => inr w
  | h :: dh' =>
      match call h t s i o st w with
      | inl e => inl e
      | inr w' => call_all dh' t s i o st w'
      end
  end.

(** [";" + ctl], where [null] would print as its name. *)
Definition ctl_text (c : option string) : string :=
  match c with Some c => c | None => "null" end.

(** After the open brace at the cursor: the token that follows it,
    [q] being the offset past the brace, or the token past that one
    when it is the ignorable marker.  It answers [ign], [this.pos] and
    [tok]. *)
Definition after_open (s : string) (q : nat) : bool * nat * Z :=
  let tok := GetRtfTk s q in
  let len := JS.band tok 255 in
  let typ := JS.band (JS.shr tok 8) 7 in
  if typ =? 4 then (true, (q + Z.to_nat len)%nat, GetRtfTk s (q + Z.to_nat len))
  else (false, q, tok).

(** The stack path of a new frame: [";" + ctl] on an empty stack, else
    the path of the top frame, [";"] and [ctl]. *)
Definition stack_path (st : list Frame) (ctl : string) : string :=
  match last st with
  | None => (";" ++ ctl)%string
  | Some top => (f_pth top ++ ";" ++ ctl)%string
  end.

(** The body of the main loop of [RtfParser::Document], followed by its
    increment [this.pos += len].  [fuel] bounds the loop of
    [RtfSkipB]. *)
Definition Document_iter (fuel : nat) (p : RtfParser) : outcome :=
  let tok := GetRtfTk (txt p) (pos p) in
  let len := JS.band tok 255 in
  let typ := JS.band (JS.shr tok 8) 7 in
  if typ =? 2 then
    let btk := tok in
    let bps := pos p in
    let '(ign, cpos, tok) := after_open (txt p) (pos p + Z.to_nat len) in
    let p := set_pos p cpos in
    let len := JS.band tok 255 in
    let typ := JS.band (JS.shr tok 8) 7 in
    if negb (typ =? 6) then Throws NoControlAfterOpen
    else
      let ctl := ctl_text (RtfTkCtl tok (txt p) (pos p)) in
      let pth := stack_path (stk p) ctl in
      let '(dh, p) := Handlers p ctl pth in
      match dh with
      | NotAFunction => Throws TypeError
      | Resolved None =>
          if negb ign then Throws (UnhandledDestination ctl pth)
          else
            match RtfSkipB fuel (txt p) (pos p) None with
            | None => OutOfFuel
            | Some q => Done (set_pos p q)      (* len = 0 *)
            end
      | Resolved (Some dh) =>
          let nfr := MkFrame _ tok (pos p) ctl pth dh in
          let p := set_stack p (stk p ++ [nfr]) (CurFrame nfr) in
          match call_all dh btk (txt p) bps nfr (stk p) (world p) with
          | inl e => Throws (HandlerThrew e)
          | inr w => Done (set_pos (set_world p w) (pos p + Z.to_nat len))
          end
      end
  else if typ =? 3 then
    match stk p, frm p with
    | [], _ => Throws TooManyClosingBraces
    | _, CurFrame f =>
        match call_all (f_dh f) tok (txt p) (pos p) f (stk p) (world p) with
        | inl e => Throws (HandlerThrew e)
        | inr w =>
            let st := removelast (stk p) in
            let cur := match last st with None => CurNull | Some top => CurFrame top end in
            Done (set_pos (set_stack (set_world p w) st cur) (pos p + Z.to_nat len))
        end
    | _, _ => Throws TypeError
    end
  else
    match frm p with
    | CurNull => Done (set_pos p (pos p + Z.to_nat len))
    | CurInit => Throws TypeError
    | CurFrame f =>
        match call_all (f_dh f) tok (txt p) (pos p) f (stk p) (world p) with
        | inl e => Throws (HandlerThrew e)
        | inr w => Done (set_pos (set_world p w) (pos p + Z.to_nat len))
        end
    end.

(** The main loop, [for ( ; this.pos < this.txt.length; this.pos += len)]. *)
Fixpoint Document_loop (fuel : nat) (p : RtfParser) : outcome :=
  match fuel with
  | O => OutOfFuel
  | S fuel' =>
      if (pos p <? String.length (txt p))%nat then
        match Document_iter fuel' p with
        | Done p' => Document_loop fuel' p'
        | r => r
        end
      else Done p
  end.

(** [RtfParser::Document(incomplete)] *)
Definition Document (fuel : nat) (incomplete : bool) (p : RtfParser) : outcome :=
  if incomplete || (pos p =? String.length (txt p))%nat then Done p
  else Document_loop fuel p.

(** The frames of a stack carry the path of their place: the path of
    the frame below, [";"] and the name of the frame. *)
Definition frames_ok (st : list Frame) : Prop :=
  forall (k : nat) (f : Frame),
    st !! k = Some f -> f_pth f = stack_path (take k st) (f_ctl f).

(** The current frame is the top of the stack; with an empty stack it is
    the empty object of the constructor or [null]. *)
Definition current_ok (p : RtfParser) : Prop :=
  match last (stk p) with
  | Some top => frm p = CurFrame top
  | None => frm p = CurInit \/ frm p = CurNull
  end.




End Defs.

(** The place of a name among those of [Object.prototype]. *)
Fixpoint index_of (k : string) (l : list string) (n : nat) : nat :=
  match l with
  | [] => n
  | x :: l' => if String.eqb x k then n else index_of k l' (S n)
  end.

(** A host to run the parser on: handlers are numbers, those from 1000
    on being the values that a plain object inherits (1000 for
    [constructor], which is [Object], up to 1010 for [__lookupSetter__], and
    1011 for the prototype object under [__proto__]); a pattern is a
    text that [test] looks for in the path.  The handlers do nothing.  So
    the inherited functions, called with a token, the source, an offset
    and a frame, except [__defineGetter__] and [__defineSetter__], which
    throw a [TypeError] because the source is no function; calling the
    prototype object throws one as well. *)
Definition demo_host : Host :=
  MkHost nat _ (fun k => 1000 + index_of k JS.proto_functions 0)%nat string (fun r => r)
         (fun r s => match String.index 0 r s with Some _ => true | None => false end)
         unit unit.

Definition demo_calls : @Calls demo_host :=
  fun h _ _ _ _ _ w =>
    if (h =? 1007)%nat || (h =? 1008)%nat || (h =? 1011)%nat then inl tt else inr w.

End Parser.

(** ** The basic handlers *)

Module Basic.
Import Tok.

(** [ctl] compared with a name ([==] of a string or [null] with a
    string). *)
Definition ctl_is (ctl : option string) (name : string) : bool :=
  match ctl with Some c => String.eqb name c | None => false end.

(** A colour object, [{ r, g, b }]; a component is [None] when it holds
    [NaN]. *)
Record Color : Type := MkColor {
  c_r : option Z;
  c_g : option Z;
  c_b : option Z
}.

(** [{ r : 0, g : 0, b : 0 }] *)
Definition zero_color : Color := MkColor (Some 0) (Some 0) (Some 0).

(** What [HandleColorTable] works on.  A colour object is shared by the
    array [o.doc.colors] and the property [o.color] of the frame, so the
    objects live in a store, [heap], and are named by their index in it.
    [doc_colors] is [o.doc.colors], [None] while the document has none;
    [o_color] is [o.color], [None] while the frame has none. *)
Record ColorState : Type := MkColorState {
  heap : list Color;
  doc_colors : option (list nat);
  o_color : option nat
}.

Inductive ColorError : Type :=
| ColorTypeError                      (* a property of [undefined] is used *)
| UnrecognizedToken (txt : string).   (* Unrecognized token in color table *)

(** [o.color.r = val] and the like: the object that [o.color] names is
    changed where it lives. *)
Definition set_field (f : Color -> Color) (st : ColorState) : ColorError + ColorState :=
  match o_color st with
  | None => inl ColorTypeError
  | Some ref => inr (MkColorState (alter f ref (heap st)) (doc_colors st) (o_color st))
  end.

(** [HandleColorTable(t, s, i, o)] *)
Definition HandleColorTable (t : Z) (s : string) (i : nat) (st : ColorState)
  : ColorError + ColorState :=
  if t =? 513 then
    match doc_colors st with
    | None =>
        let ref := length (heap st) in
        inr (MkColorState (heap st ++ [zero_color]) (Some [ref]) (Some ref))
    | Some _ => inr st
    end
  else if t =? 769 then inr st
  else
    let typ := JS.band (JS.shr t 8) 7 in
    if typ =? 1 then
      let txt := RtfTkTxt t s i in
      if String.eqb ";" txt then
        let ref := length (heap st) in
        match doc_colors st with
        | None => inl ColorTypeError
        | Some l => inr (MkColorState (heap st ++ [zero_color]) (Some (l ++ [ref])) (Some ref))
        end
      else inr st
    else if negb (typ =? 6) then inr st
    else
      let ctl := RtfTkCtl t s i in
      let val := RtfTkVal t in
      if ctl_is ctl "red" then set_field (fun c => MkColor val (c_g c) (c_b c)) st
      else if ctl_is ctl "green" then set_field (fun c => MkColor (c_r c) val (c_b c)) st
      else if ctl_is ctl "blue" then set_field (fun c => MkColor (c_r c) (c_g c) val) st
      else inl (UnrecognizedToken (RtfTkTxt t s i)).

(** The calls a frame's handler gets, one for each token and its
    offset, in the order of the source. *)
Fixpoint color_calls (s : string) (evs : list (Z * nat)) (st : ColorState)
  : ColorError + ColorState :=
  match evs with
  | [] => inr st
  | (t, i) :: evs' =>
      match HandleColorTable t s i st with
      | inl e => inl e
      | inr st' => color_calls s evs' st'
      end
  end.

(** The colours of the document, read through the store. *)
Definition colors_of (st : ColorState) : option (list (option Color)) :=
  match doc_colors st with
  | Some refs => Some (map (fun ref => heap st !! ref) refs)
  | None => None
  end.

(** The colour table as its text reads, without a store: it starts with
    one colour of zeros; a text token [;] ends the colour and starts the
    next one, again of zeros; [\red], [\green] and [\blue] set a
    component of the colour that is open. *)
Definition table_step (s : string) (cs : list Color) (ev : Z * nat) : list Color :=
  let '(t, i) := ev in
  if RtfTkTyp t =? DATA then
    if String.eqb ";" (RtfTkTxt t s i) then cs ++ [zero_color] else cs
  else if RtfTkTyp t =? CONTROL then
    let on_last f := alter f (length cs - 1)%nat cs in
    if ctl_is (RtfTkCtl t s i) "red" then on_last (fun c => MkColor (RtfTkVal t) (c_g c) (c_b c))
    else if ctl_is (RtfTkCtl t s i) "green"
         then on_last (fun c => MkColor (c_r c) (RtfTkVal t) (c_b c))
    else if ctl_is (RtfTkCtl t s i) "blue"
         then on_last (fun c => MkColor (c_r c) (c_g c) (RtfTkVal t))
    else cs
  else cs.

Definition color_table (s : string) (evs : list (Z * nat)) : list Color :=
  fold_left (table_step s) evs [zero_color].

(** The store holds the colours of the table and nothing else: the
    array names them in order and [o.color] names the last. *)
Definition color_inv (st : ColorState) (cs : list Color) : Prop :=
  heap st = cs /\ cs <> [] /\
  doc_colors st = Some (seq 0 (length cs)) /\ o_color st = Some (length cs - 1)%nat.

(** What [HandlePcData] works on: [o.dat], [None] while undefined, and
    the properties it has set on the previous stack frame,
    [o.stk[o.stk.length-2]], [None] when the stack holds no frame below
    the frame [o].  The properties are kept apart from the fields of the
    frame object ([tok], [pos], [ctl], [doc], [stk], [pth], [_dh]), which
    a destination of such a name would overwrite.  A frame is a plain
    object: a text assigned under the name [__proto__] goes to the
    accessor of [Object.prototype], which sets nothing. *)
Record PcState : Type := MkPcState {
  o_dat : option (list string);
  pfrm : option (gmap string string)
}.

Inductive PcError : Type :=
| PcTypeError                             (* a property of [undefined] is used *)
| PcNotDefined (st : PcState)             (* ReferenceError: dtrace is not defined *)
| UnexpectedType (typ : Z) (ctl : string). (* Unexpected type in #PCDATA *)

(** [RtfParser::HandlePcData(t, s, i, o)], [ctl] being [o.ctl].  At the
    close brace it sets the property and then calls [dtrace], one of the
    two hooks that the repository does not define ([Pkg.Hooks]): where
    [dtrace] is not defined the call ends in a [ReferenceError], which
    carries the state that the handler leaves behind. *)
Definition HandlePcData (G : Pkg.Hooks) (ctl : string) (t : Z) (s : string) (i : nat)
           (st : PcState) : PcError + PcState :=
  if t =? 513 then inr (MkPcState (Some []) (pfrm st))
  else if t =? 769 then
    match pfrm st, o_dat st with
    | Some props, Some d =>
        let props' := if String.eqb ctl "__proto__" then props
                      else <[ctl := String.concat "" d]> props in
        let st' := MkPcState (o_dat st) (Some props') in
        if Pkg.has_dtrace G then inr st' else inl (PcNotDefined st')
    | _, _ => inl PcTypeError
    end
  else
    let typ := RtfTkTyp t in
    if negb (typ =? 1) then inl (UnexpectedType typ ctl)
    else
      match o_dat st with
      | Some d => inr (MkPcState (Some (d ++ [RtfTkTxt t s i])) (pfrm st))
      | None => inl PcTypeError
      end.

Fixpoint pc_calls (G : Pkg.Hooks) (ctl : string) (s : string) (evs : list (Z * nat))
         (st : PcState) : PcError + PcState :=
  match evs with
  | [] => inr st
  | (t, i) :: evs' =>
      match HandlePcData G ctl t s i st with
      | inl e => inl e
      | inr st' => pc_calls G ctl s evs' st'
      end
  end.

(** The tokens of a scan from the offset [i], each with its offset. *)
Fixpoint events (i : nat) (tks : list Z) : list (Z * nat) :=
  match tks with
  | [] => []
  | t :: ts => (t, i) :: events (i + Z.to_nat (RtfTkLen t)) ts
  end.

(** The meta data [HandleMeta] puts on the document object.  A property
    is [None] while it is undefined; a number read from a token is
    [None] when it is [NaN]. *)
Record Doc : Type := MkDoc {
  d_ver : option (option Z);
  d_charset : option string;
  d_codepage : option (option Z);
  d_deff : option (option Z)
}.

(** [HandleMeta(t, s, i, o)], on [o.doc]; [o_tok] is [o.tok]. *)
Definition HandleMeta (t : Z) (s : string) (i : nat) (o_tok : Z) (doc : Doc) : Doc :=
  if t =? 513 then MkDoc (Some (RtfTkVal o_tok)) (d_charset doc) (d_codepage doc) (d_deff doc)
  else
    let ctl := RtfTkCtl t s i in
    if ctl_is ctl "ansi" || ctl_is ctl "mac" || ctl_is ctl "pc" || ctl_is ctl "pca"
    then MkDoc (d_ver doc) ctl (d_codepage doc) (d_deff doc)
    else if ctl_is ctl "ansicpg"
    then MkDoc (d_ver doc) (d_charset doc) (Some (RtfTkVal t)) (d_deff doc)
    else if ctl_is ctl "deff"
    then MkDoc (d_ver doc) (d_charset doc) (d_codepage doc) (Some (RtfTkVal t))
    else doc.

(** The handlers that the constructor of [RtfParser] enables, and the
    values that a plain object inherits. *)
Inductive BasicHandler : Type :=
| HMeta
| HFontTable
| HColorTable
| HInherited (k : string).

Global Instance BasicHandler_eq_dec : EqDecision BasicHandler.
Proof. solve_decision. Defined.

Section Enabled.
(** The state of the handlers other than [HandleMeta] and their
    exceptions are left open. *)
Variable W : Type.
Variable E : Type.

(** Patterns are not used by the basic handlers; as in [demo_host] a
    pattern is a text that [test] looks for. *)
Definition basic_host : Parser.Host :=
  Parser.MkHost BasicHandler _ HInherited string (fun r => r)
    (fun r s => match String.index 0 r s with Some _ => true | None => false end)
    (Doc * W) E.

(** What the other handlers do is left open as well. *)
Variable others :
  BasicHandler -> Z -> string -> nat -> @Parser.Frame basic_host ->
  list (@Parser.Frame basic_host) -> Doc * W -> E + Doc * W.

Definition basic_calls : @Parser.Calls basic_host :=
  fun h t s i o st w =>
    match h with
    | HMeta => inr (HandleMeta t s i (@Parser.f_tok basic_host o) (fst w), snd w)
    | _ => others h t s i o st w
    end.

(** [new RtfParser(text)]: the basic handlers are enabled. *)
Definition RtfParser_new (text : string) (w : Doc * W) : @Parser.RtfParser basic_host :=
  let p := @Parser.new_parser basic_host text w in
  let p := fst (Parser.HandleDest p (Parser.DString ";rtf") HMeta) in
  let p := fst (Parser.HandleDest p (Parser.DString ";rtf;fonttbl") HFontTable) in
  let p := fst (Parser.HandleDest p (Parser.DString ";rtf;fonttbl;f") HFontTable) in
  fst (Parser.HandleDest p (Parser.DString ";rtf;colortbl") HColorTable).

End Enabled.

End Basic.

(** ** Text escaping of the HTML converter *)

Module Html.

(** [s.replace(/c/g, r)] for a single character [c] and a replacement
    [r] without [$]. *)
Fixpoint replace_char (c : ascii) (r s : string) : string :=
  match s with
  | EmptyString => EmptyString
  | String a s' =>
      if Ascii.eqb a c then String.append r (replace_char c r s')
      else String a (replace_char c r s')
  end.

(** [s.replace(/  /g, r)]: the pairs of blanks are taken from left to
    right and do not overlap. *)
Fixpoint replace_blanks (r s : string) : string :=
  match s with
  | EmptyString => EmptyString
  | String a s' =>
      match s' with
      | EmptyString => s
      | String b s'' =>
          if Ascii.eqb a " " && Ascii.eqb b " "
          then String.append r (replace_blanks r s'')
          else String a (replace_blanks r s')
      end
  end.

(** The double quote. *)
Definition quote : ascii := ascii_of_nat 34.

(** [esc_(s)]. *)
Definition esc_ (s : string) : string :=
  replace_blanks " &nbsp;"
    (replace_char quote "&quot;"
       (replace_char ">" "&gt;"
          (replace_char "<" "&lt;"
             (replace_char "&" "&amp;" s)))).

(** [s] holds the character [c]. *)
Fixpoint has (c : ascii) (s : string) : bool :=
  match s with
  | EmptyString => false
  | String a s' => Ascii.eqb a c || has c s'
  end.

(** [s] begins with a blank. *)
Definition starts_blank (s : string) : bool :=
  match s with String a _ => Ascii.eqb a " " | EmptyString => false end.

(** [s] holds two blanks in a row. *)
Fixpoint has_blanks (s : string) : bool :=
  match s with
  | EmptyString => false
  | String a s' => (Ascii.eqb a " " && starts_blank s') || has_blanks s'
  end.

End Html.

(** ** Sample inputs *)

Definition CR : string := String (ascii_of_nat 13) EmptyString.
Definition LF : string := String (ascii_of_nat 10) EmptyString.

(** A linked package with one item, whose path is [\a]; and the same
    payload before the brace that closes its destination. *)
Definition pkg_linked : string :=
  "01050000 02000000 08000000 5061636b61676500 00000000 00000000 11000000 0200 4c00 4d00 0000 0100 0100 5c6100 0000".
Definition pkg_in_rtf : string := (pkg_linked ++ "}")%string.

(** [n] times the letter [a]. *)
Fixpoint letters (n : nat) : string :=
  match n with
  | O => EmptyString
  | S n' => String "a" (letters n')
  end.

(** A group that can be ignored, whose block holds a control word of
    255 letters; and the same group with a short word, before a group
    that cannot be ignored. *)
Definition ignorable_long : string := ("{\*\x \" ++ letters 255 ++ "}Kept")%string.
Definition ignorable_short : string := "{\*\x \b}{\x \b}".

(** * Properties *)

Import Tok Skip.

(** ** Strings and bytes *)

(** An integer below 2^53 in size is a double. *)
Lemma double_small (z : Z) :
  - 9007199254740992 < z < 9007199254740992 -> JS.double z = Some z.
Proof.
  intros Hz. unfold JS.double.
  assert (He : Z.log2 (Z.abs z) - 52 <= 0).
  { destruct (Z.eq_dec z 0) as [-> | Hne]; [vm_compute; discriminate|].
    assert (Hlog : Z.log2 (Z.abs z) < 53)
      by (apply Z.log2_lt_pow2; [lia | change (2 ^ 53) with 9007199254740992; lia]).
    lia. }
  apply Z.leb_le in He. rewrite He. reflexivity.
Qed.

Lemma add_small (x k : Z) :
  - 9007199254740992 < x + k < 9007199254740992 -> JS.add (Some x) k = Some (x + k).
Proof. intros H. unfold JS.add. apply double_small. exact H. Qed.

Lemma drop_get (s : string) (i : nat) :
  JS.drop i s =
  match String.get i s with
  | Some a => String a (JS.drop (S i) s)
  | None => EmptyString
  end.
Proof.
  revert s; induction i as [|i IH]; intros [|a s]; simpl; try reflexivity.
  apply IH.
Qed.

Lemma charCodeAt_drop (s : string) (i : nat) (c : Z) :
  JS.charCodeAt s i = Some c ->
  exists a, JS.code a = c /\ JS.drop i s = String a (JS.drop (S i) s).
Proof.
  unfold JS.charCodeAt; intros H. rewrite (drop_get s i).
  destruct (String.get i s) as [a|]; [|discriminate].
  exists a; split; congruence.
Qed.

Lemma charCodeAt_length (s : string) (i : nat) (c : Z) :
  JS.charCodeAt s i = Some c -> (i < String.length s)%nat.
Proof.
  unfold JS.charCodeAt. revert i; induction s as [|a s IH]; intros [|i]; simpl;
    try discriminate; try lia.
  intros H; apply IH in H; lia.
Qed.

Lemma code_range (a : ascii) : 0 <= JS.code a < 256.
Proof.
  unfold JS.code. pose proof (nat_ascii_bounded a). lia.
Qed.

(** A property of bytes that holds on the 256 of them holds of each. *)
Lemma byte_cases (P : Z -> bool) :
  forallb P (map Z.of_nat (seq 0 256)) = true ->
  forall c, 0 <= c < 256 -> P c = true.
Proof.
  intros H c Hc. rewrite forallb_forall in H. apply H.
  apply in_map_iff. exists (Z.to_nat c). split; [lia|].
  apply in_seq. lia.
Qed.

(** ** The tokenizer after a backslash *)

(** The test that guards the [return 2] of a one-character control word
    asks for a code below 123 and above 126: it never holds. *)
Lemma invalid_test_never (c : option Z) :
  JS.ne c 92 && JS.ne c 45 && JS.ne c 58 && JS.ne c 95 && JS.lt c 123 && JS.gt c 126 = false.
Proof.
  destruct c as [z|]; simpl.
  - destruct (z <? 123) eqn:Hlt; [|apply andb_false_intro1, andb_false_intro2; reflexivity].
    destruct (z >? 126) eqn:Hgt; [lia|]. apply andb_false_intro2; reflexivity.
  - reflexivity.
Qed.

(** The fields of the symbol token built from a byte. *)
Lemma symbol_fields (c : Z) :
  0 <= c < 256 ->
  let t := JS.bor (JS.bor (JS.shl 1 31) (JS.shl (JS.toInt32o (JS.add (Some c) 32768)) 15)) 1282 in
  RtfTkTyp t = SYMBOL /\ RtfTkLen t = 2 /\ RtfTkVal t = Some c.
Proof.
  intros Hc.
  pose (P := fun c =>
    let t := JS.bor (JS.bor (JS.shl 1 31) (JS.shl (JS.toInt32o (JS.add (Some c) 32768)) 15)) 1282 in
    (RtfTkTyp t =? SYMBOL) && (RtfTkLen t =? 2)
    && match RtfTkVal t with Some v => v =? c | None => false end).
  assert (HP : P c = true) by (apply byte_cases; [vm_compute; reflexivity | exact Hc]).
  unfold P in HP; cbv zeta in HP |- *.
  apply andb_prop in HP as [HP Hv]. apply andb_prop in HP as [Ht Hl].
  destruct (RtfTkVal _) as [v|]; [|discriminate].
  repeat split; [lia | lia | f_equal; lia].
Qed.

(** Every byte after a backslash that is not a lower-case letter, ['*'] or
    the apostrophe gives a symbol of length 2 that holds the byte: the
    tokenizer has no byte left for [Invalid]. *)
Lemma GetRtfTk_backslash_byte (s : string) (i : nat) (c : Z) :
  JS.charCodeAt s i = Some 92 ->
  JS.charCodeAt s (S i) = Some c ->
  ~ (97 <= c <= 122) -> c <> 42 -> c <> 39 ->
  let t := GetRtfTk s i in
  RtfTkTyp t = SYMBOL /\ RtfTkLen t = 2 /\ RtfTkVal t = Some c.
Proof.
  intros H0 H1 Hlow Hstar Hapo.
  destruct (charCodeAt_drop _ _ _ H1) as (a & Ha & Hd).
  unfold GetRtfTk. rewrite H0. cbn [JS.eq].
  change (92 =? 123) with false. change (92 =? 125) with false.
  change (92 =? 92) with true. cbv iota.
  rewrite Hd. cbn [scan_letters]. rewrite Ha.
  replace ((c >=? 97) && (c <=? 122)) with false
    by (symmetry; apply andb_false_iff; lia).
  cbv iota beta. change (1 =? 1) with true. cbv iota.
  rewrite H1. cbn [JS.eq].
  replace (c =? 42) with false by (symmetry; apply Z.eqb_neq; exact Hstar).
  replace (c =? 39) with false by (symmetry; apply Z.eqb_neq; exact Hapo).
  cbv iota. rewrite invalid_test_never.
  apply symbol_fields. rewrite <- Ha. apply code_range.
Qed.

(** C1.  After a backslash, ['!'] is none of the eight symbol characters,
    yet the tokenizer answers a symbol of length 2 with value 33, not an
    invalid token. *)
Theorem C1_bang_is_symbol :
  let t := GetRtfTk "\!" 0 in
  RtfTkTyp t = SYMBOL /\ RtfTkTyp t <> INVALID /\ RtfTkLen t = 2 /\ RtfTkVal t = Some 33.
Proof.
  destruct (GetRtfTk_backslash_byte "\!" 0 33) as (Ht & Hl & Hv);
    try reflexivity; try lia.
  cbv zeta. rewrite Ht. repeat split; try assumption. discriminate.
Qed.

(** ** Hexadecimal characters *)

Lemma hexdigit_range (h : option Z) (d : Z) :
  hexdigit h = Some d -> 0 <= d < 16.
Proof.
  unfold hexdigit. destruct h as [h|]; cbn [JS.ge JS.le]; [|discriminate].
  destruct ((h >=? 48) && (h <=? 57)) eqn:E1;
    [rewrite add_small by lia; intros [= <-]; lia|].
  destruct ((h >=? 65) && (h <=? 70)) eqn:E2;
    [rewrite add_small by lia; intros [= <-]; lia|].
  destruct ((h >=? 97) && (h <=? 102)) eqn:E3;
    [rewrite add_small by lia; intros [= <-]; lia|].
  discriminate.
Qed.

(** The fields of the character token built from two hexadecimal digits:
    the 16-bit field holds [(d1 << 4) | d2] itself, so that the value read
    back is 32768 less. *)
Lemma character_fields (d1 d2 : Z) :
  0 <= d1 < 16 -> 0 <= d2 < 16 ->
  let t := JS.bor (JS.bor (JS.bor (JS.shl 1 31) (JS.shl d1 19)) (JS.shl d2 15)) 1796 in
  RtfTkTyp t = CHARACTER /\ RtfTkLen t = 4 /\
  RtfTkVal t = Some (Z.lor (Z.shiftl d1 4) d2 - 32768).
Proof.
  intros H1 H2.
  pose (P := fun c =>
    let d1 := c / 16 in let d2 := c mod 16 in
    let t := JS.bor (JS.bor (JS.bor (JS.shl 1 31) (JS.shl d1 19)) (JS.shl d2 15)) 1796 in
    (RtfTkTyp t =? CHARACTER) && (RtfTkLen t =? 4)
    && match RtfTkVal t with
       | Some v => v =? Z.lor (Z.shiftl d1 4) d2 - 32768
       | None => false
       end).
  assert (HP : P (16 * d1 + d2) = true) by (apply byte_cases; [vm_compute; reflexivity | lia]).
  unfold P in HP; cbv zeta in HP |- *.
  replace ((16 * d1 + d2) / 16) with d1 in HP by (apply Z.div_unique with d2; lia).
  replace ((16 * d1 + d2) mod 16) with d2 in HP by (apply Z.mod_unique with d1; lia).
  apply andb_prop in HP as [HP Hv]. apply andb_prop in HP as [Ht Hl].
  destruct (RtfTkVal _) as [v|]; [|discriminate].
  repeat split; [lia | lia | f_equal; lia].
Qed.

(** What the tokenizer does on [\'] followed by two more bytes. *)
Lemma GetRtfTk_apostrophe (s : string) (i : nat) (h1 h2 : Z) :
  JS.charCodeAt s i = Some 92 ->
  JS.charCodeAt s (S i) = Some 39 ->
  JS.charCodeAt s (S i + 1) = Some h1 ->
  JS.charCodeAt s (S i + 2) = Some h2 ->
  GetRtfTk s i =
  match hexdigit (Some h1), hexdigit (Some h2) with
  | Some d1, Some d2 =>
      JS.bor (JS.bor (JS.bor (JS.shl 1 31) (JS.shl d1 19)) (JS.shl d2 15)) 1796
  | _, _ => 4
  end.
Proof.
  intros H0 H1 H2 H3.
  destruct (charCodeAt_drop _ _ _ H1) as (a & Ha & Hd).
  pose proof (charCodeAt_length _ _ _ H3) as Hlen.
  unfold GetRtfTk. rewrite H0. cbn [JS.eq].
  change (92 =? 123) with false. change (92 =? 125) with false.
  change (92 =? 92) with true. cbv iota.
  rewrite Hd. cbn [scan_letters]. rewrite Ha.
  change ((39 >=? 97) && (39 <=? 122)) with false.
  cbv iota beta. change (1 =? 1) with true. cbv iota.
  rewrite H1. cbn [JS.eq]. change (39 =? 42) with false. change (39 =? 39) with true.
  cbv iota.
  replace (Z.of_nat (S i) + 2 >? Z.of_nat (String.length s)) with false
    by (symmetry; rewrite Z.gtb_ltb; apply Z.ltb_ge; lia).
  rewrite H2, H3.
  destruct (hexdigit (Some h1)); [|reflexivity].
  destruct (hexdigit (Some h2)); reflexivity.
Qed.

(** C3.  [\'41] gives a character token of length 4, but the value
    accessor reads -32703 back from it, not [(4 << 4) | 1 = 65]: the
    tokenizer stores the digits without the offset 32768 that [RtfTkVal]
    subtracts. *)
Theorem C3_hex_value_offset :
  let t := GetRtfTk "\'41" 0 in
  RtfTkTyp t = CHARACTER /\ RtfTkLen t = 4 /\
  RtfTkVal t = Some (-32703) /\ RtfTkVal t <> Some (Z.lor (Z.shiftl 4 4) 1).
Proof.
  cbv zeta.
  rewrite (GetRtfTk_apostrophe "\'41" 0 52 49) by reflexivity.
  change (hexdigit (Some 52)) with (Some 4). change (hexdigit (Some 49)) with (Some 1).
  cbv iota.
  destruct (character_fields 4 1) as (Ht & Hl & Hv); try lia.
  rewrite Ht, Hl, Hv. repeat split. discriminate.
Qed.

(** ** Runs of CR and LF *)

(** The loop stops at the end of the run or when [len] reaches 255. *)
Lemma scan_crlf_run (rest : string) (len : Z) :
  1 <= len < 255 ->
  scan_crlf rest len = Z.min (len + Z.of_nat (crlf_run rest)) 255.
Proof.
  revert len; induction rest as [|a rest IH]; intros len Hlen; cbn [scan_crlf crlf_run].
  - lia.
  - destruct (JS.code a =? 10) eqn:E10; destruct (JS.code a =? 13) eqn:E13; cbn [negb andb orb];
      try (destruct (len + 1 =? 255) eqn:E; [lia | rewrite IH by lia; lia]).
    lia.
Qed.

(** The fields of the token built for a run of CR and LF. *)
Lemma crlf_fields (len : Z) :
  0 <= len < 256 ->
  let t := JS.bor (JS.bor (JS.shl 1 31) 1074169088) len in
  RtfTkTyp t = SYMBOL /\ RtfTkLen t = len /\ RtfTkVal t = Some 13.
Proof.
  intros Hlen.
  pose (P := fun len =>
    let t := JS.bor (JS.bor (JS.shl 1 31) 1074169088) len in
    (RtfTkTyp t =? SYMBOL) && (RtfTkLen t =? len)
    && match RtfTkVal t with Some v => v =? 13 | None => false end).
  assert (HP : P len = true) by (apply byte_cases; [vm_compute; reflexivity | exact Hlen]).
  unfold P in HP; cbv zeta in HP |- *.
  apply andb_prop in HP as [HP Hv]. apply andb_prop in HP as [Ht Hl].
  destruct (RtfTkVal _) as [v|]; [|discriminate].
  repeat split; [lia | lia | f_equal; lia].
Qed.

(** C2, as the code has it.  On a CR or LF the tokenizer answers a token
    of kind [Symbol] with value 13 and [has_value] set, whose length is the
    length of the run of CR and LF bytes that starts there, 255 at most. *)
Theorem C2_crlf_symbol (s : string) (i : nat) (c : Z) :
  JS.charCodeAt s i = Some c ->
  c = 10 \/ c = 13 ->
  let t := GetRtfTk s i in
  RtfTkTyp t = SYMBOL /\ RtfTkVal t = Some 13 /\
  RtfTkLen t = Z.min (Z.of_nat (crlf_run (JS.drop i s))) 255.
Proof.
  intros H0 Hc.
  destruct (charCodeAt_drop _ _ _ H0) as (a & Ha & Hd).
  assert (Hrun : crlf_run (JS.drop i s) = S (crlf_run (JS.drop (S i) s))).
  { rewrite Hd. cbn [crlf_run]. rewrite Ha.
    destruct Hc as [-> | ->]; reflexivity. }
  assert (Htk : GetRtfTk s i =
                JS.bor (JS.bor (JS.shl 1 31) 1074169088) (scan_crlf (JS.drop (S i) s) 1)).
  { unfold GetRtfTk. rewrite H0. destruct Hc as [-> | ->]; reflexivity. }
  cbv zeta. rewrite Htk, Hrun, scan_crlf_run by lia.
  set (len := Z.min (1 + Z.of_nat (crlf_run (JS.drop (S i) s))) 255).
  replace (Z.min (Z.of_nat (S (crlf_run (JS.drop (S i) s)))) 255) with len by (unfold len; lia).
  destruct (crlf_fields len) as (Ht & Hl & Hv); [unfold len; lia|].
  auto.
Qed.

Lemma C2_crlf_symbol_witness :
  let t := GetRtfTk (CR ++ LF ++ "text") 0 in
  RtfTkTyp t = SYMBOL /\ RtfTkVal t = Some 13 /\ RtfTkLen t = 2.
Proof.
  apply (C2_crlf_symbol (CR ++ LF ++ "text") 0 13); [reflexivity | right; reflexivity].
Defined.

(** The token of a CR LF pair is not of kind [ControlWord]. *)
Lemma C2_crlf_not_control :
  ~ (let t := GetRtfTk (CR ++ LF) 0 in
     RtfTkTyp t = CONTROL /\ RtfTkVal t = Some 13 /\ RtfTkLen t = 2).
Proof.
  cbv zeta. intros (Ht & _). vm_compute in Ht. discriminate.
Qed.

(** ** Token lengths over a scan *)

(** C4.  The source [\'] has two bytes.  The tokenizer takes its branch for
    an apostrophe with too little text left and answers an invalid token of
    length 3: the scan ends with the cursor at 3, past the end of the
    source, and the lengths add up to 3, not 2. *)
Theorem C4_scan_past_end (fuel : nat) :
  String.length "\'" = 2%nat /\
  scan (S (S fuel)) "\'" 0 = Some ([3], 3%nat) /\
  sum_len [3] = 3 /\
  RtfSkipB (S (S fuel)) "\'" 0 None = Some 3%nat.
Proof.
  repeat split.
Qed.

(** A backslash that ends the source gives a symbol of length 2, one more
    than the text that is left. *)
Lemma lone_backslash_token :
  RtfTkTyp (GetRtfTk "\" 0) = SYMBOL /\ RtfTkLen (GetRtfTk "\" 0) = 2.
Proof. split; reflexivity. Qed.

(** A control word of 255 letters gives a token whose length field is 0:
    the scan stays on it for ever. *)
Lemma zero_length_token : RtfTkLen (GetRtfTk ("\" ++ letters 255) 0) = 0.
Proof. vm_compute. reflexivity. Qed.

Lemma scan_zero_length_stuck (fuel : nat) : scan fuel ("\" ++ letters 255) 0 = None.
Proof.
  induction fuel as [|fuel IH]; [reflexivity|].
  cbn [scan]. change (0 <? String.length ("\" ++ letters 255))%nat with true. cbv iota.
  rewrite zero_length_token. change (0 + Z.to_nat 0)%nat with 0%nat.
  rewrite IH. reflexivity.
Qed.

(** ** Which tokens are close braces *)

Lemma testbit_toInt32 (z n : Z) :
  0 <= n < 32 -> Z.testbit (JS.toInt32 z) n = Z.testbit z n.
Proof.
  intros Hn. unfold JS.toInt32.
  rewrite <- (Z.mod_pow2_bits_low ((z + 2147483648) mod 4294967296 - 2147483648) 32 n) by lia.
  rewrite <- (Z.mod_pow2_bits_low z 32 n) by lia.
  f_equal. change (2 ^ 32) with 4294967296.
  rewrite <- Zminus_mod_idemp_l.
  replace ((z + 2147483648) mod 4294967296 mod 4294967296 - 2147483648)
    with ((z + 2147483648) mod 4294967296 - 2147483648)
    by (rewrite Z.mod_mod by lia; reflexivity).
  rewrite Zminus_mod_idemp_l. f_equal. lia.
Qed.

Lemma bor_testbit (x y n : Z) :
  0 <= n < 32 ->
  Z.testbit (JS.toInt32 (JS.bor x y)) n = Z.testbit x n || Z.testbit y n.
Proof.
  intros Hn. unfold JS.bor.
  rewrite testbit_toInt32, Z.lor_spec, !testbit_toInt32 by lia. reflexivity.
Qed.

(** The type of a close brace has its high bit clear: bit 10 of the token. *)
Lemma pop_bit10 (t : Z) : RtfTkTyp t = POP -> Z.testbit (JS.toInt32 t) 10 = false.
Proof.
  unfold RtfTkTyp, JS.band, JS.shr, POP. intros H.
  assert (Hb : Z.testbit (Z.land (JS.toInt32 (Z.shiftr (JS.toInt32 t) 8)) (JS.toInt32 7)) 2
               = false) by (rewrite H; reflexivity).
  rewrite Z.land_spec, testbit_toInt32, Z.shiftr_spec in Hb by lia.
  change (Z.testbit (JS.toInt32 7) 2) with true in Hb.
  rewrite andb_true_r in Hb. exact Hb.
Qed.

Lemma scan_data_bound (rest : string) (len : Z) :
  1 <= len < 255 -> 1 <= scan_data rest len <= 255.
Proof.
  revert len; induction rest as [|a rest IH]; intros len Hlen; cbn [scan_data]; [lia|].
  destruct (_ || _); [lia|].
  destruct (len + 1 =? 255) eqn:E; [lia|]. apply IH. lia.
Qed.

Lemma data_type (len : Z) : 0 <= len < 256 -> RtfTkTyp (JS.bor 256 len) = DATA.
Proof.
  intros Hlen.
  pose (P := fun len => RtfTkTyp (JS.bor 256 len) =? DATA).
  assert (HP : P len = true) by (apply byte_cases; [vm_compute; reflexivity | exact Hlen]).
  unfold P in HP. lia.
Qed.

Lemma eq_Some (c : option Z) (k : Z) : JS.eq c k = true -> c = Some k.
Proof.
  destruct c as [z|]; cbn [JS.eq]; [|discriminate].
  intros H. f_equal. lia.
Qed.

(** A token of type [GroupClose] is the token 769 of a close brace. *)
Lemma GetRtfTk_pop (s : string) (i : nat) :
  RtfTkTyp (GetRtfTk s i) = POP ->
  GetRtfTk s i = 769 /\ JS.charCodeAt s i = Some 125.
Proof.
  assert (Hno : forall x c len, RtfTkTyp (JS.bor (JS.bor x c) len) = POP ->
                                Z.testbit c 10 = true -> False).
  { intros x c len H Hc. apply pop_bit10 in H.
    rewrite bor_testbit in H by lia.
    rewrite <- (testbit_toInt32 (JS.bor x c)) in H by lia.
    rewrite bor_testbit, Hc, orb_true_r in H by lia. discriminate. }
  assert (Hno1 : forall x c, RtfTkTyp (JS.bor x c) = POP -> Z.testbit c 10 = true -> False).
  { intros x c H Hc. apply pop_bit10 in H.
    rewrite bor_testbit, Hc, orb_true_r in H by lia. discriminate. }
  unfold GetRtfTk.
  destruct (JS.eq (JS.charCodeAt s i) 123); [intros H; vm_compute in H; discriminate|].
  destruct (JS.eq (JS.charCodeAt s i) 125) eqn:E125;
    [intros _; split; [reflexivity | apply eq_Some; exact E125]|].
  destruct (JS.eq (JS.charCodeAt s i) 92).
  - destruct (scan_letters (JS.drop (S i) s) (S i) 1) as [i' len].
    destruct (len =? 1).
    + destruct (JS.eq (JS.charCodeAt s i') 42); [intros H; vm_compute in H; discriminate|].
      destruct (JS.eq (JS.charCodeAt s i') 39) eqn:E39.
      * apply eq_Some, charCodeAt_length in E39.
        destruct (Z.of_nat i' + 2 >? Z.of_nat (String.length s)) eqn:Egt.
        { replace (Z.of_nat (String.length s) - Z.of_nat i' + 2) with 3 by lia.
          intros H; vm_compute in H; discriminate. }
        destruct (hexdigit _); [|intros H; vm_compute in H; discriminate].
        destruct (hexdigit _); [|intros H; vm_compute in H; discriminate].
        intros H. exfalso. eapply Hno1; [exact H | reflexivity].
      * destruct (_ && _); [intros H; vm_compute in H; discriminate|].
        intros H. exfalso. eapply Hno1; [exact H | reflexivity].
    + destruct (_ || _).
      * destruct (scan_value _ _ _) as [i'' len'].
        intros H. exfalso. eapply Hno; [exact H | reflexivity].
      * destruct (JS.eq _ 32); intros H; exfalso; (eapply Hno; [exact H | reflexivity]).
  - destruct (_ || _).
    + intros H. exfalso. eapply Hno; [exact H | reflexivity].
    + intros H. rewrite data_type in H; [discriminate|].
      pose proof (scan_data_bound (JS.drop (S i) s) 1 ltac:(lia)). lia.
Qed.

(** ** The block skipper *)

Lemma lexes_app_inv (s : string) (a b : list Z) (i j : nat) :
  lexes s i (a ++ b) j -> exists k, lexes s i a k /\ lexes s k b j.
Proof.
  revert i; induction a as [|t a IH]; intros i H; cbn [app] in H.
  - exists i. split; [constructor | exact H].
  - inversion H as [|i' tk tks j' Hlt Htk Hrest]; subst.
    destruct (IH _ Hrest) as (k & Ha & Hb).
    exists k. split; [econstructor; eauto | exact Hb].
Qed.

(** One turn of the loop, by the type of the token at the cursor. *)
Lemma RtfSkipB_loop_step (fuel : nat) (s : string) (ps : nat) (bc : Z) :
  (ps < String.length s)%nat ->
  let tk := GetRtfTk s ps in
  RtfSkipB_loop (S fuel) s ps bc =
  if RtfTkTyp tk =? 2 then RtfSkipB_loop fuel s (ps + Z.to_nat (RtfTkLen tk)) (bc + 1)
  else if RtfTkTyp tk =? 3 then
    if bc =? 0 then Some (ps + Z.to_nat (RtfTkLen tk))%nat
    else RtfSkipB_loop fuel s (ps + Z.to_nat (RtfTkLen tk)) (bc - 1)
  else RtfSkipB_loop fuel s (ps + Z.to_nat (RtfTkLen tk)) bc.
Proof.
  intros Hlt. cbn [RtfSkipB_loop].
  apply Nat.ltb_lt in Hlt. rewrite Hlt. reflexivity.
Qed.

(** Over a balanced run of tokens the loop comes back to the count it
    started with. *)
Lemma RtfSkipB_loop_balanced (s : string) (tks : list Z) :
  balanced tks ->
  forall (i j fuel : nat) (bc : Z),
    lexes s i tks j -> 0 <= bc ->
    RtfSkipB_loop (length tks + fuel) s i bc = RtfSkipB_loop fuel s j bc.
Proof.
  induction 1 as [|t ts Hpush Hpop Hts IH|t1 inner t2 ts Hpush Hin IHin Hpop Hts IHts];
    intros i j fuel bc Hlex Hbc.
  - inversion Hlex; subst. reflexivity.
  - inversion Hlex as [|i' tk tks' j' Hlt Htk Hrest]; subst.
    cbn [length Nat.add]. rewrite RtfSkipB_loop_step by exact Hlt. cbv zeta.
    unfold PUSH, POP in *.
    destruct (RtfTkTyp (GetRtfTk s i) =? 2) eqn:E2; [lia|].
    destruct (RtfTkTyp (GetRtfTk s i) =? 3) eqn:E3; [lia|].
    apply IH; assumption.
  - inversion Hlex as [|i' tk tks' j' Hlt Htk Hrest]; subst.
    destruct (lexes_app_inv _ _ _ _ _ Hrest) as (k & Hinner & Hclose).
    inversion Hclose as [|k' tk2 tks2 j2 Hlt2 Htk2 Hrest2]; subst.
    unfold PUSH, POP in *.
    replace (length (GetRtfTk s i :: inner ++ GetRtfTk s k :: ts) + fuel)%nat
      with (S (length inner + S (length ts + fuel)))%nat
      by (cbn [length]; rewrite length_app; cbn [length]; lia).
    rewrite RtfSkipB_loop_step by exact Hlt. cbv zeta.
    rewrite Hpush. change (2 =? 2) with true. cbv iota.
    rewrite (IHin _ _ _ _ Hinner) by lia.
    rewrite RtfSkipB_loop_step by exact Hlt2. cbv zeta.
    rewrite Hpop. change (3 =? 2) with false. change (3 =? 3) with true. cbv iota.
    replace (bc + 1 =? 0) with false by (symmetry; apply Z.eqb_neq; lia).
    replace (bc + 1 - 1) with bc by lia.
    apply IHts; assumption.
Qed.

(** From a balanced run of tokens that ends before a [GroupClose] token,
    the loop started with the count 0 answers the offset past that token,
    which is a close brace. *)
Lemma RtfSkipB_loop_matching_close (s : string) (i p : nat) (tks : list Z) (fuel : nat) :
  lexes s i tks p ->
  balanced tks ->
  RtfTkTyp (GetRtfTk s p) = POP ->
  (length tks < fuel)%nat ->
  RtfSkipB_loop fuel s i 0 = Some (p + 1)%nat.
Proof.
  intros Hlex Hbal Hclose Hfuel.
  destruct (GetRtfTk_pop _ _ Hclose) as [Htk Hchar].
  replace fuel with (length tks + S (fuel - length tks - 1))%nat by lia.
  rewrite (RtfSkipB_loop_balanced s tks Hbal i p) by (assumption || lia).
  rewrite RtfSkipB_loop_step by (eapply charCodeAt_length; eassumption).
  cbv zeta. rewrite Htk. reflexivity.
Qed.

(** C8.  When the tokens from the starting offset up to offset [p] are
    balanced and the token at [p] is a [GroupClose] (the matching close:
    the first [GroupClose] met at the initial depth), that token is a
    close brace and the block skipper answers [p + 1], the offset of the
    first byte past it, for any [fuel] above the number of tokens
    skipped. *)
Theorem C8_skip_to_matching_close (s : string) (i p : nat) (tks : list Z) (fuel : nat) :
  lexes s i tks p ->
  balanced tks ->
  RtfTkTyp (GetRtfTk s p) = POP ->
  (length tks < fuel)%nat ->
  JS.charCodeAt s p = Some 125 /\
  RtfSkipB fuel s i None = Some (p + 1)%nat /\ RtfSkipB fuel s i (Some 0) = Some (p + 1)%nat.
Proof.
  intros Hlex Hbal Hclose Hfuel.
  pose proof (RtfSkipB_loop_matching_close s i p tks fuel Hlex Hbal Hclose Hfuel) as Hgo.
  split; [apply GetRtfTk_pop; exact Hclose|].
  split; exact Hgo.
Qed.

Lemma C8_skip_to_matching_close_witness :
  JS.charCodeAt "\b text{\i nested}more}after" 22 = Some 125 /\
  RtfSkipB 10 "\b text{\i nested}more}after" 0 None = Some 23%nat /\
  RtfSkipB 10 "\b text{\i nested}more}after" 0 (Some 0) = Some 23%nat.
Proof.
  pose (s := "\b text{\i nested}more}after"%string).
  apply (C8_skip_to_matching_close s 0 22
           [GetRtfTk s 0; GetRtfTk s 3; GetRtfTk s 7; GetRtfTk s 8; GetRtfTk s 11;
            GetRtfTk s 17; GetRtfTk s 18] 10).
  - repeat (eapply lexes_cons; [vm_compute; lia | reflexivity | ]). apply lexes_nil.
  - apply balanced_plain; [vm_compute; discriminate .. |].
    apply balanced_plain; [vm_compute; discriminate .. |].
    apply (balanced_group (GetRtfTk s 7) [GetRtfTk s 8; GetRtfTk s 11] (GetRtfTk s 17)
             [GetRtfTk s 18]); [reflexivity | | reflexivity |].
    + repeat (apply balanced_plain; [vm_compute; discriminate .. |]). apply balanced_nil.
    + repeat (apply balanced_plain; [vm_compute; discriminate .. |]). apply balanced_nil.
  - vm_compute; reflexivity.
  - vm_compute; lia.
Defined.

(** ** The hex-character reader of the Package decoder *)

Lemma hx_skip_at (txt : string) (i : nat) (c : Z) :
  JS.charCodeAt txt i = Some c ->
  Pkg.hx_skip (JS.drop i txt) i =
  if Pkg.is_ws c then Pkg.hx_skip (JS.drop (S i) txt) (S i) else (Some c, S i).
Proof.
  intros H. destruct (charCodeAt_drop _ _ _ H) as (a & Ha & Hd).
  rewrite Hd. cbn [Pkg.hx_skip]. rewrite Ha. reflexivity.
Qed.

Lemma hx_skip_end (txt : string) (i : nat) :
  JS.charCodeAt txt i = None -> Pkg.hx_skip (JS.drop i txt) i = (None, S i).
Proof.
  unfold JS.charCodeAt. intros H. rewrite drop_get.
  destruct (String.get i txt); [discriminate | reflexivity].
Qed.

(** The character [hx_] stops on is not one it skips. *)
Lemma hx_skip_not_ws (rest : string) (i j : nat) (c : Z) :
  Pkg.hx_skip rest i = (Some c, j) -> Pkg.is_ws c = false.
Proof.
  revert i; induction rest as [|a rest IH]; intros i; cbn [Pkg.hx_skip].
  - discriminate.
  - destruct ((JS.code a =? 32) || (JS.code a =? 13) || (JS.code a =? 10)) eqn:E.
    + apply IH.
    + intros [= <- _]. exact E.
Qed.

Lemma drop_length (s : string) (i : nat) :
  String.length (JS.drop i s) = (String.length s - i)%nat.
Proof.
  revert s; induction i as [|i IH]; intros [|a s]; cbn [JS.drop String.length]; try lia.
  rewrite IH. lia.
Qed.

(** When [hx_] reads [NaN] it has gone through the rest of the text. *)
Lemma hx_skip_NaN (rest : string) (i j : nat) :
  Pkg.hx_skip rest i = (None, j) -> j = S (i + String.length rest).
Proof.
  revert i; induction rest as [|a rest IH]; intros i; cbn [Pkg.hx_skip String.length].
  - intros [= <-]. lia.
  - destruct ((JS.code a =? 32) || (JS.code a =? 13) || (JS.code a =? 10)).
    + intros H. apply IH in H. lia.
    + discriminate.
Qed.

(** C10.  [hx_] takes every ASCII letter for a digit: an upper-case letter
    gives its code minus 0x37 (so ['G'] to ['Z'] give 16 to 35), a
    lower-case letter its code minus 0x57; space, CR and LF are skipped;
    and the unexpected-code error is raised only on a byte that is neither
    an ASCII letter or digit nor one of the skipped characters (or, with
    no byte at all, when [end] lies beyond the text). *)
Theorem C10_hx_letters (txt : string) (end_ i : nat) :
  (forall c, JS.charCodeAt txt i = Some c -> 65 <= c <= 90 ->
             Pkg.hx_ txt end_ i = Pkg.Ok (c - 55) (S i)) /\
  (forall c, JS.charCodeAt txt i = Some c -> 71 <= c <= 90 ->
             exists v, Pkg.hx_ txt end_ i = Pkg.Ok v (S i) /\ 16 <= v <= 35) /\
  (forall c, JS.charCodeAt txt i = Some c -> 97 <= c <= 122 ->
             Pkg.hx_ txt end_ i = Pkg.Ok (c - 87) (S i)) /\
  (forall c, JS.charCodeAt txt i = Some c -> c = 32 \/ c = 13 \/ c = 10 ->
             Pkg.hx_ txt end_ i = Pkg.hx_ txt end_ (S i)) /\
  (forall b, Pkg.hx_ txt end_ i = Pkg.Throw (Pkg.HxUnexpectedCode (Some b)) ->
             Pkg.is_alnum b = false /\ Pkg.is_ws b = false) /\
  (Pkg.hx_ txt end_ i = Pkg.Throw (Pkg.HxUnexpectedCode None) ->
   (String.length txt < end_)%nat).
Proof.
  assert (Hup : forall c, JS.charCodeAt txt i = Some c -> 65 <= c <= 90 ->
                          Pkg.hx_ txt end_ i = Pkg.Ok (c - 55) (S i)).
  { intros c Hc Hr. unfold Pkg.hx_. rewrite (hx_skip_at _ _ _ Hc).
    replace (Pkg.is_ws c) with false by (unfold Pkg.is_ws; lia).
    replace ((c >=? 48) && (c <=? 57)) with false by lia.
    replace ((c >=? 65) && (c <=? 90)) with true by lia.
    reflexivity. }
  split; [exact Hup|]. split; [|split; [|split; [|split]]].
  - intros c Hc Hr. exists (c - 55). split; [apply Hup; [exact Hc | lia] | lia].
  - intros c Hc Hr. unfold Pkg.hx_. rewrite (hx_skip_at _ _ _ Hc).
    replace (Pkg.is_ws c) with false by (unfold Pkg.is_ws; lia).
    replace ((c >=? 48) && (c <=? 57)) with false by lia.
    replace ((c >=? 65) && (c <=? 90)) with false by lia.
    replace ((c >=? 97) && (c <=? 122)) with true by lia.
    reflexivity.
  - intros c Hc Hr. unfold Pkg.hx_. rewrite (hx_skip_at _ _ _ Hc).
    replace (Pkg.is_ws c) with true by (unfold Pkg.is_ws; lia).
    reflexivity.
  - intros b. unfold Pkg.hx_.
    destruct (Pkg.hx_skip (JS.drop i txt) i) as [c j] eqn:Hskip.
    destruct c as [c|].
    + pose proof (hx_skip_not_ws _ _ _ _ Hskip) as Hws.
      destruct ((c >=? 48) && (c <=? 57)) eqn:E1; [discriminate|].
      destruct ((c >=? 65) && (c <=? 90)) eqn:E2; [discriminate|].
      destruct ((c >=? 97) && (c <=? 122)) eqn:E3; [discriminate|].
      destruct (end_ <=? j)%nat; [discriminate|].
      intros [= <-]. split; [|exact Hws].
      unfold Pkg.is_alnum. rewrite E1, E2, E3. reflexivity.
    + destruct (end_ <=? j)%nat; discriminate.
  - unfold Pkg.hx_.
    destruct (Pkg.hx_skip (JS.drop i txt) i) as [c j] eqn:Hskip.
    destruct c as [c|].
    + destruct ((c >=? 48) && (c <=? 57)); [discriminate|].
      destruct ((c >=? 65) && (c <=? 90)); [discriminate|].
      destruct ((c >=? 97) && (c <=? 122)); [discriminate|].
      destruct (end_ <=? j)%nat; discriminate.
    + apply hx_skip_NaN in Hskip. rewrite drop_length in Hskip.
      destruct (end_ <=? j)%nat eqn:E; [discriminate|].
      apply Nat.leb_gt in E. intros _. lia.
Qed.

Lemma C10_hx_letters_witness :
  Pkg.hx_ " Zq!" 9 1%nat = Pkg.Ok 35 2%nat /\
  Pkg.hx_ " Zq!" 9 2%nat = Pkg.Ok 26 3%nat /\
  Pkg.hx_ " Zq!" 9 0%nat = Pkg.hx_ " Zq!" 9 1%nat /\
  (Pkg.is_alnum 33 = false /\ Pkg.is_ws 33 = false).
Proof.
  split; [|split; [|split]].
  - apply (proj1 (C10_hx_letters " Zq!" 9 1) 90); [reflexivity | lia].
  - apply (proj1 (proj2 (proj2 (C10_hx_letters " Zq!" 9 2))) 113); [reflexivity | lia].
  - apply (proj1 (proj2 (proj2 (proj2 (C10_hx_letters " Zq!" 9 0)))) 32);
      [reflexivity | left; reflexivity].
  - apply (proj1 (proj2 (proj2 (proj2 (proj2 (C10_hx_letters " Zq!" 9 3))))) 33). reflexivity.
Defined.

(** ** The cursor of the Package decoder *)

Section Cursor.
Variable G : Pkg.Hooks.
Variable txt : string.
Variable end_ : nat.
Hypothesis Hclosed : Pkg.closed_at txt end_ = true.

(** Where [hx_] stops when the range is closed: before [end_], or on
    the character at [end_], which is no digit. *)
Lemma hx_skip_closed (n i : nat) (c : option Z) (j : nat) :
  (end_ - i = n)%nat -> (i <= end_)%nat ->
  Pkg.hx_skip (JS.drop i txt) i = (c, j) ->
  (i < j)%nat /\
  ((j <= end_)%nat \/
   match c with Some b => Pkg.is_alnum b = false | None => True end).
Proof.
  revert i; induction n as [|n IH]; intros i Hn Hi.
  - assert (i = end_) by lia; subst i.
    unfold Pkg.closed_at in Hclosed.
    destruct (JS.charCodeAt txt end_) as [c0|] eqn:E.
    + rewrite (hx_skip_at _ _ _ E).
      apply andb_prop in Hclosed as [Hws Hal].
      apply negb_true_iff in Hws, Hal. rewrite Hws.
      intros [= <- <-]. split; [lia | right; exact Hal].
    + rewrite (hx_skip_end _ _ E). intros [= <- <-]. split; [lia | right; exact I].
  - destruct (JS.charCodeAt txt i) as [c0|] eqn:E.
    + rewrite (hx_skip_at _ _ _ E). destruct (Pkg.is_ws c0).
      * intros H. destruct (IH (S i) ltac:(lia) ltac:(lia) H) as [Hlt Hor].
        split; [lia | exact Hor].
      * intros [= <- <-]. split; [lia | left; lia].
    + rewrite (hx_skip_end _ _ E). intros [= <- <-]. split; [lia | left; lia].
Qed.

Lemma hx_advances (i : nat) (v : Z) (j : nat) :
  (i <= end_)%nat -> Pkg.hx_ txt end_ i = Pkg.Ok v j -> (i < j <= end_)%nat.
Proof.
  intros Hi. unfold Pkg.hx_.
  destruct (Pkg.hx_skip (JS.drop i txt) i) as [c k] eqn:Hskip.
  destruct (hx_skip_closed (end_ - i) i c k eq_refl Hi Hskip) as [Hlt Hor].
  destruct c as [c|].
  - destruct ((c >=? 48) && (c <=? 57)) eqn:E1;
      [|destruct ((c >=? 65) && (c <=? 90)) eqn:E2;
        [|destruct ((c >=? 97) && (c <=? 122)) eqn:E3;
          [|destruct (end_ <=? k)%nat; discriminate]]];
      intros [= <- <-]; (split; [exact Hlt|]);
      (destruct Hor as [Hle | Hal]; [exact Hle|]);
      unfold Pkg.is_alnum in Hal; rewrite ?E1, ?E2, ?E3 in Hal; discriminate.
  - destruct (end_ <=? k)%nat; discriminate.
Qed.

Lemma hx_skip_blank (n i : nat) :
  (end_ - i = n)%nat -> (i <= end_)%nat -> Pkg.blank_until txt i end_ ->
  Pkg.hx_skip (JS.drop i txt) i = (JS.charCodeAt txt end_, S end_).
Proof.
  revert i; induction n as [|n IH]; intros i Hn Hi Hblank.
  - assert (i = end_) by lia; subst i.
    unfold Pkg.closed_at in Hclosed.
    destruct (JS.charCodeAt txt end_) as [c0|] eqn:E.
    + rewrite (hx_skip_at _ _ _ E).
      apply andb_prop in Hclosed as [Hws _]. apply negb_true_iff in Hws.
      rewrite Hws. reflexivity.
    + apply hx_skip_end. exact E.
  - destruct (Hblank i ltac:(lia)) as (c0 & E & Hws).
    rewrite (hx_skip_at _ _ _ E), Hws.
    apply IH; [lia | lia |]. intros k Hk. apply Hblank. lia.
Qed.

Lemma hx_out_of_data (i : nat) :
  (i <= end_)%nat -> Pkg.blank_until txt i end_ ->
  Pkg.hx_ txt end_ i = Pkg.Throw Pkg.HxOutOfData.
Proof.
  intros Hi Hblank. unfold Pkg.hx_.
  rewrite (hx_skip_blank (end_ - i) i eq_refl Hi Hblank).
  replace (end_ <=? S end_)%nat with true by (symmetry; apply Nat.leb_le; lia).
  unfold Pkg.closed_at in Hclosed.
  destruct (JS.charCodeAt txt end_) as [c|]; [|reflexivity].
  apply andb_prop in Hclosed as [_ Hal]. apply negb_true_iff in Hal.
  unfold Pkg.is_alnum in Hal.
  apply orb_false_elim in Hal as [Hal E3]. apply orb_false_elim in Hal as [E1 E2].
  rewrite E1, E2, E3. reflexivity.
Qed.

(** The readers are built from [hx_] by sequencing: each of them stays
    in the range. *)
Lemma stays_ret {A : Type} (a : A) : Pkg.stays end_ (Pkg.ret a).
Proof. intros i b j Hi [= <- <-]. lia. Qed.

Lemma stays_throw {A : Type} (e : Pkg.Error) : Pkg.stays end_ (@Pkg.throw A e).
Proof. intros i b j Hi H. discriminate. Qed.

Lemma stays_cursor : Pkg.stays end_ Pkg.cursor.
Proof. intros i b j Hi [= <- <-]. lia. Qed.

Lemma stays_bind {A B : Type} (m : Pkg.Dec A) (k : A -> Pkg.Dec B) :
  Pkg.stays end_ m -> (forall a, Pkg.stays end_ (k a)) -> Pkg.stays end_ (m ≫= k).
Proof.
  intros Hm Hk i b j Hi. unfold mbind, Pkg.dec_bind, Pkg.bind.
  destruct (m i) as [a i'|e] eqn:E; [|discriminate].
  intros H. destruct (Hm _ _ _ Hi E) as [H1 H2].
  destruct (Hk a i' b j H2 H) as [H3 H4]. lia.
Qed.

Lemma stays_hx : Pkg.stays end_ (Pkg.hx_ txt end_).
Proof. intros i v j Hi H. destruct (hx_advances i v j Hi H). lia. Qed.

Lemma stays_trace : Pkg.stays end_ (Pkg.trace G).
Proof. unfold Pkg.trace. destruct (Pkg.has_trace G); [apply stays_ret | apply stays_throw]. Qed.

Lemma stays_dtrace : Pkg.stays end_ (Pkg.dtrace G).
Proof. unfold Pkg.dtrace. destruct (Pkg.has_dtrace G); [apply stays_ret | apply stays_throw]. Qed.

Ltac stays_step :=
  first
    [ apply stays_ret | apply stays_throw | apply stays_cursor | apply stays_hx
    | apply stays_trace | apply stays_dtrace
    | assumption
    | apply stays_bind; [|intros]
    | match goal with
      | |- Pkg.stays _ (if ?b then _ else _) => destruct b
      | |- Pkg.stays _ (match ?x with _ => _ end) => destruct x
      end ].

Lemma stays_be4 : Pkg.stays end_ (Pkg.be4_ txt end_).
Proof. unfold Pkg.be4_. repeat stays_step. Qed.

Lemma stays_le4 : Pkg.stays end_ (Pkg.le4_ txt end_).
Proof. unfold Pkg.le4_. repeat stays_step. Qed.

Lemma stays_le2 : Pkg.stays end_ (Pkg.le2_ txt end_).
Proof. unfold Pkg.le2_. repeat stays_step. Qed.

Lemma stays_byte : Pkg.stays end_ (Pkg.byte_ txt end_).
Proof. unfold Pkg.byte_. repeat stays_step. Qed.

Lemma stays_bstr_loop (fuel : nat) (len : Z) (a : list Z) (cnt : Z) (hs : list (list Z)) :
  Pkg.stays end_ (Pkg.bstr_loop txt end_ fuel len a cnt hs).
Proof.
  revert a cnt hs; induction fuel as [|fuel IH]; intros a cnt hs; cbn [Pkg.bstr_loop].
  - apply stays_ret.
  - apply stays_bind; [apply stays_cursor | intros i].
    destruct (i <? end_)%nat; [|apply stays_ret].
    apply stays_bind; [apply stays_byte | intros c]. cbv zeta.
    destruct (cnt + 1 >=? len); [apply stays_ret|].
    destruct (Z.of_nat (length (a ++ [c])) >? 500); apply IH.
Qed.

Lemma stays_bstr (zt : bool) : Pkg.stays end_ (Pkg.bstr_ G txt end_ zt).
Proof.
  unfold Pkg.bstr_.
  apply stays_bind; [apply stays_le4 | intros len].
  apply stays_bind; [apply stays_dtrace | intros _].
  apply stays_bind; [apply stays_cursor | intros i].
  destruct (Z.of_nat i + len >? Z.of_nat end_); [apply stays_throw|].
  apply stays_bind; [apply stays_bstr_loop | intros [a hs]].
  cbv zeta. destruct zt; [|apply stays_ret].
  destruct (last _) as [[| |]|]; first [apply stays_ret | apply stays_throw].
Qed.

Lemma stays_str_loop (fuel : nat) (a : list Z) (hs : list (list Z)) :
  Pkg.stays end_ (Pkg.str_loop txt end_ fuel a hs).
Proof.
  revert a hs; induction fuel as [|fuel IH]; intros a hs; cbn [Pkg.str_loop].
  - apply stays_ret.
  - apply stays_bind; [apply stays_cursor | intros i].
    destruct (i <? end_)%nat; [|apply stays_ret].
    apply stays_bind; [apply stays_byte | intros c].
    destruct (c =? 0); [apply stays_ret|]. cbv zeta.
    destruct (Z.of_nat (length (a ++ [c])) >? 500); apply IH.
Qed.

Lemma stays_str : Pkg.stays end_ (Pkg.str_ txt end_).
Proof.
  unfold Pkg.str_.
  apply stays_bind; [apply stays_cursor | intros i].
  apply stays_bind; [apply stays_str_loop | intros [a hs]].
  apply stays_ret.
Qed.

Lemma stays_strings_loop (n : nat) (acc : list (list Z)) (bc : Z) :
  Pkg.stays end_ (Pkg.strings_loop G txt end_ n acc bc).
Proof.
  revert acc bc; induction n as [|n IH]; intros acc bc; cbn [Pkg.strings_loop].
  - apply stays_ret.
  - apply stays_bind; [apply stays_str | intros str]. cbv zeta.
    apply stays_bind; [apply stays_trace | intros _]. apply IH.
Qed.

Lemma stays_static_loop (fuel : nat) (size : Z) (acc : list (list Z * option (list Z)))
      (bc : Z) :
  Pkg.stays end_ (Pkg.static_loop G txt end_ fuel size acc bc).
Proof.
  revert acc bc; induction fuel as [|fuel IH]; intros acc bc; cbn [Pkg.static_loop].
  - apply stays_ret.
  - apply stays_bind; [apply stays_cursor | intros i].
    destruct (i <? end_)%nat; [|apply stays_ret].
    apply stays_bind; [apply stays_dtrace | intros _].
    apply stays_bind; [apply stays_bstr | intros p]. cbv zeta.
    apply stays_bind; [apply stays_dtrace | intros _].
    apply stays_bind; [apply stays_bstr | intros d]. cbv zeta.
    destruct (_ =? _); [apply stays_ret | apply IH].
Qed.

Lemma stays_linked_loop (n : nat) (lbl : list Z) (acc : list (list Z * option (list Z)))
      (bc : Z) :
  Pkg.stays end_ (Pkg.linked_loop G txt end_ n lbl acc bc).
Proof.
  revert acc bc; induction n as [|n IH]; intros acc bc; cbn [Pkg.linked_loop].
  - apply stays_ret.
  - apply stays_bind; [apply stays_str | intros p].
    apply stays_bind; [apply stays_trace | intros _]. cbv zeta.
    apply stays_bind; [|intros q; apply IH].
    destruct (Pkg.has_tilde p); [|apply stays_ret].
    apply stays_bind; [apply stays_trace | intros _; apply stays_ret].
Qed.

(** On hexadecimal text [hx_] stops on a digit before [end_], or on the
    character at [end_]. *)
Lemma hx_skip_hex (n i : nat) (c : option Z) (j : nat) :
  (end_ - i = n)%nat -> (i <= end_)%nat -> Pkg.hex_until txt i end_ ->
  Pkg.hx_skip (JS.drop i txt) i = (c, j) ->
  ((j <= end_)%nat /\ exists b, c = Some b /\ Pkg.is_alnum b = true) \/
  (j = S end_ /\ match c with Some b => Pkg.is_alnum b = false | None => True end).
Proof.
  revert i; induction n as [|n IH]; intros i Hn Hi Hhex.
  - assert (i = end_) by lia; subst i.
    unfold Pkg.closed_at in Hclosed.
    destruct (JS.charCodeAt txt end_) as [c0|] eqn:E.
    + rewrite (hx_skip_at _ _ _ E).
      apply andb_prop in Hclosed as [Hws Hal].
      apply negb_true_iff in Hws, Hal. rewrite Hws.
      intros [= <- <-]. right. split; [reflexivity | exact Hal].
    + rewrite (hx_skip_end _ _ E). intros [= <- <-]. right. split; [reflexivity | exact I].
  - destruct (Hhex i ltac:(lia)) as (c0 & E & Hc0).
    rewrite (hx_skip_at _ _ _ E). destruct (Pkg.is_ws c0) eqn:Hws.
    + apply IH; [lia | lia |]. intros k Hk. apply Hhex. lia.
    + cbn [orb] in Hc0. intros [= <- <-]. left. split; [lia|].
      exists c0. split; [reflexivity | exact Hc0].
Qed.

Lemma fails_hx : Pkg.fails_with txt end_ (fun e => e = Pkg.HxOutOfData) (Pkg.hx_ txt end_).
Proof.
  intros i e Hi Hhex. unfold Pkg.hx_.
  destruct (Pkg.hx_skip (JS.drop i txt) i) as [c j] eqn:Hskip.
  destruct (hx_skip_hex (end_ - i) i c j eq_refl Hi Hhex Hskip)
    as [[Hj (b & -> & Hb)] | [-> Hc]].
  - unfold Pkg.is_alnum in Hb.
    destruct ((b >=? 48) && (b <=? 57)); [discriminate|].
    destruct ((b >=? 65) && (b <=? 90)); [discriminate|].
    destruct ((b >=? 97) && (b <=? 122)); [discriminate|].
    discriminate.
  - replace (end_ <=? S end_)%nat with true by (symmetry; apply Nat.leb_le; lia).
    destruct c as [b|]; [|intros [= <-]; reflexivity].
    destruct ((b >=? 48) && (b <=? 57)); [discriminate|].
    destruct ((b >=? 65) && (b <=? 90)); [discriminate|].
    destruct ((b >=? 97) && (b <=? 122)); [discriminate|].
    intros [= <-]. reflexivity.
Qed.

Lemma fails_ret {A : Type} (P : Pkg.Error -> Prop) (a : A) :
  Pkg.fails_with txt end_ P (Pkg.ret a).
Proof. intros i e _ _ H. discriminate. Qed.

Lemma fails_cursor (P : Pkg.Error -> Prop) : Pkg.fails_with txt end_ P Pkg.cursor.
Proof. intros i e _ _ H. discriminate. Qed.

Lemma fails_throw {A : Type} (P : Pkg.Error -> Prop) (e : Pkg.Error) :
  P e -> Pkg.fails_with txt end_ P (@Pkg.throw A e).
Proof. intros HP i e' _ _ [= <-]. exact HP. Qed.

Lemma fails_bind {A B : Type} (P : Pkg.Error -> Prop) (m : Pkg.Dec A) (k : A -> Pkg.Dec B) :
  Pkg.stays end_ m -> Pkg.fails_with txt end_ P m ->
  (forall a, Pkg.fails_with txt end_ P (k a)) ->
  Pkg.fails_with txt end_ P (m ≫= k).
Proof.
  intros Hst Hm Hk i e Hi Hhex. unfold mbind, Pkg.dec_bind, Pkg.bind.
  destruct (m i) as [a j|e'] eqn:E.
  - destruct (Hst _ _ _ Hi E) as [H1 H2].
    apply Hk; [exact H2|]. intros k' Hk'. apply Hhex. lia.
  - intros [= <-]. eapply Hm; eassumption.
Qed.

Lemma fails_weaken {A : Type} (P Q : Pkg.Error -> Prop) (m : Pkg.Dec A) :
  (forall e, P e -> Q e) -> Pkg.fails_with txt end_ P m -> Pkg.fails_with txt end_ Q m.
Proof. intros HPQ Hm i e Hi Hhex H. apply HPQ. eapply Hm; eassumption. Qed.

Ltac fails_step :=
  first
    [ apply fails_ret | apply fails_cursor | apply fails_hx
    | apply fails_bind; [apply stays_hx | apply fails_hx | intros] ].

Lemma fails_byte : Pkg.fails_with txt end_ (fun e => e = Pkg.HxOutOfData) (Pkg.byte_ txt end_).
Proof. unfold Pkg.byte_. repeat fails_step. Qed.

Lemma fails_le2 : Pkg.fails_with txt end_ (fun e => e = Pkg.HxOutOfData) (Pkg.le2_ txt end_).
Proof. unfold Pkg.le2_. repeat fails_step. Qed.

Lemma fails_le4 : Pkg.fails_with txt end_ (fun e => e = Pkg.HxOutOfData) (Pkg.le4_ txt end_).
Proof. unfold Pkg.le4_. repeat fails_step. Qed.

Lemma fails_be4 : Pkg.fails_with txt end_ (fun e => e = Pkg.HxOutOfData) (Pkg.be4_ txt end_).
Proof. unfold Pkg.be4_. repeat fails_step. Qed.

Lemma fails_str_loop (fuel : nat) (a : list Z) (hs : list (list Z)) :
  Pkg.fails_with txt end_ (fun e => e = Pkg.HxOutOfData) (Pkg.str_loop txt end_ fuel a hs).
Proof.
  revert a hs; induction fuel as [|fuel IH]; intros a hs; cbn [Pkg.str_loop].
  - apply fails_ret.
  - apply fails_bind; [apply stays_cursor | apply fails_cursor | intros i].
    destruct (i <? end_)%nat; [|apply fails_ret].
    apply fails_bind; [apply stays_byte | apply fails_byte | intros c].
    destruct (c =? 0); [apply fails_ret|]. cbv zeta.
    destruct (Z.of_nat (length (a ++ [c])) >? 500); apply IH.
Qed.

Lemma fails_str : Pkg.fails_with txt end_ (fun e => e = Pkg.HxOutOfData) (Pkg.str_ txt end_).
Proof.
  unfold Pkg.str_.
  apply fails_bind; [apply stays_cursor | apply fails_cursor | intros i].
  apply fails_bind; [apply stays_str_loop | apply fails_str_loop | intros [a hs]].
  apply fails_ret.
Qed.

Lemma fails_bstr_loop (fuel : nat) (len : Z) (a : list Z) (cnt : Z) (hs : list (list Z)) :
  Pkg.fails_with txt end_ (fun e => e = Pkg.HxOutOfData)
                 (Pkg.bstr_loop txt end_ fuel len a cnt hs).
Proof.
  revert a cnt hs; induction fuel as [|fuel IH]; intros a cnt hs; cbn [Pkg.bstr_loop].
  - apply fails_ret.
  - apply fails_bind; [apply stays_cursor | apply fails_cursor | intros i].
    destruct (i <? end_)%nat; [|apply fails_ret].
    apply fails_bind; [apply stays_byte | apply fails_byte | intros c]. cbv zeta.
    destruct (cnt + 1 >=? len); [apply fails_ret|].
    destruct (Z.of_nat (length (a ++ [c])) >? 500); apply IH.
Qed.

Lemma fails_bstr (zt : bool) :
  Pkg.fails_with txt end_ Pkg.bstr_error (Pkg.bstr_ G txt end_ zt).
Proof.
  unfold Pkg.bstr_.
  apply fails_bind;
    [apply stays_le4
    | eapply fails_weaken; [|apply fails_le4]; intros e ->; left; reflexivity
    | intros len].
  apply fails_bind; [apply stays_dtrace | | intros _].
  { unfold Pkg.dtrace. destruct (Pkg.has_dtrace G); [apply fails_ret|].
    apply fails_throw. right; right; right. reflexivity. }
  apply fails_bind; [apply stays_cursor | apply fails_cursor | intros i].
  destruct (Z.of_nat i + len >? Z.of_nat end_);
    [apply fails_throw; right; left; reflexivity|].
  apply fails_bind;
    [apply stays_bstr_loop
    | eapply fails_weaken; [|apply fails_bstr_loop]; intros e ->; left; reflexivity
    | intros [a hs]].
  cbv zeta. destruct zt; [|apply fails_ret].
  destruct (last _) as [[| |]|];
    first [apply fails_ret | apply fails_throw; right; right; left; eexists; reflexivity].
Qed.

(** A reader that succeeds has read the characters of its digits: a
    number of two bytes four characters, one of four bytes eight. *)
Lemma takes_ret {A : Type} (a : A) : Pkg.takes end_ 0 (Pkg.ret a).
Proof. intros i b j Hi [= <- <-]. lia. Qed.

Lemma takes_hx : Pkg.takes end_ 1 (Pkg.hx_ txt end_).
Proof. intros i v j Hi H. destruct (hx_advances i v j Hi H). lia. Qed.

Lemma takes_bind {A B : Type} (n k : nat) (m : Pkg.Dec A) (f : A -> Pkg.Dec B) :
  Pkg.takes end_ n m -> (forall a, Pkg.takes end_ k (f a)) ->
  Pkg.takes end_ (n + k) (m ≫= f).
Proof.
  intros Hm Hf i b j Hi. unfold mbind, Pkg.dec_bind, Pkg.bind.
  destruct (m i) as [a i'|e] eqn:E; [|discriminate].
  intros H. destruct (Hm _ _ _ Hi E) as [H1 H2].
  destruct (Hf a i' b j H2 H) as [H3 H4]. lia.
Qed.

Ltac takes_hx_then := apply (takes_bind 1); [apply takes_hx | intros].

Lemma takes_le2 : Pkg.takes end_ 4 (Pkg.le2_ txt end_).
Proof.
  unfold Pkg.le2_. change 4%nat with (1 + (1 + (1 + (1 + 0))))%nat.
  do 4 takes_hx_then. apply takes_ret.
Qed.

Lemma takes_le4 : Pkg.takes end_ 8 (Pkg.le4_ txt end_).
Proof.
  unfold Pkg.le4_. change 8%nat with (1 + (1 + (1 + (1 + (1 + (1 + (1 + (1 + 0))))))))%nat.
  do 8 takes_hx_then. apply takes_ret.
Qed.

Lemma takes_be4 : Pkg.takes end_ 8 (Pkg.be4_ txt end_).
Proof.
  unfold Pkg.be4_. change 8%nat with (1 + (1 + (1 + (1 + (1 + (1 + (1 + (1 + 0))))))))%nat.
  do 8 takes_hx_then. apply takes_ret.
Qed.

(** With fewer characters left before [end_] than it takes, a reader
    that fails for want of data only fails so. *)
Lemma short_of_data {A : Type} (n : nat) (m : Pkg.Dec A) (i : nat) :
  Pkg.takes end_ n m ->
  Pkg.fails_with txt end_ (fun e => e = Pkg.HxOutOfData) m ->
  (i <= end_)%nat -> Pkg.hex_until txt i end_ -> (end_ < i + n)%nat ->
  m i = Pkg.Throw Pkg.HxOutOfData.
Proof.
  intros Ht Hf Hi Hhex Hn. destruct (m i) as [a j|e] eqn:E.
  - destruct (Ht _ _ _ Hi E). lia.
  - f_equal. exact (Hf i e Hi Hhex E).
Qed.

Lemma stays_RtfPkgOb_body : Pkg.stays end_ (Pkg.RtfPkgOb_body G txt end_).
Proof.
  unfold Pkg.RtfPkgOb_body.
  repeat first
    [ apply stays_be4 | apply stays_le4 | apply stays_le2 | apply stays_bstr
    | apply stays_strings_loop | apply stays_static_loop | apply stays_linked_loop
    | stays_step ].
Qed.

End Cursor.

(** C7, as the code has it.  [hx_] tests its cursor against [end] only
    after it has met a character that is no digit, so the range must be
    closed: the character at offset [end] is neither skipped nor taken
    for a digit, or the text stops there.  Then every read that
    succeeds, of a hex digit, of [bstr_], of [str_] and of the whole
    decoder, leaves the cursor at [end] at most.  A hex read that finds
    only skipped characters before [end] fails with the out-of-data
    error.  Where the text up to [end] holds nothing but hex characters
    and skipped ones: a number with fewer characters left before [end]
    than it has digits fails with the out-of-data error, and [bstr_]
    with it; a hex digit, a number and [str_] fail with no other error;
    [bstr_] fails only with it, with the out-of-data error of its own
    count, thrown whenever the count exceeds the characters left, with
    the unterminated-string error or with the [ReferenceError] of
    [dtrace]. *)
Theorem C7_cursor_in_closed_range (G : Pkg.Hooks) (txt : string) (beg end_ : nat) :
  Pkg.closed_at txt end_ = true ->
  (beg <= end_)%nat ->
  (forall i v j, (i <= end_)%nat -> Pkg.hx_ txt end_ i = Pkg.Ok v j -> (i < j <= end_)%nat) /\
  (forall i, (i <= end_)%nat -> Pkg.blank_until txt i end_ ->
             Pkg.hx_ txt end_ i = Pkg.Throw Pkg.HxOutOfData) /\
  (forall zt, Pkg.stays end_ (Pkg.bstr_ G txt end_ zt)) /\
  Pkg.stays end_ (Pkg.str_ txt end_) /\
  (forall pkg j, Pkg.RtfPkgOb G txt beg end_ = Pkg.Ok pkg j -> (beg <= j <= end_)%nat) /\
  Pkg.fails_with txt end_ (fun e => e = Pkg.HxOutOfData) (Pkg.hx_ txt end_) /\
  Pkg.fails_with txt end_ (fun e => e = Pkg.HxOutOfData) (Pkg.le2_ txt end_) /\
  Pkg.fails_with txt end_ (fun e => e = Pkg.HxOutOfData) (Pkg.le4_ txt end_) /\
  Pkg.fails_with txt end_ (fun e => e = Pkg.HxOutOfData) (Pkg.be4_ txt end_) /\
  Pkg.fails_with txt end_ (fun e => e = Pkg.HxOutOfData) (Pkg.str_ txt end_) /\
  (forall zt, Pkg.fails_with txt end_ Pkg.bstr_error (Pkg.bstr_ G txt end_ zt)) /\
  (forall zt i len j,
      Pkg.le4_ txt end_ i = Pkg.Ok len j -> Pkg.has_dtrace G = true ->
      Z.of_nat j + len > Z.of_nat end_ ->
      Pkg.bstr_ G txt end_ zt i = Pkg.Throw Pkg.BstrOutOfData) /\
  (forall i, (i <= end_)%nat -> Pkg.hex_until txt i end_ ->
      ((end_ < i + 4)%nat -> Pkg.le2_ txt end_ i = Pkg.Throw Pkg.HxOutOfData) /\
      ((end_ < i + 8)%nat ->
       Pkg.le4_ txt end_ i = Pkg.Throw Pkg.HxOutOfData /\
       Pkg.be4_ txt end_ i = Pkg.Throw Pkg.HxOutOfData /\
       forall zt, Pkg.bstr_ G txt end_ zt i = Pkg.Throw Pkg.HxOutOfData)).
Proof.
  intros Hclosed Hbeg.
  split; [|split; [|split; [|split; [|split; [|split; [|split; [|split; [|split;
    [|split; [|split; [|split]]]]]]]]]]].
  - intros i v j Hi H. eapply hx_advances; eassumption.
  - intros i Hi Hblank. apply hx_out_of_data; assumption.
  - intros zt. apply stays_bstr. exact Hclosed.
  - apply stays_str. exact Hclosed.
  - intros pkg j H. eapply (stays_RtfPkgOb_body G txt end_ Hclosed); eassumption.
  - apply fails_hx. exact Hclosed.
  - apply fails_le2. exact Hclosed.
  - apply fails_le4. exact Hclosed.
  - apply fails_be4. exact Hclosed.
  - apply fails_str. exact Hclosed.
  - intros zt. apply fails_bstr. exact Hclosed.
  - intros zt i len j Hle Hd Hgt. unfold Pkg.bstr_, Pkg.dtrace.
    unfold mbind, Pkg.dec_bind, Pkg.bind. rewrite Hle, Hd. cbn [Pkg.ret Pkg.cursor].
    replace (Z.of_nat j + len >? Z.of_nat end_) with true
      by (symmetry; rewrite Z.gtb_ltb; apply Z.ltb_lt; lia).
    reflexivity.
  - intros i Hi Hhex. split.
    + intros Hn.
      exact (short_of_data txt end_ 4 _ i (takes_le2 txt end_ Hclosed)
                           (fails_le2 txt end_ Hclosed) Hi Hhex Hn).
    + intros Hn.
      assert (Hle : Pkg.le4_ txt end_ i = Pkg.Throw Pkg.HxOutOfData)
        by exact (short_of_data txt end_ 8 _ i (takes_le4 txt end_ Hclosed)
                                (fails_le4 txt end_ Hclosed) Hi Hhex Hn).
      split; [exact Hle|]. split.
      * exact (short_of_data txt end_ 8 _ i (takes_be4 txt end_ Hclosed)
                             (fails_be4 txt end_ Hclosed) Hi Hhex Hn).
      * intros zt. unfold Pkg.bstr_, mbind, Pkg.dec_bind, Pkg.bind.
        rewrite Hle. reflexivity.
Qed.

Lemma C7_cursor_in_closed_range_witness :
  Pkg.hx_ pkg_in_rtf 112 112%nat = Pkg.Throw Pkg.HxOutOfData /\ (0 < 1 <= 112)%nat /\
  Pkg.bstr_ Pkg.all_hooks "FFFF0000}" 8 true 0%nat = Pkg.Throw Pkg.BstrOutOfData /\
  Pkg.le2_ "0A0}" 3 0%nat = Pkg.Throw Pkg.HxOutOfData.
Proof.
  destruct (C7_cursor_in_closed_range Pkg.all_hooks pkg_in_rtf 0 112 eq_refl ltac:(lia))
    as (Hhx & Hout & _).
  destruct (C7_cursor_in_closed_range Pkg.all_hooks "FFFF0000}" 0 8 eq_refl ltac:(lia))
    as (_ & _ & _ & _ & _ & _ & _ & _ & _ & _ & _ & Hcount & _).
  destruct (C7_cursor_in_closed_range Pkg.no_hooks "0A0}" 0 3 eq_refl ltac:(lia))
    as (_ & _ & _ & _ & _ & _ & _ & _ & _ & _ & _ & _ & Hshort).
  split; [|split; [|split]].
  - apply Hout; [lia | intros k Hk; lia].
  - apply (Hhx 0%nat 0 1%nat); [lia | reflexivity].
  - apply (Hcount true 0%nat 65535 8%nat); [reflexivity | reflexivity | lia].
  - apply (Hshort 0%nat); [lia | | lia].
    intros k Hk.
    destruct k as [|[|[|k]]]; [| | |lia]; eexists; split; reflexivity.
Defined.

(** Where the claim fails.  With [end] four characters into the text
    [FFFFFFFF] the decoder reads its first number all the same: [be4_]
    takes the characters at offsets 4 to 7 and leaves the cursor at 8,
    outside [[0, 4)], and the decoder fails on the value it read, not
    for want of data; no hook is called before that.  And in a closed
    range, a string that [end] cuts off between two bytes is returned
    as far as it goes, without an error: by [str_] when the zero byte
    is missing, by [bstr_] when its count (here 4) is not above the
    number of characters left, which hold half as many bytes. *)
Lemma C7_reads_past_end :
  Pkg.be4_ "FFFFFFFF" 4 0%nat = Pkg.Ok (-1) 8%nat /\ (4 < 8)%nat /\
  Pkg.RtfPkgOb Pkg.no_hooks "FFFFFFFF" 0 4 = Pkg.Throw (Pkg.BadMagic (-1)) /\
  Pkg.RtfPkgOb Pkg.all_hooks "FFFFFFFF" 0 4 = Pkg.Throw (Pkg.BadMagic (-1)) /\
  Pkg.closed_at "4142}" 4 = true /\
  Pkg.str_ "4142}" 4 0%nat = Pkg.Ok [65; 66] 4%nat /\
  Pkg.closed_at "040000004142}" 12 = true /\
  Pkg.bstr_ Pkg.all_hooks "040000004142}" 12 false 0%nat = Pkg.Ok [65; 66] 12%nat.
Proof.
  split; [vm_compute; reflexivity|]. split; [lia|].
  repeat split; vm_compute; reflexivity.
Qed.

(** ** The loops of the decoder need no more fuel than they get *)

Section Fuel.
Variable G : Pkg.Hooks.
Variable txt : string.
Variable end_ : nat.

Lemma forward_ret {A : Type} (a : A) : Pkg.forward (Pkg.ret a).
Proof. intros i b j [= <- <-]. lia. Qed.

Lemma forward_throw {A : Type} (e : Pkg.Error) : Pkg.forward (@Pkg.throw A e).
Proof. intros i b j H. discriminate. Qed.

Lemma forward_cursor : Pkg.forward Pkg.cursor.
Proof. intros i b j [= <- <-]. lia. Qed.

Lemma forward_bind {A B : Type} (m : Pkg.Dec A) (k : A -> Pkg.Dec B) :
  Pkg.forward m -> (forall a, Pkg.forward (k a)) -> Pkg.forward (m ≫= k).
Proof.
  intros Hm Hk i b j. unfold mbind, Pkg.dec_bind, Pkg.bind.
  destruct (m i) as [a i'|e] eqn:E; [|discriminate].
  intros H. apply Hm in E. apply Hk in H. lia.
Qed.

Lemma progresses_bind {A B : Type} (m : Pkg.Dec A) (k : A -> Pkg.Dec B) :
  Pkg.progresses m -> (forall a, Pkg.forward (k a)) -> Pkg.progresses (m ≫= k).
Proof.
  intros Hm Hk i b j. unfold mbind, Pkg.dec_bind, Pkg.bind.
  destruct (m i) as [a i'|e] eqn:E; [|discriminate].
  intros H. apply Hm in E. apply Hk in H. lia.
Qed.

Lemma progresses_forward {A : Type} (m : Pkg.Dec A) : Pkg.progresses m -> Pkg.forward m.
Proof. intros Hm i a j H. apply Hm in H. lia. Qed.

Lemma hx_skip_progress (rest : string) (i : nat) (c : option Z) (j : nat) :
  Pkg.hx_skip rest i = (c, j) -> (i < j)%nat.
Proof.
  revert i; induction rest as [|a rest IH]; intros i; cbn [Pkg.hx_skip].
  - intros [= <- <-]. lia.
  - destruct ((JS.code a =? 32) || (JS.code a =? 13) || (JS.code a =? 10)).
    + intros H. apply IH in H. lia.
    + intros [= <- <-]. lia.
Qed.

Lemma progresses_hx : Pkg.progresses (Pkg.hx_ txt end_).
Proof.
  intros i v j. unfold Pkg.hx_.
  destruct (Pkg.hx_skip (JS.drop i txt) i) as [c k] eqn:Hskip.
  apply hx_skip_progress in Hskip.
  destruct c as [c|].
  - destruct ((c >=? 48) && (c <=? 57));
      [|destruct ((c >=? 65) && (c <=? 90));
        [|destruct ((c >=? 97) && (c <=? 122));
          [|destruct (end_ <=? k)%nat; discriminate]]];
      intros [= <- <-]; exact Hskip.
  - destruct (end_ <=? k)%nat; discriminate.
Qed.

Ltac forward_step :=
  first
    [ apply forward_ret | apply forward_throw | apply forward_cursor
    | apply progresses_forward, progresses_hx
    | assumption
    | apply forward_bind; [|intros]
    | match goal with
      | |- Pkg.forward (if ?b then _ else _) => destruct b
      | |- Pkg.forward (match ?x with _ => _ end) => destruct x
      end ].

Lemma progresses_byte : Pkg.progresses (Pkg.byte_ txt end_).
Proof.
  unfold Pkg.byte_. apply progresses_bind; [apply progresses_hx | intros h1].
  repeat forward_step.
Qed.

Lemma progresses_le4 : Pkg.progresses (Pkg.le4_ txt end_).
Proof.
  unfold Pkg.le4_. apply progresses_bind; [apply progresses_hx | intros h1].
  repeat forward_step.
Qed.

Lemma forward_bstr_loop (fuel : nat) (len : Z) (a : list Z) (cnt : Z) (hs : list (list Z)) :
  Pkg.forward (Pkg.bstr_loop txt end_ fuel len a cnt hs).
Proof.
  revert a cnt hs; induction fuel as [|fuel IH]; intros a cnt hs; cbn [Pkg.bstr_loop].
  - apply forward_ret.
  - apply forward_bind; [apply forward_cursor | intros i].
    destruct (i <? end_)%nat; [|apply forward_ret].
    apply forward_bind; [apply progresses_forward, progresses_byte | intros c]. cbv zeta.
    destruct (cnt + 1 >=? len); [apply forward_ret|].
    destruct (Z.of_nat (length (a ++ [c])) >? 500); apply IH.
Qed.

Lemma forward_dtrace : Pkg.forward (Pkg.dtrace G).
Proof.
  unfold Pkg.dtrace. destruct (Pkg.has_dtrace G); [apply forward_ret | apply forward_throw].
Qed.

Lemma progresses_bstr (zt : bool) : Pkg.progresses (Pkg.bstr_ G txt end_ zt).
Proof.
  unfold Pkg.bstr_. apply progresses_bind; [apply progresses_le4 | intros len].
  apply forward_bind; [apply forward_dtrace | intros _].
  apply forward_bind; [apply forward_cursor | intros i].
  destruct (Z.of_nat i + len >? Z.of_nat end_); [apply forward_throw|].
  apply forward_bind; [apply forward_bstr_loop | intros [a hs]].
  cbv zeta. destruct zt; [|apply forward_ret].
  destruct (last _) as [[| |]|]; first [apply forward_ret | apply forward_throw].
Qed.

(** With at least [end - i] turns to go at the cursor [i], a loop does
    what it does with any larger number of them: it ends on its own
    test [i < end], not for want of fuel. *)
Lemma bstr_loop_fuel (f1 f2 : nat) (len : Z) (a : list Z) (cnt : Z) (hs : list (list Z))
      (i : nat) :
  (end_ - i <= f1)%nat -> (end_ - i <= f2)%nat ->
  Pkg.bstr_loop txt end_ f1 len a cnt hs i = Pkg.bstr_loop txt end_ f2 len a cnt hs i.
Proof.
  revert f2 a cnt hs i; induction f1 as [|f1 IH]; intros [|f2] a cnt hs i H1 H2;
    cbn [Pkg.bstr_loop]; unfold mbind, Pkg.dec_bind, Pkg.bind, Pkg.cursor; try reflexivity.
  - replace (i <? end_)%nat with false by (symmetry; apply Nat.ltb_ge; lia). reflexivity.
  - replace (i <? end_)%nat with false by (symmetry; apply Nat.ltb_ge; lia). reflexivity.
  - destruct (i <? end_)%nat; [|reflexivity].
    destruct (Pkg.byte_ txt end_ i) as [c j|] eqn:E; [|reflexivity].
    apply progresses_byte in E. cbv zeta.
    destruct (cnt + 1 >=? len); [reflexivity|].
    destruct (Z.of_nat (length (a ++ [c])) >? 500); apply IH; lia.
Qed.

Lemma str_loop_fuel (f1 f2 : nat) (a : list Z) (hs : list (list Z)) (i : nat) :
  (end_ - i <= f1)%nat -> (end_ - i <= f2)%nat ->
  Pkg.str_loop txt end_ f1 a hs i = Pkg.str_loop txt end_ f2 a hs i.
Proof.
  revert f2 a hs i; induction f1 as [|f1 IH]; intros [|f2] a hs i H1 H2;
    cbn [Pkg.str_loop]; unfold mbind, Pkg.dec_bind, Pkg.bind, Pkg.cursor; try reflexivity.
  - replace (i <? end_)%nat with false by (symmetry; apply Nat.ltb_ge; lia). reflexivity.
  - replace (i <? end_)%nat with false by (symmetry; apply Nat.ltb_ge; lia). reflexivity.
  - destruct (i <? end_)%nat; [|reflexivity].
    destruct (Pkg.byte_ txt end_ i) as [c j|] eqn:E; [|reflexivity].
    apply progresses_byte in E.
    destruct (c =? 0); [reflexivity|]. cbv zeta.
    destruct (Z.of_nat (length (a ++ [c])) >? 500); apply IH; lia.
Qed.

Lemma static_loop_fuel (f1 f2 : nat) (size : Z) (acc : list (list Z * option (list Z)))
      (bc : Z) (i : nat) :
  (end_ - i <= f1)%nat -> (end_ - i <= f2)%nat ->
  Pkg.static_loop G txt end_ f1 size acc bc i = Pkg.static_loop G txt end_ f2 size acc bc i.
Proof.
  revert f2 acc bc i; induction f1 as [|f1 IH]; intros [|f2] acc bc i H1 H2;
    cbn [Pkg.static_loop]; unfold mbind, Pkg.dec_bind, Pkg.bind, Pkg.cursor; try reflexivity.
  - replace (i <? end_)%nat with false by (symmetry; apply Nat.ltb_ge; lia). reflexivity.
  - replace (i <? end_)%nat with false by (symmetry; apply Nat.ltb_ge; lia). reflexivity.
  - destruct (i <? end_)%nat; [|reflexivity].
    unfold Pkg.dtrace. destruct (Pkg.has_dtrace G); [|reflexivity]. cbn [Pkg.ret].
    destruct (Pkg.bstr_ G txt end_ true i) as [p j|] eqn:E1; [|reflexivity].
    apply progresses_bstr in E1.
    destruct (Pkg.bstr_ G txt end_ false j) as [d k|] eqn:E2; [|reflexivity].
    apply progresses_bstr in E2. cbv zeta.
    destruct (_ =? _); [reflexivity|]. apply IH; lia.
Qed.

End Fuel.

(** ** Item names *)

Lemma lastIndexOf_from_absent (p : list Z) (c i found : Z) :
  Forall (fun x => x <> c) p -> Pkg.lastIndexOf_from p c i found = found.
Proof.
  intros H; revert i found; induction H as [|x p Hx Hp IH]; intros i found;
    cbn [Pkg.lastIndexOf_from]; [reflexivity|].
  rewrite IH. destruct (x =? c) eqn:E; [lia | reflexivity].
Qed.

(** A path whose only backslash is its first character is its own name:
    [lastIndexOf] answers 0 and the test is [si > 0]. *)
Lemma item_name_leading_backslash (p : list Z) :
  Forall (fun x => x <> 92) p -> Pkg.item_name (92 :: p) = 92 :: p.
Proof.
  intros H. unfold Pkg.item_name, Pkg.lastIndexOf. cbn [Pkg.lastIndexOf_from].
  rewrite lastIndexOf_from_absent by exact H. reflexivity.
Qed.

Lemma lastIndexOf_from_app (a l : list Z) (c i found : Z) :
  Pkg.lastIndexOf_from (a ++ l) c i found
  = Pkg.lastIndexOf_from l c (i + Z.of_nat (length a)) (Pkg.lastIndexOf_from a c i found).
Proof.
  revert i found; induction a as [|x a IH]; intros i found; cbn [app Pkg.lastIndexOf_from length].
  - f_equal. lia.
  - rewrite IH. f_equal. lia.
Qed.

(** Elsewhere the name is as the claim has it: the whole path when it has
    no backslash, and what follows the last backslash when that backslash
    is not the first character. *)
Lemma item_name_no_backslash (p : list Z) :
  Forall (fun x => x <> 92) p -> Pkg.item_name p = p.
Proof.
  intros H. unfold Pkg.item_name, Pkg.lastIndexOf.
  rewrite lastIndexOf_from_absent by exact H. reflexivity.
Qed.

Lemma item_name_after_last_backslash (a b : list Z) :
  a <> [] -> Forall (fun x => x <> 92) b -> Pkg.item_name (a ++ 92 :: b) = b.
Proof.
  intros Ha Hb. unfold Pkg.item_name, Pkg.lastIndexOf.
  rewrite lastIndexOf_from_app. cbn [Pkg.lastIndexOf_from]. change (92 =? 92) with true.
  cbv iota. rewrite lastIndexOf_from_absent by exact Hb.
  assert (Hlen : (0 < length a)%nat) by (destruct a; [congruence | cbn; lia]).
  replace (0 + Z.of_nat (length a) >? 0) with true by lia.
  replace (Z.to_nat (0 + Z.of_nat (length a) + 1)) with (length a + 1)%nat by lia.
  rewrite <- drop_drop, drop_app_length. reflexivity.
Qed.

(** C9.  The last pass of [RtfPkgOb] gives an item whose path is [\a]
    the name [\a], not the substring [a] after the backslash; so for
    every path that begins with its only backslash.  Where [trace] and
    [dtrace] are defined the linked package [pkg_linked] decodes to such
    an item; without them the decoder never gets that far: it ends in
    the [ReferenceError] of its first [bstr_]. *)
Theorem C9_name_keeps_leading_backslash :
  Pkg.item_name (Pkg.codes "\a") = Pkg.codes "\a" /\
  Pkg.item_name (Pkg.codes "\a") <> Pkg.codes "a" /\
  (forall p, Forall (fun x => x <> 92) p -> Pkg.item_name (92 :: p) = 92 :: p) /\
  (exists pkg j,
      Pkg.RtfPkgOb Pkg.all_hooks pkg_linked 0 (String.length pkg_linked) = Pkg.Ok pkg j /\
      map Pkg.path (Pkg.items pkg) = [Pkg.codes "\a"] /\
      map Pkg.name (Pkg.items pkg) = [Pkg.codes "\a"]) /\
  Pkg.RtfPkgOb Pkg.no_hooks pkg_linked 0 (String.length pkg_linked)
  = Pkg.Throw (Pkg.NotDefined "dtrace").
Proof.
  split; [reflexivity|]. split; [discriminate|].
  split; [exact item_name_leading_backslash|].
  split; [|vm_compute; reflexivity].
  eexists. eexists. split; [vm_compute; reflexivity|].
  split; reflexivity.
Qed.

(** ** The parser: destinations without a handler *)

Import Parser.

Lemma drop_past_end (s : string) (i : nat) :
  String.get i s = None -> JS.drop (S i) s = EmptyString.
Proof.
  revert s; induction i as [|i IH]; intros [|a s]; simpl; try reflexivity; try discriminate.
  apply IH.
Qed.

(** At or past the end of the source the tokenizer answers a data token
    of length 1. *)
Lemma GetRtfTk_past_end (s : string) (i : nat) :
  JS.charCodeAt s i = None -> GetRtfTk s i = 257.
Proof.
  intros H. unfold GetRtfTk. rewrite H. cbn [JS.eq orb].
  unfold JS.charCodeAt in H.
  rewrite drop_past_end by (destruct (String.get i s); [discriminate | reflexivity]).
  reflexivity.
Qed.

Lemma push_inside (s : string) (i : nat) :
  RtfTkTyp (GetRtfTk s i) = PUSH -> (i < String.length s)%nat.
Proof.
  intros H. destruct (JS.charCodeAt s i) as [c|] eqn:E.
  - eapply charCodeAt_length; eassumption.
  - rewrite (GetRtfTk_past_end _ _ E) in H. vm_compute in H. discriminate.
Qed.

Section Destinations.
Context `{HC : Calls}.

(** Resolution touches the cache and its counters only. *)
Lemma Handlers_frame (p p1 : RtfParser) (nm pth : string) (r : Answer) :
  Handlers p nm pth = (r, p1) ->
  txt p1 = txt p /\ pos p1 = pos p /\ world p1 = world p /\ stk p1 = stk p /\
  frm p1 = frm p /\ dhd p1 = dhd p /\ dhr p1 = dhr p.
Proof.
  unfold Handlers. destruct (cache_broken p); [intros [= <- <-]; repeat split|].
  destruct (dhc p !! pth) as [v|].
  - intros [= <- <-]. repeat split.
  - unfold cache_put.
    destruct (length _ =? 0)%nat; destruct (String.eqb pth "__proto__");
      intros [= <- <-]; repeat split.
Qed.

(** At an open brace whose destination resolves to no handler: when the
    group began with the ignorable marker, the iteration throws nothing,
    it moves the cursor to the offset [RtfSkipB] answers, when it
    answers (the offset past the matching close brace, when the group
    has one and [RtfSkipB] gets there), and leaves the stack, the current
    frame and the handlers' state as they were, and the main loop goes on
    from there; otherwise it throws the unhandled-destination error. *)
Lemma destination_without_handler
      (fuel : nat) (p p1 : RtfParser) (ign : bool) (cpos : nat) (tok : Z) :
  let open := GetRtfTk (txt p) (pos p) in
  let ctl := ctl_text (RtfTkCtl tok (txt p) cpos) in
  let pth := stack_path (stk p) ctl in
  RtfTkTyp open = PUSH ->
  after_open (txt p) (pos p + Z.to_nat (RtfTkLen open)) = (ign, cpos, tok) ->
  RtfTkTyp tok = CONTROL ->
  Handlers (set_pos p cpos) ctl pth = (Resolved None, p1) ->
  (ign = false -> Document_iter fuel p = Throws (UnhandledDestination ctl pth)) /\
  (ign = true ->
   Document_iter fuel p = match RtfSkipB fuel (txt p) cpos None with
                          | None => OutOfFuel
                          | Some q => Done (set_pos p1 q)
                          end /\
   (forall q, RtfSkipB fuel (txt p) cpos None = Some q ->
              Document_loop (S fuel) p = Document_loop fuel (set_pos p1 q)) /\
   (forall tks close,
       lexes (txt p) cpos tks close -> balanced tks ->
       RtfTkTyp (GetRtfTk (txt p) close) = POP -> (length tks < fuel)%nat ->
       Document_iter fuel p = Done (set_pos p1 (close + 1))) /\
   stk p1 = stk p /\ frm p1 = frm p /\ world p1 = world p).
Proof.
  intros open ctl pth Hopen Hafter Hctl Hres.
  destruct (Handlers_frame _ _ _ _ _ Hres) as (Htxt & _ & Hw & Hstk & Hfrm & _).
  assert (Hiter : Document_iter fuel p =
                  if negb ign then Throws (UnhandledDestination ctl pth)
                  else match RtfSkipB fuel (txt p) cpos None with
                       | None => OutOfFuel
                       | Some q => Done (set_pos p1 q)
                       end).
  { unfold Document_iter.
    change (JS.band (JS.shr (GetRtfTk (txt p) (pos p)) 8) 7) with (RtfTkTyp open).
    rewrite Hopen. change (PUSH =? 2) with true. cbv iota.
    change (JS.band (GetRtfTk (txt p) (pos p)) 255) with (RtfTkLen open).
    rewrite Hafter.
    change (JS.band (JS.shr tok 8) 7) with (RtfTkTyp tok).
    rewrite Hctl. change (negb (CONTROL =? 6)) with false. cbv iota.
    change (txt (set_pos p cpos)) with (txt p).
    change (pos (set_pos p cpos)) with cpos.
    change (stk (set_pos p cpos)) with (stk p).
    fold ctl. fold pth. rewrite Hres.
    rewrite Htxt. change cpos with (pos (set_pos p cpos)).
    destruct (Handlers_frame _ _ _ _ _ Hres) as (_ & -> & _).
    reflexivity. }
  split.
  - intros ->. exact Hiter.
  - intros ->. cbn [negb] in Hiter.
    split; [exact Hiter|]. split; [|split; [|repeat split; assumption]].
    + intros q Hq. rewrite Hq in Hiter.
      cbn [Document_loop].
      pose proof (push_inside _ _ Hopen) as Hlt. apply Nat.ltb_lt in Hlt.
      rewrite Hlt, Hiter. reflexivity.
    + intros tks close Hlex Hbal Hclose Hfuel. rewrite Hiter.
      unfold RtfSkipB.
      rewrite (RtfSkipB_loop_matching_close _ _ _ _ _ Hlex Hbal Hclose Hfuel).
      reflexivity.
Qed.

(** A destination of the name [constructor] is never without a handler:
    the registry inherits a function under that name, and resolution
    answers it, so that the group is neither skipped nor refused. *)
Lemma inherited_destination_is_handled (text : string) (w : World) :
  fst (Handlers (new_parser text w) "constructor" ";constructor")
  = Resolved (Some [inherited "constructor"]).
Proof. reflexivity. Qed.

(** The skipper stays for ever on a token whose length field is 0. *)
Lemma RtfSkipB_loop_stuck (fuel : nat) (s : string) (ps : nat) (bc : Z) :
  (ps < String.length s)%nat ->
  RtfTkLen (GetRtfTk s ps) = 0 ->
  RtfTkTyp (GetRtfTk s ps) <> PUSH -> RtfTkTyp (GetRtfTk s ps) <> POP ->
  RtfSkipB_loop fuel s ps bc = None.
Proof.
  intros Hlt Hlen Hpush Hpop. induction fuel as [|fuel IH]; [reflexivity|].
  cbn [RtfSkipB_loop].
  apply Nat.ltb_lt in Hlt. rewrite Hlt.
  change (JS.band (GetRtfTk s ps) 255) with (RtfTkLen (GetRtfTk s ps)).
  change (JS.band (JS.shr (GetRtfTk s ps) 8) 7) with (RtfTkTyp (GetRtfTk s ps)).
  rewrite Hlen.
  replace (RtfTkTyp (GetRtfTk s ps) =? 2) with false
    by (symmetry; apply Z.eqb_neq; exact Hpush).
  replace (RtfTkTyp (GetRtfTk s ps) =? 3) with false
    by (symmetry; apply Z.eqb_neq; exact Hpop).
  change (ps + Z.to_nat 0)%nat with (ps + 0)%nat. rewrite Nat.add_0_r. exact IH.
Qed.

(** C5.  The destination [x] of [ignorable_long] has no handler and
    its group begins with the ignorable marker; the block skipper is
    called at the offset of [\x].  It reads [\x ] and comes to the
    control word of 255 letters, whose token has the length 0, and
    stays there: with whatever fuel, [RtfSkipB] gives no offset, the turn
    of the main loop does not end and [Document] returns nothing, so the
    scan never goes on to the text after the block.  With the short
    word in the block the group is skipped and the scan goes on to the
    next group, which cannot be ignored and fails as unhandled. *)
Theorem C5_ignorable_block_never_skipped (fuel : nat) (w : World) :
  let p := new_parser ignorable_long w in
  after_open ignorable_long 1 = (true, 3%nat, GetRtfTk ignorable_long 3) /\
  RtfTkTyp (GetRtfTk ignorable_long 3) = CONTROL /\
  fst (Handlers (set_pos p 3) "x" ";x") = Resolved None /\
  RtfTkLen (GetRtfTk ignorable_long 6) = 0 /\
  RtfSkipB fuel ignorable_long 3 None = None /\
  Document_iter fuel p = OutOfFuel /\
  Document fuel false p = OutOfFuel /\
  RtfSkipB 5 ignorable_short 3 None = Some 9%nat /\
  Document 5 false (new_parser ignorable_short w)
  = Throws (UnhandledDestination "x" ";x").
Proof.
  intros p.
  assert (Hafter : after_open ignorable_long 1 = (true, 3%nat, GetRtfTk ignorable_long 3))
    by (vm_compute; reflexivity).
  assert (Hctl : RtfTkTyp (GetRtfTk ignorable_long 3) = CONTROL) by (vm_compute; reflexivity).
  assert (Hlen : RtfTkLen (GetRtfTk ignorable_long 6) = 0) by (vm_compute; reflexivity).
  assert (Hres : Handlers (set_pos p 3) "x" ";x"
                 = (Resolved None, cache_put (set_cache (set_pos p 3) ∅ 0 (0 + 1)) ";x" None))
    by reflexivity.
  assert (Hskip : RtfSkipB fuel ignorable_long 3 None = None).
  { unfold RtfSkipB. destruct fuel as [|fuel]; [reflexivity|].
    cbn [RtfSkipB_loop].
    change (3 <? String.length ignorable_long)%nat with true. cbv iota.
    replace (JS.band (GetRtfTk ignorable_long 3) 255) with 3 by (vm_compute; reflexivity).
    replace (JS.band (JS.shr (GetRtfTk ignorable_long 3) 8) 7) with 6
      by (vm_compute; reflexivity).
    change (6 =? 2) with false. change (6 =? 3) with false. cbv iota.
    change (3 + Z.to_nat 3)%nat with 6%nat.
    apply RtfSkipB_loop_stuck;
      [vm_compute; lia | exact Hlen | vm_compute; discriminate | vm_compute; discriminate]. }
  destruct (destination_without_handler fuel p _ true 3 (GetRtfTk ignorable_long 3)
              ltac:(reflexivity) Hafter Hctl Hres) as [_ Hign].
  destruct (Hign eq_refl) as (Hiter & _).
  change (txt p) with ignorable_long in Hiter. rewrite Hskip in Hiter.
  split; [exact Hafter|]. split; [exact Hctl|]. split; [rewrite Hres; reflexivity|].
  split; [exact Hlen|]. split; [exact Hskip|]. split; [exact Hiter|].
  split; [|split; [vm_compute; reflexivity|]].
  - unfold Document.
    change (pos p =? String.length (txt p))%nat with false. cbn [orb].
    destruct fuel as [|fuel]; [reflexivity|].
    cbn [Document_loop].
    change (pos p <? String.length (txt p))%nat with true. cbv iota.
    destruct (destination_without_handler fuel p _ true 3 (GetRtfTk ignorable_long 3)
                ltac:(reflexivity) Hafter Hctl Hres) as [_ Hign'].
    destruct (Hign' eq_refl) as (Hiter' & _).
    change (txt p) with ignorable_long in Hiter'.
    assert (Hskip' : RtfSkipB fuel ignorable_long 3 None = None).
    { clear - Hlen. unfold RtfSkipB. destruct fuel as [|fuel]; [reflexivity|].
      cbn [RtfSkipB_loop].
      change (3 <? String.length ignorable_long)%nat with true. cbv iota.
      replace (JS.band (GetRtfTk ignorable_long 3) 255) with 3 by (vm_compute; reflexivity).
      replace (JS.band (JS.shr (GetRtfTk ignorable_long 3) 8) 7) with 6
        by (vm_compute; reflexivity).
      change (6 =? 2) with false. change (6 =? 3) with false. cbv iota.
      change (3 + Z.to_nat 3)%nat with 6%nat.
      apply RtfSkipB_loop_stuck;
        [vm_compute; lia | exact Hlen | vm_compute; discriminate | vm_compute; discriminate]. }
    rewrite Hiter', Hskip'. reflexivity.
  - unfold Document, Document_loop. vm_compute. reflexivity.
Qed.

End Destinations.

(** ** The parser: handler resolution *)

Section Resolution.
Context `{H : Host}.

Lemma absent_spec (h : Handler) (l : list Handler) : absent h l = true <-> h ∉ l.
Proof.
  unfold absent. induction l as [|x l IH]; cbn [forallb].
  - split; [intros _; apply not_elem_of_nil | reflexivity].
  - rewrite andb_true_iff, IH, not_elem_of_cons, negb_true_iff, bool_decide_eq_false.
    split; intros [H1 H2]; split; auto.
Qed.

(** The handlers the patterns add come after the list built so far, are
    new to it, distinct, and each is registered with a pattern that
    matches the path. *)
Lemma by_regexp_adds (r : list (RegExp * Handler)) (pth : string) (dh : list Handler) :
  exists extra,
    by_regexp r pth dh = dh ++ extra /\ NoDup extra /\
    forall h, h ∈ extra -> (h ∉ dh) /\ exists re, ((re, h) ∈ r) /\ re_test re pth = true.
Proof.
  revert dh; induction r as [|[re fnc] r IH]; intros dh; cbn [by_regexp].
  - exists []. rewrite app_nil_r. split; [reflexivity|]. split; [constructor|].
    intros h Hh. apply elem_of_nil in Hh. contradiction.
  - destruct (absent fnc dh) eqn:Habs; cbn [negb].
    + destruct (re_test re pth) eqn:Htest.
      * destruct (IH (dh ++ [fnc])) as (extra & Heq & Hnd & Hex).
        exists (fnc :: extra). split; [rewrite Heq, <- app_assoc; reflexivity|].
        split.
        { constructor; [|exact Hnd].
          intros Hin. apply Hex in Hin as [Hnot _]. apply Hnot.
          apply elem_of_app. right. apply list_elem_of_singleton. reflexivity. }
        intros h Hh. apply elem_of_cons in Hh as [-> | Hh].
        { split; [apply absent_spec; exact Habs|].
          exists re. split; [apply elem_of_cons; left; reflexivity | exact Htest]. }
        destruct (Hex h Hh) as (Hnot & re' & Hin & Ht).
        split; [intros Hd; apply Hnot, elem_of_app; left; exact Hd|].
        exists re'. split; [apply elem_of_cons; right; exact Hin | exact Ht].
      * destruct (IH dh) as (extra & Heq & Hnd & Hex).
        exists extra. split; [exact Heq|]. split; [exact Hnd|].
        intros h Hh. destruct (Hex h Hh) as (Hnot & re' & Hin & Ht).
        split; [exact Hnot|]. exists re'. split; [apply elem_of_cons; right; exact Hin | exact Ht].
    + destruct (IH dh) as (extra & Heq & Hnd & Hex).
      exists extra. split; [exact Heq|]. split; [exact Hnd|].
      intros h Hh. destruct (Hex h Hh) as (Hnot & re' & Hin & Ht).
      split; [exact Hnot|]. exists re'. split; [apply elem_of_cons; right; exact Hin | exact Ht].
Qed.



(** On a miss the answer is the list by name, then the list by path,
    then the pattern handlers; [null] when that list is empty.  It is
    cached under the path, unless the path is [__proto__]. *)
Lemma Handlers_miss (p : RtfParser) (nm pth : string) :
  cache_broken p = false ->
  dhc p !! pth = None ->
  exists extra,
    build (dhd p) (dhr p) nm pth
    = concat_slot (concat_slot [] (dhd_get (dhd p) nm)) (dhd_get (dhd p) pth) ++ extra /\
    fst (Handlers p nm pth)
    = Resolved (match build (dhd p) (dhr p) nm pth with [] => None | l => Some l end) /\
    (String.eqb pth "__proto__" = false ->
     dhc (snd (Handlers p nm pth)) !! pth
     = Some (match build (dhd p) (dhr p) nm pth with [] => None | l => Some l end) /\
     dhc_bare (snd (Handlers p nm pth)) = dhc_bare p).
Proof.
  intros Hok Hmiss. unfold Handlers. rewrite Hok, Hmiss.
  destruct (by_regexp_adds (dhr p) pth
              (concat_slot (concat_slot [] (dhd_get (dhd p) nm)) (dhd_get (dhd p) pth)))
    as (extra & Heq & _).
  exists extra. split; [exact Heq|].
  cbv zeta. cbn [dhd dhr set_cache].
  destruct (build (dhd p) (dhr p) nm pth) eqn:Hb; cbn [length Nat.eqb fst snd];
    (split; [reflexivity|]); intros Hpth; unfold cache_put; rewrite Hpth;
    unfold set_cache; cbn [dhc dhc_bare]; (split; [apply lookup_insert_eq | reflexivity]).
Qed.

(** A path that was resolved is answered from the cache, with the same
    answer, until a registration clears the cache; but for the paths
    [__proto__], which is never cached, and [hasOwnProperty], whose entry
    hides the function that the cache is asked with. *)
Lemma Handlers_again (p : RtfParser) (nm nm' pth : string) :
  cache_broken p = false ->
  String.eqb pth "__proto__" = false -> String.eqb pth "hasOwnProperty" = false ->
  fst (Handlers (snd (Handlers p nm pth)) nm' pth) = fst (Handlers p nm pth).
Proof.
  intros Hok Hproto Hown.
  assert (Hne : pth <> "hasOwnProperty"%string) by (apply String.eqb_neq; exact Hown).
  unfold cache_broken in Hok. apply orb_false_elim in Hok as [Hbare Hkey].
  destruct (dhc p !! pth) as [v|] eqn:E.
  - unfold Handlers at 2 3. unfold cache_broken. rewrite Hbare, Hkey, E. cbn [orb fst snd].
    unfold Handlers, cache_broken, set_cache. cbn [dhc dhc_bare].
    rewrite Hbare, Hkey, E. reflexivity.
  - assert (Hok : cache_broken p = false) by (unfold cache_broken; rewrite Hbare, Hkey; reflexivity).
    destruct (Handlers_miss p nm pth Hok E) as (_ & _ & Hfst & Hc).
    destruct (Hc Hproto) as [Hc1 Hc2].
    assert (Hkey' : dhc (snd (Handlers p nm pth)) !! "hasOwnProperty"%string = None).
    { unfold Handlers. unfold cache_broken. rewrite Hbare, Hkey, E. cbn [orb].
      unfold cache_put. rewrite Hproto.
      destruct (length _ =? 0)%nat; cbn [snd set_cache dhc];
        rewrite lookup_insert_ne by congruence; destruct (dhc p !! "hasOwnProperty"%string);
        [discriminate | reflexivity | discriminate | reflexivity]. }
    unfold Handlers at 1. unfold cache_broken. rewrite Hc2, Hbare, Hkey', Hc1. cbn [orb fst].
    rewrite Hfst. reflexivity.
Qed.


End Resolution.

(** C6.  A handler registered under the name [f] and under the path
    [;rtf;f] is listed twice for the destination [;rtf;f]: the lists by
    name and by path are concatenated as they are, and only the pattern
    handlers are checked against what the list already holds. *)
Theorem C6_handler_listed_twice :
  let p0 := @new_parser demo_host "" tt in
  let p1 := fst (HandleDest p0 (DString "f") 7%nat) in
  let p2 := fst (HandleDest p1 (DString ";rtf;f") 7%nat) in
  fst (Handlers p2 "f" ";rtf;f") = @Resolved demo_host (Some [7%nat; 7%nat]) /\
  ~ NoDup [7%nat; 7%nat].
Proof.
  split; [vm_compute; reflexivity|].
  intros Hnd. apply NoDup_cons in Hnd as [Hnot _].
  apply Hnot, list_elem_of_singleton. reflexivity.
Qed.

(** * Further properties *)

(** ** Bit fields of 32-bit numbers *)

Lemma toInt32_range (z : Z) : -2147483648 <= JS.toInt32 z < 2147483648.
Proof.
  unfold JS.toInt32. pose proof (Z.mod_pos_bound (z + 2147483648) 4294967296). lia.
Qed.

Lemma toInt32_id (z : Z) : -2147483648 <= z < 2147483648 -> JS.toInt32 z = z.
Proof.
  intros H. unfold JS.toInt32. rewrite Z.mod_small by lia. lia.
Qed.

Lemma toInt32_eq (a b : Z) :
  a mod 4294967296 = b mod 4294967296 -> JS.toInt32 a = JS.toInt32 b.
Proof.
  intros H. unfold JS.toInt32.
  rewrite <- (Zplus_mod_idemp_l a), <- (Zplus_mod_idemp_l b), H. reflexivity.
Qed.

Lemma small_bits (m j n : Z) : 0 <= m < 2 ^ j -> j <= n -> Z.testbit m n = false.
Proof.
  intros Hm Hn. destruct (Z.eq_dec m 0) as [-> | Hz]; [apply Z.testbit_0_l|].
  apply Z.bits_above_log2; [lia|].
  assert (0 <= j) by (destruct (Z_lt_dec j 0); [rewrite Z.pow_neg_r in Hm by lia; lia | lia]).
  assert (Z.log2 m < j) by (apply Z.log2_lt_pow2; lia). lia.
Qed.

(** From bit 31 on, the bits of a 32-bit number repeat its sign. *)
Lemma toInt32_sign_bits (z n : Z) :
  31 <= n -> Z.testbit (JS.toInt32 z) n = Z.testbit (JS.toInt32 z) 31.
Proof.
  intros Hn. pose proof (toInt32_range z) as Hr.
  destruct (Z_lt_dec (JS.toInt32 z) 0) as [Hneg | Hpos].
  - rewrite <- (Z.opp_involutive (JS.toInt32 z)).
    rewrite !Z.bits_opp by lia.
    rewrite (small_bits (Z.pred (- JS.toInt32 z)) 31 n) by lia.
    rewrite (small_bits (Z.pred (- JS.toInt32 z)) 31 31) by lia. reflexivity.
  - rewrite (small_bits (JS.toInt32 z) 31 n) by lia.
    rewrite (small_bits (JS.toInt32 z) 31 31) by lia. reflexivity.
Qed.

(** A number whose bits repeat bit 31 from there on is a 32-bit number. *)
Lemma int32_of_bits (a : Z) :
  (forall n, 31 <= n -> Z.testbit a n = Z.testbit a 31) -> JS.toInt32 a = a.
Proof.
  intros H. apply Z.bits_inj'. intros n Hn.
  destruct (Z_lt_dec n 32) as [Hlt | Hge].
  - apply testbit_toInt32. lia.
  - rewrite (toInt32_sign_bits a n), (testbit_toInt32 a 31), (H n) by lia. reflexivity.
Qed.

Lemma bor_int32 (x y : Z) : JS.toInt32 (JS.bor x y) = JS.bor x y.
Proof.
  apply int32_of_bits. intros n Hn. unfold JS.bor.
  rewrite !Z.lor_spec, !(toInt32_sign_bits _ n) by lia. reflexivity.
Qed.

Lemma shl_int32 (x k : Z) : JS.toInt32 (JS.shl x k) = JS.shl x k.
Proof.
  unfold JS.shl. apply toInt32_id, toInt32_range.
Qed.

Lemma bor_bit (x y n : Z) :
  0 <= n < 32 -> Z.testbit (JS.bor x y) n = Z.testbit x n || Z.testbit y n.
Proof.
  intros Hn. unfold JS.bor. rewrite Z.lor_spec, !testbit_toInt32 by lia. reflexivity.
Qed.

Lemma shl_bit_low (x k n : Z) : 0 <= n < k -> Z.testbit (JS.shl x k) n = false.
Proof.
  intros Hn. unfold JS.shl.
  destruct (Z_lt_dec n 32).
  - rewrite testbit_toInt32 by lia. apply Z.shiftl_spec_low. lia.
  - rewrite toInt32_sign_bits, testbit_toInt32 by lia. apply Z.shiftl_spec_low. lia.
Qed.

Lemma shl_bit_high (x k n : Z) :
  0 <= k <= n -> n < 32 -> Z.testbit (JS.shl x k) n = Z.testbit x (n - k).
Proof.
  intros Hk Hn. unfold JS.shl.
  rewrite (testbit_toInt32 _ n) by lia.
  rewrite Z.shiftl_spec by lia.
  apply testbit_toInt32. lia.
Qed.

(** A field of a token: [w] bits from bit [k] on. *)
Lemma field_bit (t k w n : Z) :
  0 <= k -> 0 <= w < 32 -> k + w <= 32 -> 0 <= n ->
  Z.testbit (JS.band (JS.shr t k) (Z.ones w)) n
  = if n <? w then Z.testbit t (n + k) else false.
Proof.
  intros Hk Hw Hkw Hn. unfold JS.band, JS.shr.
  rewrite (toInt32_id (Z.ones w))
    by (rewrite Z.ones_equiv; pose proof (Z.pow_pos_nonneg 2 w);
        assert (2 ^ w <= 2 ^ 31) by (apply Z.pow_le_mono_r; lia);
        change (2 ^ 31) with 2147483648 in *; lia).
  rewrite Z.land_spec.
  destruct (n <? w) eqn:E.
  - apply Z.ltb_lt in E.
    rewrite Z.ones_spec_low, andb_true_r by lia.
    rewrite (testbit_toInt32 _ n) by lia.
    rewrite Z.shiftr_spec by lia.
    apply testbit_toInt32. lia.
  - apply Z.ltb_ge in E. rewrite Z.ones_spec_high by lia. apply andb_false_r.
Qed.

Lemma field_eq (t k w v : Z) :
  0 <= k -> 0 <= w < 32 -> k + w <= 32 -> 0 <= v < 2 ^ w ->
  (forall n, 0 <= n < w -> Z.testbit t (n + k) = Z.testbit v n) ->
  JS.band (JS.shr t k) (Z.ones w) = v.
Proof.
  intros Hk Hw Hkw Hv Hbits. apply Z.bits_inj'. intros n Hn.
  rewrite field_bit by lia.
  destruct (n <? w) eqn:E.
  - apply Z.ltb_lt in E. apply Hbits. lia.
  - apply Z.ltb_ge in E. symmetry. apply (small_bits v w); lia.
Qed.

(** The [has] bit. *)
Lemma shr31_zero (t : Z) : (JS.shr t 31 =? 0) = negb (Z.testbit t 31).
Proof.
  unfold JS.shr. rewrite <- (testbit_toInt32 t 31) by lia.
  pose proof (toInt32_range t) as Hr. set (a := JS.toInt32 t) in *.
  rewrite Z.shiftr_div_pow2 by lia. change (2 ^ 31) with 2147483648.
  destruct (Z_lt_dec a 0) as [Hneg | Hpos].
  - assert (Hd : a / 2147483648 = -1)
      by (symmetry; apply (Z.div_unique a 2147483648 (-1) (a + 2147483648)); lia).
    rewrite Hd. change (-1 =? 0) with false.
    assert (Hb : Z.testbit a 31 = true).
    { apply Z.testbit_true; [lia|]. change (2 ^ 31) with 2147483648. rewrite Hd. reflexivity. }
    rewrite Hb. reflexivity.
  - rewrite Z.div_small by lia. rewrite (small_bits a 31 31) by lia. reflexivity.
Qed.

(** The bits of a constant below 2^11, checked position by position. *)
Lemma low_bits (m : Z) (f : Z -> bool) :
  0 <= m < 2048 ->
  forallb (fun n => Bool.eqb (Z.testbit m n) (f n)) (map Z.of_nat (seq 0 256)) = true ->
  (forall n, 11 <= n -> f n = false) ->
  forall n, 0 <= n -> Z.testbit m n = f n.
Proof.
  intros Hm Hlow Hhigh n Hn. destruct (Z_lt_dec n 256) as [Hlt | Hge].
  - apply eqb_prop. pose (P := fun n => Bool.eqb (Z.testbit m n) (f n)).
    change (P n = true). apply byte_cases; [exact Hlow | lia].
  - rewrite (small_bits m 11 n), Hhigh by (change (2 ^ 11) with 2048; lia). reflexivity.
Qed.

Lemma bits_1536 (n : Z) : 0 <= n -> Z.testbit 1536 n = ((n =? 9) || (n =? 10)).
Proof.
  apply (low_bits 1536 (fun n => (n =? 9) || (n =? 10))); [lia | vm_compute; reflexivity|].
  intros k Hk. apply orb_false_intro; apply Z.eqb_neq; lia.
Qed.

(** ** Texts and their parts *)

Lemma drop_add (s : string) (i k : nat) : JS.drop k (JS.drop i s) = JS.drop (i + k) s.
Proof.
  revert s; induction i as [|i IH]; intros s; cbn [JS.drop Nat.add]; [reflexivity|].
  destruct s as [|a s]; [destruct k; reflexivity | apply IH].
Qed.

Lemma charCodeAt_shift (s : string) (i k : nat) :
  JS.charCodeAt s (i + k) = JS.charCodeAt (JS.drop i s) k.
Proof.
  unfold JS.charCodeAt.
  revert s; induction i as [|i IH]; intros s; cbn [JS.drop Nat.add]; [reflexivity|].
  destruct s as [|a s]; cbn [String.get]; [destruct k; reflexivity | apply IH].
Qed.

Lemma substring_drop (s : string) (i a n : nat) :
  String.substring (i + a) n s = String.substring a n (JS.drop i s).
Proof.
  revert s; induction i as [|i IH]; intros s; cbn [JS.drop Nat.add]; [reflexivity|].
  destruct s as [|c s]; cbn [String.substring]; [destruct a, n; reflexivity | apply IH].
Qed.

Lemma substring_head (a b : string) : String.substring 0 (String.length a) (a ++ b) = a.
Proof.
  induction a as [|c a IH]; simpl.
  - destruct b; reflexivity.
  - f_equal. exact IH.
Qed.

Lemma drop_app (a b : string) : JS.drop (String.length a) (a ++ b) = b.
Proof.
  induction a as [|c a IH]; simpl; [reflexivity | exact IH].
Qed.

Lemma charCodeAt_head (a : ascii) (s : string) : JS.charCodeAt (String a s) 0 = Some (JS.code a).
Proof. reflexivity. Qed.

Lemma append_nil (s : string) : (EmptyString ++ s)%string = s.
Proof. reflexivity. Qed.

Lemma append_cons (a : ascii) (s t : string) : (String a s ++ t)%string = String a (s ++ t).
Proof. reflexivity. Qed.

(** The loops of the tokenizer on texts of known shape. *)
Lemma scan_letters_name (name tail : string) (i : nat) (len : Z) :
  lowers name = true ->
  JS.ge (JS.charCodeAt tail 0) 97 && JS.le (JS.charCodeAt tail 0) 122 = false ->
  scan_letters (name ++ tail) i len
  = ((i + String.length name)%nat, len + Z.of_nat (String.length name)).
Proof.
  intros Hlow Htail. revert i len.
  induction name as [|a name IH]; intros i len;
    rewrite ?append_nil, ?append_cons; cbn [String.length].
  - replace (i + 0)%nat with i by lia. replace (len + Z.of_nat 0) with len by lia.
    destruct tail as [|c tail]; cbn [scan_letters]; [reflexivity|].
    cbn [JS.charCodeAt String.get JS.ge JS.le] in Htail. cbv zeta. rewrite Htail. reflexivity.
  - cbn [lowers] in Hlow. apply andb_prop in Hlow as [Ha Hlow].
    cbn [scan_letters]. cbv zeta. rewrite Ha. rewrite IH by exact Hlow.
    f_equal; lia.
Qed.

Lemma numeric_app_first (param : string) :
  numeric param = true -> param <> EmptyString ->
  exists a ptail, param = String a ptail /\ numeric ptail = true /\
                  ((JS.code a =? 45) || ((JS.code a >=? 48) && (JS.code a <=? 57))) = true.
Proof.
  intros Hnum Hne. destruct param as [|a ptail]; [congruence|].
  cbn [numeric] in Hnum. apply andb_prop in Hnum as [Ha Hp].
  exists a, ptail. auto.
Qed.

Lemma scan_value_param (ptail rest : string) (i : nat) (len : Z) :
  numeric ptail = true ->
  JS.eq (JS.charCodeAt rest 0) 45
  || (JS.ge (JS.charCodeAt rest 0) 48 && JS.le (JS.charCodeAt rest 0) 57) = false ->
  scan_value (ptail ++ rest) i len
  = ((i + String.length ptail)%nat,
     len + Z.of_nat (String.length ptail)
     + match JS.charCodeAt rest 0 with
       | None => 0
       | Some r => if r =? 32 then 2 else 1
       end).
Proof.
  intros Hnum Hrest. revert i len.
  induction ptail as [|a ptail IH]; intros i len;
    rewrite ?append_nil, ?append_cons; cbn [String.length].
  - replace (i + 0)%nat with i by lia.
    destruct rest as [|r rest]; cbn [scan_value]; [f_equal; cbn; lia|].
    cbv zeta. rewrite charCodeAt_head in *. cbn [JS.eq JS.ge JS.le] in Hrest.
    apply orb_false_elim in Hrest as [H45 Hdig].
    replace (negb (JS.code r =? 45) && ((JS.code r <? 48) || (JS.code r >? 57))) with true
      by (symmetry; apply andb_true_intro; split; [rewrite H45; reflexivity | lia]).
    f_equal. destruct (JS.code r =? 32); lia.
  - cbn [numeric] in Hnum. apply andb_prop in Hnum as [Ha Hp].
    cbn [scan_value]. cbv zeta.
    replace (negb (JS.code a =? 45) && ((JS.code a <? 48) || (JS.code a >? 57))) with false
      by (symmetry; destruct (JS.code a =? 45) eqn:E; [reflexivity | cbn in Ha |- *; lia]).
    rewrite IH by exact Hp. f_equal; lia.
Qed.

(** ** Control words *)

Lemma toInt32_mod16 (z : Z) : JS.toInt32 z mod 65536 = z mod 65536.
Proof.
  unfold JS.toInt32.
  pose proof (Z.div_mod (z + 2147483648) 4294967296 ltac:(lia)) as Hdm.
  replace ((z + 2147483648) mod 4294967296 - 2147483648)
    with (z + (- 65536 * ((z + 2147483648) / 4294967296)) * 65536) by lia.
  apply Z_mod_plus_full.
Qed.

(** The fields of the token of a control word without a parameter. *)
Lemma plain_control_fields (n : Z) :
  1 <= n <= 16 ->
  (let t := JS.bor (JS.bor (JS.shl (n - 1) 11) 1536) (n + 1) in
   RtfTkTyp t = CONTROL /\ RtfTkLen t = n + 1 /\ RtfTkVal t = None /\
   JS.band (JS.shr t 11) 15 = n - 1 /\ (JS.band t 1792 =? 1536) = true) /\
  (let t := JS.bor (JS.bor (JS.shl (n - 1) 11) 1536) (n + 2) in
   RtfTkTyp t = CONTROL /\ RtfTkLen t = n + 2 /\ RtfTkVal t = None /\
   JS.band (JS.shr t 11) 15 = n - 1 /\ (JS.band t 1792 =? 1536) = true).
Proof.
  intros Hn.
  pose (Q := fun n l =>
    let t := JS.bor (JS.bor (JS.shl (n - 1) 11) 1536) l in
    (RtfTkTyp t =? CONTROL) && (RtfTkLen t =? l)
    && (JS.shr t 31 =? 0)
    && (JS.band (JS.shr t 11) 15 =? n - 1) && (JS.band t 1792 =? 1536)).
  pose (P := fun n => if (1 <=? n) && (n <=? 16) then Q n (n + 1) && Q n (n + 2) else true).
  assert (HP : P n = true) by (apply byte_cases; [vm_compute; reflexivity | lia]).
  unfold P in HP. replace ((1 <=? n) && (n <=? 16)) with true in HP by lia.
  apply andb_prop in HP as [H1 H2]. unfold Q in H1, H2. cbv zeta in *.
  split.
  - repeat (apply andb_prop in H1 as [H1 ?]).
    unfold RtfTkVal. repeat split; try lia.
    match goal with Hs : (JS.shr _ 31 =? 0) = true |- _ => rewrite Hs end. reflexivity.
  - repeat (apply andb_prop in H2 as [H2 ?]).
    unfold RtfTkVal. repeat split; try lia.
    match goal with Hs : (JS.shr _ 31 =? 0) = true |- _ => rewrite Hs end. reflexivity.
Qed.

Lemma drop_cons_inv (s : string) (i : nat) (a : ascii) (r : string) :
  JS.drop i s = String a r -> JS.charCodeAt s i = Some (JS.code a) /\ JS.drop (S i) s = r.
Proof.
  intros H. pose proof (drop_get s i) as E. rewrite H in E. unfold JS.charCodeAt.
  destruct (String.get i s) as [b|]; [|discriminate].
  injection E as -> ->. split; reflexivity.
Qed.

Lemma charCodeAt_app (a b : string) (k : nat) :
  JS.charCodeAt (a ++ b) (String.length a + k) = JS.charCodeAt b k.
Proof. rewrite charCodeAt_shift, drop_app. reflexivity. Qed.

(** The token of a control word without a parameter. *)
Lemma GetRtfTk_plain (s : string) (i : nat) (name tail : string) :
  JS.drop i s = String "\" (name ++ tail) ->
  lowers name = true -> (1 <= String.length name)%nat ->
  JS.ge (JS.charCodeAt tail 0) 97 && JS.le (JS.charCodeAt tail 0) 122 = false ->
  JS.eq (JS.charCodeAt tail 0) 45
  || (JS.ge (JS.charCodeAt tail 0) 48 && JS.le (JS.charCodeAt tail 0) 57) = false ->
  GetRtfTk s i =
  let n := Z.of_nat (String.length name) in
  JS.bor (JS.bor (JS.shl (n - 1) 11) 1536)
         (if JS.eq (JS.charCodeAt tail 0) 32 then n + 2 else n + 1).
Proof.
  intros Hdrop Hlow Hn Hnl Hnd.
  destruct (drop_cons_inv _ _ _ _ Hdrop) as [H0 Hd].
  unfold GetRtfTk. rewrite H0. change (JS.code "\") with 92. cbn [JS.eq].
  change (92 =? 123) with false. change (92 =? 125) with false.
  change (92 =? 92) with true. cbv iota.
  rewrite Hd, (scan_letters_name _ _ _ _ Hlow Hnl).
  replace (JS.charCodeAt s (S i + String.length name)) with (JS.charCodeAt tail 0)
    by (rewrite charCodeAt_shift, Hd, <- (charCodeAt_app name tail 0);
        f_equal; lia).
  replace (1 + Z.of_nat (String.length name) =? 1) with false by lia.
  rewrite Hnd. cbv zeta.
  destruct (JS.eq (JS.charCodeAt tail 0) 32); (f_equal; [f_equal; f_equal; lia | lia]).
Qed.

Lemma substr_name (s : string) (i : nat) (name tail : string) :
  JS.drop (S i) s = (name ++ tail)%string ->
  JS.substr s (1 + i) (String.length name) = name.
Proof.
  intros Hd. unfold JS.substr.
  replace (1 + i)%nat with (S i + 0)%nat by lia.
  rewrite substring_drop, Hd. apply substring_head.
Qed.

(** X1.  A backslash, 1 to 16 lower-case letters and then a character
    that is no lower-case letter, digit or ['-'] (or the end of the
    source) give a token of kind [ControlWord] without a value, whose
    name is the letters and whose length is the backslash and the
    letters, plus the space that follows if there is one. *)
Theorem control_word_without_parameter (s : string) (i : nat) (name tail : string) :
  JS.drop i s = String "\" (name ++ tail) ->
  lowers name = true -> (1 <= String.length name <= 16)%nat ->
  JS.ge (JS.charCodeAt tail 0) 97 && JS.le (JS.charCodeAt tail 0) 122 = false ->
  JS.eq (JS.charCodeAt tail 0) 45
  || (JS.ge (JS.charCodeAt tail 0) 48 && JS.le (JS.charCodeAt tail 0) 57) = false ->
  let t := GetRtfTk s i in
  RtfTkTyp t = CONTROL /\ RtfTkVal t = None /\ RtfTkCtl t s i = Some name /\
  RtfTkLen t = Z.of_nat (String.length name)
               + (if JS.eq (JS.charCodeAt tail 0) 32 then 2 else 1).
Proof.
  intros Hdrop Hlow Hn Hnl Hnd. cbv zeta.
  rewrite (GetRtfTk_plain s i name tail Hdrop Hlow ltac:(lia) Hnl Hnd). cbv zeta.
  destruct (drop_cons_inv _ _ _ _ Hdrop) as [_ Hd].
  destruct (plain_control_fields (Z.of_nat (String.length name)) ltac:(lia))
    as [(T1 & L1 & V1 & S1 & C1) (T2 & L2 & V2 & S2 & C2)].
  destruct (JS.eq (JS.charCodeAt tail 0) 32).
  - repeat split; try assumption.
    unfold RtfTkCtl. rewrite C2, S2. cbn [negb].
    replace (Z.to_nat (1 + (Z.of_nat (String.length name) - 1))) with (String.length name) by lia.
    f_equal. eapply substr_name; eassumption.
  - repeat split; try assumption.
    unfold RtfTkCtl. rewrite C1, S1. cbn [negb].
    replace (Z.to_nat (1 + (Z.of_nat (String.length name) - 1))) with (String.length name) by lia.
    f_equal. eapply substr_name; eassumption.
Qed.

Lemma control_word_without_parameter_witness :
  let t := GetRtfTk "{\pard \b}" 1 in
  RtfTkTyp t = CONTROL /\ RtfTkVal t = None /\ RtfTkCtl t "{\pard \b}" 1 = Some "pard"%string /\
  RtfTkLen t = 6.
Proof.
  apply (control_word_without_parameter "{\pard \b}" 1 "pard" " \b}");
    [reflexivity | reflexivity | cbn; lia | reflexivity | reflexivity].
Defined.

Lemma RtfTkLen_field (t : Z) : RtfTkLen t = JS.band (JS.shr t 0) (Z.ones 8).
Proof.
  unfold RtfTkLen, JS.band, JS.shr.
  rewrite Z.shiftr_0_r, (toInt32_id (JS.toInt32 t)) by apply toInt32_range. reflexivity.
Qed.

Lemma bits_1792 (n : Z) : 0 <= n -> Z.testbit 1792 n = ((n =? 8) || (n =? 9) || (n =? 10)).
Proof.
  apply (low_bits 1792 (fun n => (n =? 8) || (n =? 9) || (n =? 10)));
    [lia | vm_compute; reflexivity|].
  intros k Hk. repeat (apply orb_false_intro); apply Z.eqb_neq; lia.
Qed.

(** The fields of the token of a control word with a parameter: [v] is
    the number shifted into the value field, [k] the skip field. *)
Lemma valued_control_fields (v k len : Z) :
  0 <= k < 16 -> 0 <= len < 256 ->
  let t := JS.bor (JS.bor (JS.bor (JS.bor (JS.shl 1 31) (JS.shl v 15)) (JS.shl k 11)) 1536) len in
  RtfTkTyp t = CONTROL /\ RtfTkLen t = len /\
  RtfTkVal t = Some (v mod 65536 - 32768) /\
  JS.band (JS.shr t 11) 15 = k /\ (JS.band t 1792 =? 1536) = true.
Proof.
  intros Hk Hlen t.
  assert (Hbit : forall n, 0 <= n < 32 ->
            Z.testbit t n
            = (n =? 31) || (if n <? 15 then false else Z.testbit v (n - 15))
              || (if n <? 11 then false else Z.testbit k (n - 11))
              || ((n =? 9) || (n =? 10)) || Z.testbit len n).
  { intros n Hn. unfold t. rewrite !bor_bit, bits_1536 by lia. f_equal. f_equal. f_equal.
    - f_equal.
      + destruct (Z.eq_dec n 31) as [-> | Hne].
        * rewrite shl_bit_high by lia. reflexivity.
        * rewrite shl_bit_low by lia. symmetry. apply Z.eqb_neq. exact Hne.
      + destruct (n <? 15) eqn:E; [apply shl_bit_low | apply shl_bit_high]; lia.
    - destruct (n <? 11) eqn:E; [apply shl_bit_low | apply shl_bit_high]; lia. }
  assert (Hk' : forall n, 4 <= n -> Z.testbit k n = false)
    by (intros n Hn; apply (small_bits k 4); [change (2 ^ 4) with 16; lia | lia]).
  assert (Hl' : forall n, 8 <= n -> Z.testbit len n = false)
    by (intros n Hn; apply (small_bits len 8); [change (2 ^ 8) with 256; lia | lia]).
  assert (Htyp : RtfTkTyp t = CONTROL).
  { unfold RtfTkTyp. change 7 with (Z.ones 3). apply field_eq; try lia.
    - unfold CONTROL. change (2 ^ 3) with 8. lia.
    - intros n Hn. rewrite Hbit by lia.
      replace (n + 8 =? 31) with false by lia.
      replace (n + 8 <? 15) with true by lia.
      replace (n + 8 <? 11) with true by lia.
      rewrite Hl' by lia. rewrite !orb_false_r. cbn [orb].
      assert (Hc : n = 0 \/ n = 1 \/ n = 2) by lia.
      destruct Hc as [-> | [-> | ->]]; reflexivity. }
  assert (Hlen' : RtfTkLen t = len).
  { rewrite RtfTkLen_field. apply field_eq; try lia.
    - intros n Hn. rewrite Hbit by lia.
      replace (n + 0 =? 31) with false by lia.
      replace (n + 0 <? 15) with true by lia.
      replace (n + 0 <? 11) with true by lia.
      replace (n + 0 =? 9) with false by lia.
      replace (n + 0 =? 10) with false by lia.
      cbn [orb]. f_equal. lia. }
  assert (Hval : JS.band (JS.shr t 15) 65535 = v mod 65536).
  { change 65535 with (Z.ones 16). apply field_eq; try lia.
    - change (2 ^ 16) with 65536. apply Z.mod_pos_bound. lia.
    - intros n Hn. rewrite Hbit by lia.
      replace (n + 15 =? 31) with false by lia.
      replace (n + 15 <? 15) with false by lia.
      replace (n + 15 <? 11) with false by lia.
      replace (n + 15 =? 9) with false by lia.
      replace (n + 15 =? 10) with false by lia.
      rewrite Hk', Hl' by lia. rewrite !orb_false_r. cbn [orb].
      replace (n + 15 - 15) with n by lia.
      change 65536 with (2 ^ 16). rewrite Z.mod_pow2_bits_low by lia. reflexivity. }
  assert (Hskp : JS.band (JS.shr t 11) 15 = k).
  { change 15 with (Z.ones 4). apply field_eq; try lia.
    - intros n Hn. rewrite Hbit by lia.
      replace (n + 11 =? 31) with false by lia.
      replace (n + 11 <? 15) with true by lia.
      replace (n + 11 <? 11) with false by lia.
      replace (n + 11 =? 9) with false by lia.
      replace (n + 11 =? 10) with false by lia.
      rewrite Hl' by lia. rewrite !orb_false_r. cbn [orb].
      f_equal. lia. }
  assert (Hhas : (JS.shr t 31 =? 0) = false).
  { rewrite shr31_zero, Hbit by lia. reflexivity. }
  assert (Hctl : (JS.band t 1792 =? 1536) = true).
  { apply Z.eqb_eq, Z.bits_inj'. intros n Hn. unfold JS.band.
    change (JS.toInt32 1792) with 1792.
    rewrite Z.land_spec, bits_1792, bits_1536 by lia.
    destruct (Z.eq_dec n 8) as [-> | H8].
    { rewrite testbit_toInt32, Hbit, Hl' by lia. reflexivity. }
    destruct (Z.eq_dec n 9) as [-> | H9].
    { rewrite testbit_toInt32, Hbit by lia. reflexivity. }
    destruct (Z.eq_dec n 10) as [-> | H10].
    { rewrite testbit_toInt32, Hbit, Hl' by lia. reflexivity. }
    replace (n =? 8) with false by lia. replace (n =? 9) with false by lia.
    replace (n =? 10) with false by lia. apply andb_false_r. }
  unfold RtfTkVal. rewrite Hhas, Hval. auto.
Qed.

Lemma substring_app (a b : string) (k n : nat) :
  String.substring (String.length a + k) n (a ++ b) = String.substring k n b.
Proof.
  induction a as [|c a IH]; [reflexivity|].
  rewrite append_cons. cbn [String.length Nat.add String.substring]. exact IH.
Qed.

(** The token of a control word with a parameter. *)
Lemma GetRtfTk_valued (s : string) (i : nat) (name param rest : string) :
  JS.drop i s = String "\" (name ++ param ++ rest) ->
  lowers name = true -> (1 <= String.length name)%nat ->
  numeric param = true -> param <> EmptyString ->
  JS.eq (JS.charCodeAt rest 0) 45
  || (JS.ge (JS.charCodeAt rest 0) 48 && JS.le (JS.charCodeAt rest 0) 57) = false ->
  GetRtfTk s i =
  JS.bor (JS.bor (JS.bor (JS.bor (JS.shl 1 31)
                                 (JS.shl (JS.toInt32o (JS.add (JS.parseInt param) 32768)) 15))
                         (JS.shl (Z.of_nat (String.length name) - 1) 11)) 1536)
         (Z.of_nat (String.length name) + Z.of_nat (String.length param)
          + match JS.charCodeAt rest 0 with
            | None => 0
            | Some r => if r =? 32 then 2 else 1
            end).
Proof.
  intros Hdrop Hlow Hn Hnum Hne Hrest.
  destruct (numeric_app_first param Hnum Hne) as (a & ptail & -> & Hpt & Ha).
  destruct (drop_cons_inv _ _ _ _ Hdrop) as [H0 Hd].
  assert (Hnl : JS.ge (JS.charCodeAt (String a ptail ++ rest) 0) 97
                && JS.le (JS.charCodeAt (String a ptail ++ rest) 0) 122 = false).
  { rewrite append_cons, charCodeAt_head. cbn [JS.ge JS.le].
    destruct (JS.code a =? 45) eqn:E; [apply Z.eqb_eq in E; rewrite E; reflexivity|].
    cbn [orb] in Ha. lia. }
  unfold GetRtfTk. rewrite H0. change (JS.code "\") with 92. cbn [JS.eq].
  change (92 =? 123) with false. change (92 =? 125) with false.
  change (92 =? 92) with true. cbv iota.
  rewrite Hd, (scan_letters_name _ _ _ _ Hlow Hnl).
  assert (Hc : JS.charCodeAt s (S i + String.length name) = Some (JS.code a)).
  { rewrite charCodeAt_shift, Hd, <- (charCodeAt_head a (ptail ++ rest)), <- append_cons.
    rewrite <- (charCodeAt_app name (String a ptail ++ rest) 0). f_equal. lia. }
  rewrite Hc.
  replace (1 + Z.of_nat (String.length name) =? 1) with false by lia.
  cbn [JS.eq JS.ge JS.le]. rewrite Ha.
  assert (Hd' : JS.drop (S (S i + String.length name)) s = (ptail ++ rest)%string).
  { replace (S (S i + String.length name)) with (S i + S (String.length name))%nat by lia.
    rewrite <- drop_add, Hd.
    change (S (String.length name)) with (1 + String.length name)%nat.
    rewrite Nat.add_comm, <- drop_add, drop_app. reflexivity. }
  rewrite Hd', (scan_value_param _ _ _ _ Hpt Hrest).
  assert (Hsl : JS.slice s (S i + String.length name)
                         (S (S i + String.length name) + String.length ptail)
                = String a ptail).
  { unfold JS.slice.
    replace (S (S i + String.length name) + String.length ptail - (S i + String.length name))%nat
      with (String.length (String a ptail)) by (cbn [String.length]; lia).
    rewrite substring_drop, Hd.
    rewrite <- (Nat.add_0_r (String.length name)), substring_app.
    apply substring_head. }
  rewrite Hsl. cbn [String.length].
  f_equal; [f_equal; f_equal; f_equal; lia | lia].
Qed.





(** ** The kind of a token and the first characters of its text *)

Lemma RtfTkTyp_range (t : Z) : 0 <= RtfTkTyp t < 8.
Proof.
  unfold RtfTkTyp, JS.band. change (JS.toInt32 7) with (Z.ones 3).
  rewrite Z.land_ones by lia. change (2 ^ 3) with 8. apply Z.mod_pos_bound. lia.
Qed.

Lemma RtfTkTyp_bit (t n : Z) :
  0 <= n < 3 -> Z.testbit (RtfTkTyp t) n = Z.testbit (JS.toInt32 t) (n + 8).
Proof.
  intros Hn. unfold RtfTkTyp, JS.band, JS.shr.
  rewrite Z.land_spec, testbit_toInt32, Z.shiftr_spec by lia.
  replace (Z.testbit (JS.toInt32 7) n) with true; [apply andb_true_r|].
  assert (Hc : n = 0 \/ n = 1 \/ n = 2) by lia.
  destruct Hc as [-> | [-> | ->]]; reflexivity.
Qed.

Lemma typ_high (t : Z) :
  Z.testbit (JS.toInt32 t) 10 = true ->
  Z.testbit (JS.toInt32 t) 8 = true \/ Z.testbit (JS.toInt32 t) 9 = true ->
  5 <= RtfTkTyp t.
Proof.
  intros H10 H89.
  pose proof (RtfTkTyp_range t) as Hr.
  pose proof (RtfTkTyp_bit t 0 ltac:(lia)) as B0.
  pose proof (RtfTkTyp_bit t 1 ltac:(lia)) as B1.
  pose proof (RtfTkTyp_bit t 2 ltac:(lia)) as B2.
  change (0 + 8) with 8 in B0. change (1 + 8) with 9 in B1. change (2 + 8) with 10 in B2.
  rewrite H10 in B2.
  assert (Hc : RtfTkTyp t = 0 \/ RtfTkTyp t = 1 \/ RtfTkTyp t = 2 \/ RtfTkTyp t = 3
               \/ RtfTkTyp t = 4 \/ 5 <= RtfTkTyp t) by lia.
  destruct Hc as [E | [E | [E | [E | [E | E]]]]]; [| | | | |exact E];
    rewrite E in B0, B1, B2;
    try (vm_compute in B2; discriminate).
  destruct H89 as [H | H]; [rewrite H in B0 | rewrite H in B1]; discriminate.
Qed.

Lemma bor_has_bit (x c n : Z) :
  0 <= n < 32 -> Z.testbit c n = true -> Z.testbit (JS.toInt32 (JS.bor x c)) n = true.
Proof. intros Hn Hc. rewrite bor_testbit, Hc by lia. apply orb_true_r. Qed.

Lemma bor_keeps_bit (x y n : Z) :
  0 <= n < 32 -> Z.testbit (JS.toInt32 x) n = true ->
  Z.testbit (JS.toInt32 (JS.bor x y)) n = true.
Proof.
  intros Hn Hx. rewrite bor_testbit by lia.
  rewrite testbit_toInt32 in Hx by lia. rewrite Hx. reflexivity.
Qed.

Lemma control_high (x len : Z) : 5 <= RtfTkTyp (JS.bor (JS.bor x 1536) len).
Proof.
  apply typ_high; [|right]; apply bor_keeps_bit; try lia; apply bor_has_bit; try lia; reflexivity.
Qed.

Lemma charCodeAt_drop_head (s : string) (i : nat) :
  JS.charCodeAt s i = JS.charCodeAt (JS.drop i s) 0.
Proof. rewrite <- (charCodeAt_shift s i 0). f_equal. lia. Qed.

Lemma scan_letters_len (rest : string) (i : nat) (len : Z) :
  len <= snd (scan_letters rest i len).
Proof.
  revert i len; induction rest as [|a rest IH]; intros i len; cbn [scan_letters]; [cbn; lia|].
  cbv zeta. destruct (_ && _); [|cbn; lia].
  specialize (IH (S i) (len + 1)). lia.
Qed.

(** Every way the tokenizer can answer, by the character at the index and
    the one after it. *)
Lemma GetRtfTk_cases (s : string) (i : nat) :
  let c := JS.charCodeAt s i in
  let c1 := JS.charCodeAt s (S i) in
  let t := GetRtfTk s i in
  (c = Some 123 /\ t = 513) \/
  (c = Some 125 /\ t = 769) \/
  (c = Some 92 /\ c1 = Some 42 /\ t = 1026) \/
  (c = Some 92 /\ c1 = Some 39 /\ (RtfTkTyp t = INVALID \/ RtfTkTyp t = CHARACTER)) \/
  (c = Some 92 /\ c1 <> Some 42 /\ c1 <> Some 39 /\ 5 <= RtfTkTyp t) \/
  ((c = Some 10 \/ c = Some 13) /\ 5 <= RtfTkTyp t) \/
  (JS.eq c 123 = false /\ JS.eq c 125 = false /\ JS.eq c 92 = false /\
   JS.eq c 10 = false /\ JS.eq c 13 = false /\ RtfTkTyp t = DATA).
Proof.
  cbv zeta. unfold GetRtfTk.
  destruct (JS.eq (JS.charCodeAt s i) 123) eqn:E123;
    [left; split; [apply eq_Some; exact E123 | reflexivity]|].
  destruct (JS.eq (JS.charCodeAt s i) 125) eqn:E125;
    [right; left; split; [apply eq_Some; exact E125 | reflexivity]|].
  destruct (JS.eq (JS.charCodeAt s i) 92) eqn:E92.
  - apply eq_Some in E92. do 2 right.
    rewrite (charCodeAt_drop_head s (S i)).
    destruct (JS.drop (S i) s) as [|a rest] eqn:Hd.
    + (* the backslash ends the source *)
      cbn [scan_letters]. change (1 =? 1) with true. cbv iota.
      rewrite (charCodeAt_drop_head s (S i)), Hd.
      change (JS.charCodeAt EmptyString 0) with (@None Z). cbn [JS.eq].
      rewrite invalid_test_never.
      do 2 right. left.
      split; [exact E92|]. split; [discriminate|]. split; [discriminate|].
      apply typ_high; [|left]; apply bor_has_bit; try lia; reflexivity.
    + rewrite charCodeAt_head. cbn [scan_letters]. cbv zeta.
      destruct ((JS.code a >=? 97) && (JS.code a <=? 122)) eqn:Elow.
      * (* a control word *)
        pose proof (scan_letters_len rest (S (S i)) (1 + 1)) as Hlen.
        destruct (scan_letters rest (S (S i)) (1 + 1)) as [i' len]. cbn [snd] in Hlen.
        replace (len =? 1) with false by lia.
        do 2 right. left.
        split; [exact E92|].
        split; [intros [= H]; rewrite H in Elow; discriminate|].
        split; [intros [= H]; rewrite H in Elow; discriminate|].
        destruct (_ || _).
        { destruct (scan_value _ _ _) as [i'' len']. apply control_high. }
        destruct (JS.eq _ 32); apply control_high.
      * change (1 =? 1) with true. cbv iota.
        rewrite (charCodeAt_drop_head s (S i)), Hd, charCodeAt_head. cbn [JS.eq].
        destruct (JS.code a =? 42) eqn:E42.
        { left. split; [exact E92|]. split; [f_equal; lia | reflexivity]. }
        destruct (JS.code a =? 39) eqn:E39.
        { right. left. split; [exact E92|]. split; [f_equal; lia|].
          destruct (Z.of_nat (S i) + 2 >? Z.of_nat (String.length s)) eqn:Egt; [left|].
          { assert (Hl : (S i < String.length s)%nat).
            { apply (charCodeAt_length s (S i) (JS.code a)).
              rewrite charCodeAt_drop_head, Hd. reflexivity. }
            rewrite Z.gtb_ltb in Egt. apply Z.ltb_lt in Egt.
            replace (Z.of_nat (String.length s) - Z.of_nat (S i) + 2) with 3 by lia.
            reflexivity. }
          destruct (hexdigit (JS.charCodeAt s (S i + 1))) as [d1|] eqn:H1; [|left; reflexivity].
          destruct (hexdigit (JS.charCodeAt s (S i + 2))) as [d2|] eqn:H2; [|left; reflexivity].
          right. apply character_fields; eapply hexdigit_range; eassumption. }
        rewrite invalid_test_never.
        do 2 right. left. split; [exact E92|].
        split; [intros [= H]; lia|]. split; [intros [= H]; lia|].
        apply typ_high; [|left]; apply bor_has_bit; try lia; reflexivity.
  - destruct (JS.eq (JS.charCodeAt s i) 10 || JS.eq (JS.charCodeAt s i) 13) eqn:Ecr.
    + do 5 right. left. split.
      * apply orb_prop in Ecr as [H | H]; [left | right]; apply eq_Some; exact H.
      * apply typ_high; [|left]; apply bor_keeps_bit; try lia; apply bor_has_bit; try lia;
          reflexivity.
    + do 6 right. apply orb_false_elim in Ecr as [E10 E13].
      repeat split; try assumption.
      apply data_type.
      pose proof (scan_data_bound (JS.drop (S i) s) 1 ltac:(lia)). lia.
Qed.

Lemma GetRtfTk_kinds (s : string) (i : nat) :
  let c := JS.charCodeAt s i in
  let c1 := JS.charCodeAt s (S i) in
  let k := RtfTkTyp (GetRtfTk s i) in
  (c = Some 123 /\ k = 2) \/
  (c = Some 125 /\ k = 3) \/
  (c = Some 92 /\ c1 = Some 42 /\ k = 4) \/
  (c = Some 92 /\ c1 = Some 39 /\ (k = 0 \/ k = 7)) \/
  (c = Some 92 /\ c1 <> Some 42 /\ c1 <> Some 39 /\ 5 <= k) \/
  ((c = Some 10 \/ c = Some 13) /\ 5 <= k) \/
  (JS.eq c 123 = false /\ JS.eq c 125 = false /\ JS.eq c 92 = false /\
   JS.eq c 10 = false /\ JS.eq c 13 = false /\ k = 1).
Proof.
  cbv zeta.
  destruct (GetRtfTk_cases s i) as [(C & T) | [(C & T) | [(C & C1 & T) | H]]];
    [left | right; left | do 2 right; left | do 3 right; exact H];
    rewrite T; auto.
Qed.

Ltac kinds s i :=
  let C := fresh "C" in let C1 := fresh "C1" in let K := fresh "K" in
  let N1 := fresh "N" in let N2 := fresh "N" in
  let E1 := fresh "E" in let E2 := fresh "E" in let E3 := fresh "E" in
  let E4 := fresh "E" in let E5 := fresh "E" in
  unfold INVALID, DATA, PUSH, POP, IGNORABLE, SYMBOL, CONTROL, CHARACTER;
  destruct (GetRtfTk_kinds s i)
    as [(C & K) | [(C & K) | [(C & C1 & K) | [(C & C1 & [K | K]) | [(C & N1 & N2 & K)
        | [([C | C] & K) | (E1 & E2 & E3 & E4 & E5 & K)]]]]]];
  try rewrite C in *; try rewrite C1 in *; cbn [JS.eq] in *.

Ltac kind_done :=
  try congruence; try lia; try discriminate; auto;
  match goal with
  | H : JS.charCodeAt _ _ = Some _ |- _ => rewrite H in *; cbn [JS.eq] in *; discriminate
  end.

(** X3.  The group tokens are the braces: the tokenizer answers
    [GroupOpen] exactly on an open brace and [GroupClose] exactly on a
    close brace, whatever follows.  A brace after a backslash is part of
    the token of the backslash. *)
Theorem group_tokens_are_braces (s : string) (i : nat) :
  (RtfTkTyp (GetRtfTk s i) = PUSH <-> JS.charCodeAt s i = Some 123) /\
  (RtfTkTyp (GetRtfTk s i) = POP <-> JS.charCodeAt s i = Some 125).
Proof.
  kinds s i; (split; split; intros H; kind_done).
Qed.

(** X4.  Text tokens: the tokenizer answers [Data] exactly when the
    character at the index is none of backslash, the braces, CR and LF;
    that includes an index at or past the end of the source. *)
Theorem data_token_first_character (s : string) (i : nat) :
  RtfTkTyp (GetRtfTk s i) = DATA <->
  JS.eq (JS.charCodeAt s i) 92 = false /\ JS.eq (JS.charCodeAt s i) 123 = false /\
  JS.eq (JS.charCodeAt s i) 125 = false /\ JS.eq (JS.charCodeAt s i) 13 = false /\
  JS.eq (JS.charCodeAt s i) 10 = false.
Proof.
  kinds s i; (split; [intros H | intros (H1 & H2 & H3 & H4 & H5)]);
    kind_done.
Qed.

(** X5.  [Ignorable] is the token of a backslash followed by ['*'] and of
    nothing else; a token of kind [Invalid] is only ever answered on a
    backslash followed by an apostrophe. *)
Theorem ignorable_and_invalid_tokens (s : string) (i : nat) :
  (RtfTkTyp (GetRtfTk s i) = IGNORABLE <->
   JS.charCodeAt s i = Some 92 /\ JS.charCodeAt s (S i) = Some 42) /\
  (RtfTkTyp (GetRtfTk s i) = INVALID ->
   JS.charCodeAt s i = Some 92 /\ JS.charCodeAt s (S i) = Some 39).
Proof.
  kinds s i; (split; [split; [intros H | intros (H1 & H2)] | intros H]);
    kind_done.
Qed.

(** ** Data tokens *)

Lemma scan_data_run (rest : string) (len : Z) :
  1 <= len < 255 ->
  scan_data rest len = Z.min (len + Z.of_nat (data_run rest)) 255.
Proof.
  revert len; induction rest as [|a rest IH]; intros len Hlen; cbn [scan_data data_run].
  - lia.
  - cbv zeta. destruct (_ || _); [lia|].
    destruct (len + 1 =? 255) eqn:E; [lia | rewrite IH by lia; lia].
Qed.

Lemma data_fields (len : Z) :
  0 <= len < 256 ->
  RtfTkTyp (JS.bor 256 len) = DATA /\ RtfTkLen (JS.bor 256 len) = len /\
  RtfTkVal (JS.bor 256 len) = None.
Proof.
  intros Hlen.
  pose (P := fun len =>
    let t := JS.bor 256 len in
    (RtfTkTyp t =? DATA) && (RtfTkLen t =? len) && (JS.shr t 31 =? 0)).
  assert (HP : P len = true) by (apply byte_cases; [vm_compute; reflexivity | exact Hlen]).
  unfold P in HP; cbv zeta in HP.
  apply andb_prop in HP as [HP Hv]. apply andb_prop in HP as [Ht Hl].
  unfold RtfTkVal. rewrite Hv. repeat split; lia.
Qed.

Lemma data_run_drop (s : string) (i : nat) :
  JS.eq (JS.charCodeAt s i) 123 = false -> JS.eq (JS.charCodeAt s i) 125 = false ->
  JS.eq (JS.charCodeAt s i) 92 = false ->
  JS.eq (JS.charCodeAt s i) 10 = false -> JS.eq (JS.charCodeAt s i) 13 = false ->
  Z.max 1 (Z.of_nat (data_run (JS.drop i s))) = 1 + Z.of_nat (data_run (JS.drop (S i) s)).
Proof.
  intros E1 E2 E3 E4 E5.
  rewrite (drop_get s i). unfold JS.charCodeAt in *.
  destruct (String.get i s) as [a|] eqn:G.
  - cbn [JS.eq] in *. cbn [data_run]. cbv zeta.
    rewrite E1, E2, E3, E4, E5. cbn [orb]. lia.
  - rewrite (drop_past_end s i G). reflexivity.
Qed.

(** X6.  A data token has no value, and its length is the number of
    characters up to the next backslash, brace, CR or LF or to the end of
    the source, but 255 at most and 1 at least: at or past the end of the
    source the tokenizer still answers a data token of length 1. *)
Theorem data_token_length (s : string) (i : nat) :
  RtfTkTyp (GetRtfTk s i) = DATA ->
  RtfTkVal (GetRtfTk s i) = None /\
  RtfTkLen (GetRtfTk s i) = Z.min (Z.max 1 (Z.of_nat (data_run (JS.drop i s)))) 255.
Proof.
  intros HT.
  assert (HE : JS.eq (JS.charCodeAt s i) 123 = false /\ JS.eq (JS.charCodeAt s i) 125 = false /\
               JS.eq (JS.charCodeAt s i) 92 = false /\
               JS.eq (JS.charCodeAt s i) 10 = false /\ JS.eq (JS.charCodeAt s i) 13 = false).
  { revert HT. kinds s i; intros HT; try congruence; try lia; auto. }
  destruct HE as (E1 & E2 & E3 & E4 & E5).
  rewrite (data_run_drop s i E1 E2 E3 E4 E5).
  unfold GetRtfTk. rewrite E1, E2, E3, E4, E5. cbn [orb].
  rewrite scan_data_run by lia.
  destruct (data_fields (Z.min (1 + Z.of_nat (data_run (JS.drop (S i) s))) 255) ltac:(lia))
    as (_ & L & V).
  split; [exact V | exact L].
Qed.

Lemma data_token_length_witness :
  RtfTkVal (GetRtfTk "{\b bold text}" 4) = None /\
  RtfTkLen (GetRtfTk "{\b bold text}" 4) = 9.
Proof. apply (data_token_length "{\b bold text}" 4). reflexivity. Defined.

(** ** The token constructor *)

(** The fields of a token put together from its parts, as [NewRtfTk] does. *)
Lemma token_fields (has v k typ len : Z) :
  0 <= has < 2 -> 0 <= k < 16 -> 0 <= typ < 8 -> 0 <= len < 256 ->
  let t := JS.bor (JS.bor (JS.bor (JS.bor (JS.shl has 31) (JS.shl v 15)) (JS.shl k 11))
                          (JS.shl typ 8)) len in
  RtfTkTyp t = typ /\ RtfTkLen t = len /\
  JS.band (JS.shr t 11) 15 = k /\
  JS.band (JS.shr t 15) 65535 = v mod 65536 /\
  (JS.shr t 31 =? 0) = negb (Z.testbit has 0 || Z.testbit v 16).
Proof.
  intros Hhas Hk Htyp Hlen t.
  assert (Hbit : forall n, 0 <= n < 32 ->
            Z.testbit t n
            = (if n <? 31 then false else Z.testbit has 0)
              || (if n <? 15 then false else Z.testbit v (n - 15))
              || (if n <? 11 then false else Z.testbit k (n - 11))
              || (if n <? 8 then false else Z.testbit typ (n - 8))
              || Z.testbit len n).
  { intros n Hn. unfold t. rewrite !bor_bit by lia. f_equal. f_equal. f_equal.
    - f_equal.
      + destruct (n <? 31) eqn:E; [apply shl_bit_low; lia|].
        rewrite shl_bit_high by lia. f_equal. lia.
      + destruct (n <? 15) eqn:E; [apply shl_bit_low | apply shl_bit_high]; lia.
    - destruct (n <? 11) eqn:E; [apply shl_bit_low | apply shl_bit_high]; lia.
    - destruct (n <? 8) eqn:E; [apply shl_bit_low | apply shl_bit_high]; lia. }
  assert (Hk' : forall n, 4 <= n -> Z.testbit k n = false)
    by (intros n Hn; apply (small_bits k 4); [change (2 ^ 4) with 16; lia | lia]).
  assert (Ht' : forall n, 3 <= n -> Z.testbit typ n = false)
    by (intros n Hn; apply (small_bits typ 3); [change (2 ^ 3) with 8; lia | lia]).
  assert (Hl' : forall n, 8 <= n -> Z.testbit len n = false)
    by (intros n Hn; apply (small_bits len 8); [change (2 ^ 8) with 256; lia | lia]).
  split; [|split; [|split; [|split]]].
  - unfold RtfTkTyp. change 7 with (Z.ones 3). apply field_eq; try lia.
    intros n Hn. rewrite Hbit by lia.
    replace (n + 8 <? 31) with true by lia.
    replace (n + 8 <? 15) with true by lia.
    replace (n + 8 <? 11) with true by lia.
    replace (n + 8 <? 8) with false by lia.
    rewrite Hl' by lia. rewrite orb_false_r. cbn [orb]. f_equal. lia.
  - rewrite RtfTkLen_field. apply field_eq; try lia.
    intros n Hn. rewrite Hbit by lia.
    replace (n + 0 <? 31) with true by lia.
    replace (n + 0 <? 15) with true by lia.
    replace (n + 0 <? 11) with true by lia.
    replace (n + 0 <? 8) with true by lia.
    cbn [orb]. f_equal. lia.
  - change 15 with (Z.ones 4). apply field_eq; try lia.
    intros n Hn. rewrite Hbit by lia.
    replace (n + 11 <? 31) with true by lia.
    replace (n + 11 <? 15) with true by lia.
    replace (n + 11 <? 11) with false by lia.
    replace (n + 11 <? 8) with false by lia.
    rewrite Ht', Hl' by lia. rewrite !orb_false_r. cbn [orb]. f_equal. lia.
  - change 65535 with (Z.ones 16). apply field_eq; try lia.
    + change (2 ^ 16) with 65536. apply Z.mod_pos_bound. lia.
    + intros n Hn. rewrite Hbit by lia.
      replace (n + 15 <? 31) with true by lia.
      replace (n + 15 <? 15) with false by lia.
      replace (n + 15 <? 11) with false by lia.
      replace (n + 15 <? 8) with false by lia.
      rewrite Hk', Ht', Hl' by lia. rewrite !orb_false_r. cbn [orb].
      replace (n + 15 - 15) with n by lia.
      change 65536 with (2 ^ 16). rewrite Z.mod_pow2_bits_low by lia. reflexivity.
  - rewrite shr31_zero, Hbit by lia.
    change (31 <? 31) with false. change (31 <? 15) with false.
    change (31 <? 11) with false. change (31 <? 8) with false. cbv iota.
    rewrite Hk', Ht', Hl' by lia. rewrite !orb_false_r. reflexivity.
Qed.

(** X7.  The token [NewRtfTk] builds from a type, a length, an optional
    value in -32768..32767 and an optional skip amount in 2..17 has that
    type, that length and the skip amount less 2 in its fields.  The
    value that [RtfTkVal] reads back from it is not the value given: it
    is 32768 less, or 32768 more for a negative value, since the
    constructor stores the value without the offset that the accessor
    subtracts. *)
Theorem NewRtfTk_fields (typ len : Z) (val skp : option Z) :
  0 <= typ < 8 -> 0 <= len < 256 ->
  (forall v, val = Some v -> -32768 <= v <= 32767) ->
  (forall k, skp = Some k -> 2 <= k <= 17) ->
  exists t, NewRtfTk (Some typ) (Some len) val skp = inr t /\
    RtfTkTyp t = typ /\ RtfTkLen t = len /\
    JS.band (JS.shr t 11) 15 = match skp with Some k => k - 2 | None => 0 end /\
    RtfTkVal t = match val with
                 | Some v => Some (if v <? 0 then v + 32768 else v - 32768)
                 | None => None
                 end.
Proof.
  intros Htyp Hlen Hval Hskp. unfold NewRtfTk.
  destruct val as [v|]; destruct skp as [k|].
  - specialize (Hval v eq_refl). specialize (Hskp k eq_refl).
    replace ((v <? -32768) || (v >? 32767)) with false by lia.
    replace ((k <? 2) || (k >? 17)) with false by lia.
    eexists; split; [reflexivity|].
    destruct (token_fields 1 v (k - 2) typ len ltac:(lia) ltac:(lia) Htyp Hlen)
      as (T & L & K & V & B).
    split; [exact T|]. split; [exact L|]. split; [exact K|].
    unfold RtfTkVal. rewrite B, V. cbn [Z.testbit orb negb]. f_equal.
    destruct (v <? 0) eqn:E.
    + rewrite <- (Z_mod_plus_full v 1 65536), Z.mod_small by lia. lia.
    + rewrite Z.mod_small by lia. lia.
  - specialize (Hval v eq_refl).
    replace ((v <? -32768) || (v >? 32767)) with false by lia.
    eexists; split; [reflexivity|].
    destruct (token_fields 1 v 0 typ len ltac:(lia) ltac:(lia) Htyp Hlen)
      as (T & L & K & V & B).
    split; [exact T|]. split; [exact L|]. split; [exact K|].
    unfold RtfTkVal. rewrite B, V. cbn [Z.testbit orb negb]. f_equal.
    destruct (v <? 0) eqn:E.
    + rewrite <- (Z_mod_plus_full v 1 65536), Z.mod_small by lia. lia.
    + rewrite Z.mod_small by lia. lia.
  - specialize (Hskp k eq_refl).
    replace ((k <? 2) || (k >? 17)) with false by lia.
    eexists; split; [reflexivity|].
    destruct (token_fields 0 0 (k - 2) typ len ltac:(lia) ltac:(lia) Htyp Hlen)
      as (T & L & K & V & B).
    split; [exact T|]. split; [exact L|]. split; [exact K|].
    unfold RtfTkVal. rewrite B. reflexivity.
  - eexists; split; [reflexivity|].
    destruct (token_fields 0 0 0 typ len ltac:(lia) ltac:(lia) Htyp Hlen)
      as (T & L & K & V & B).
    split; [exact T|]. split; [exact L|]. split; [exact K|].
    unfold RtfTkVal. rewrite B. reflexivity.
Qed.

Lemma NewRtfTk_fields_witness :
  exists t, NewRtfTk (Some CONTROL) (Some 5) (Some 24) (Some 3) = inr t /\
    RtfTkTyp t = CONTROL /\ RtfTkLen t = 5 /\
    JS.band (JS.shr t 11) 15 = 1 /\ RtfTkVal t = Some (-32744).
Proof.
  apply (NewRtfTk_fields CONTROL 5 (Some 24) (Some 3)).
  - unfold CONTROL. lia.
  - lia.
  - intros v [= <-]. lia.
  - intros k [= <-]. lia.
Defined.

(** X8.  For a control word of 1 to 16 letters without a parameter the
    tokenizer answers the very token that [NewRtfTk] builds for the kind
    [ControlWord], the length of the token, no value, and the number of
    letters plus 1 as the skip amount. *)
Theorem control_word_token_is_constructed (s : string) (i : nat) (name tail : string) :
  JS.drop i s = String "\" (name ++ tail) ->
  lowers name = true -> (1 <= String.length name <= 16)%nat ->
  JS.ge (JS.charCodeAt tail 0) 97 && JS.le (JS.charCodeAt tail 0) 122 = false ->
  JS.eq (JS.charCodeAt tail 0) 45
  || (JS.ge (JS.charCodeAt tail 0) 48 && JS.le (JS.charCodeAt tail 0) 57) = false ->
  let n := Z.of_nat (String.length name) in
  NewRtfTk (Some CONTROL)
           (Some (if JS.eq (JS.charCodeAt tail 0) 32 then n + 2 else n + 1))
           None (Some (n + 1))
  = inr (GetRtfTk s i).
Proof.
  intros Hdrop Hlow Hn Hnl Hnd. cbv zeta.
  rewrite (GetRtfTk_plain s i name tail Hdrop Hlow ltac:(lia) Hnl Hnd). cbv zeta.
  unfold NewRtfTk, CONTROL.
  replace ((Z.of_nat (String.length name) + 1 <? 2)
           || (Z.of_nat (String.length name) + 1 >? 17)) with false by lia.
  change (JS.shl 6 8) with 1536.
  change (JS.bor (JS.shl 0 31) (JS.shl 0 15)) with 0.
  replace (JS.bor 0 (JS.shl (Z.of_nat (String.length name) + 1 - 2) 11))
    with (JS.shl (Z.of_nat (String.length name) - 1) 11)
    by (unfold JS.bor; change (JS.toInt32 0) with 0; rewrite Z.lor_0_l, shl_int32;
        f_equal; lia).
  reflexivity.
Qed.

Lemma control_word_token_is_constructed_witness :
  NewRtfTk (Some CONTROL) (Some 6) None (Some 5) = inr (GetRtfTk "{\pard \b}" 1).
Proof.
  apply (control_word_token_is_constructed "{\pard \b}" 1 "pard" " \b}");
    [reflexivity | reflexivity | cbn; lia | reflexivity | reflexivity].
Defined.

(** ** The length of a token and the text that is left *)

Lemma RtfTkLen_bor (a c : Z) :
  (forall n, 0 <= n < 8 -> Z.testbit a n = false) ->
  RtfTkLen (JS.bor a c) = RtfTkLen c.
Proof.
  intros Ha. unfold RtfTkLen, JS.band.
  apply Z.bits_inj'. intros n Hn. rewrite !Z.land_spec.
  destruct (Z_lt_dec n 8) as [Hlt | Hge].
  - rewrite bor_testbit, (testbit_toInt32 c), Ha by lia. reflexivity.
  - change (JS.toInt32 255) with (Z.ones 8).
    rewrite Z.ones_spec_high by lia. rewrite !andb_false_r. reflexivity.
Qed.

Lemma RtfTkLen_small (len : Z) : 0 <= len < 256 -> RtfTkLen len = len.
Proof.
  intros Hlen. unfold RtfTkLen, JS.band. change (JS.toInt32 255) with (Z.ones 8).
  rewrite toInt32_id, Z.land_ones, Z.mod_small by lia. reflexivity.
Qed.

Lemma control_low_bits (x k n : Z) :
  (forall m, 0 <= m < 8 -> Z.testbit x m = false) ->
  0 <= n < 8 -> Z.testbit (JS.bor (JS.bor x (JS.shl k 11)) 1536) n = false.
Proof.
  intros Hx Hn. rewrite !bor_bit, bits_1536, Hx, shl_bit_low by lia.
  replace (n =? 9) with false by lia. replace (n =? 10) with false by lia. reflexivity.
Qed.

Lemma RtfTkLen_plain (k len : Z) :
  0 <= len < 256 -> RtfTkLen (JS.bor (JS.bor (JS.shl k 11) 1536) len) = len.
Proof.
  intros Hlen. rewrite RtfTkLen_bor; [apply RtfTkLen_small; lia|].
  intros n Hn. rewrite bor_bit, bits_1536, shl_bit_low by lia.
  replace (n =? 9) with false by lia. replace (n =? 10) with false by lia. reflexivity.
Qed.

Lemma RtfTkLen_valued (v k len : Z) :
  0 <= len < 256 ->
  RtfTkLen (JS.bor (JS.bor (JS.bor (JS.bor (JS.shl 1 31) (JS.shl v 15)) (JS.shl k 11)) 1536) len)
  = len.
Proof.
  intros Hlen. rewrite RtfTkLen_bor; [apply RtfTkLen_small; lia|].
  intros n Hn. apply control_low_bits; [|exact Hn].
  intros m Hm. rewrite bor_bit, !shl_bit_low by lia. reflexivity.
Qed.

Lemma RtfTkLen_symbol (x : Z) :
  RtfTkLen (JS.bor (JS.bor (JS.shl 1 31) (JS.shl x 15)) 1282) = 2.
Proof.
  rewrite RtfTkLen_bor; [reflexivity|].
  intros n Hn. rewrite bor_bit, !shl_bit_low by lia. reflexivity.
Qed.

Lemma scan_letters_bound (rest : string) (i : nat) (len : Z) :
  let r := scan_letters rest i len in
  snd r - len = Z.of_nat (fst r) - Z.of_nat i /\
  (i <= fst r <= i + String.length rest)%nat.
Proof.
  cbv zeta. revert i len; induction rest as [|a rest IH]; intros i len;
    cbn [scan_letters String.length]; [cbn [fst snd]; lia|].
  cbv zeta. destruct (_ && _); [|cbn [fst snd]; lia].
  specialize (IH (S i) (len + 1)). lia.
Qed.

Lemma scan_value_bound (rest : string) (i : nat) (len : Z) :
  len <= snd (scan_value rest i len) <= len + Z.of_nat (String.length rest) + 1.
Proof.
  revert i len; induction rest as [|a rest IH]; intros i len;
    cbn [scan_value String.length]; [cbn [snd]; lia|].
  cbv zeta. destruct (_ && _).
  - cbn [snd]. destruct (JS.code a =? 32); lia.
  - specialize (IH (S i) (len + 1)). lia.
Qed.

Lemma data_run_length (rest : string) : (data_run rest <= String.length rest)%nat.
Proof.
  induction rest as [|a rest IH]; cbn [data_run String.length]; [lia|].
  cbv zeta. destruct (_ || _); lia.
Qed.

Lemma crlf_run_length (rest : string) : (crlf_run rest <= String.length rest)%nat.
Proof.
  induction rest as [|a rest IH]; cbn [crlf_run String.length]; [lia|].
  destruct (_ || _); lia.
Qed.

Ltac len_done := split; [lia | intros ?; try discriminate; lia].

Lemma GetRtfTk_length (s : string) (i : nat) :
  (i < String.length s)%nat -> (String.length s - i <= 255)%nat ->
  1 <= RtfTkLen (GetRtfTk s i) <= Z.of_nat (String.length s - i) + 1 /\
  (JS.eq (JS.charCodeAt s i) 92 = false ->
   RtfTkLen (GetRtfTk s i) <= Z.of_nat (String.length s - i)).
Proof.
  intros Hi Hrem.
  pose proof (drop_length s (S i)) as Hdl.
  unfold GetRtfTk.
  destruct (JS.eq (JS.charCodeAt s i) 123); [change (RtfTkLen 513) with 1; len_done|].
  destruct (JS.eq (JS.charCodeAt s i) 125); [change (RtfTkLen 769) with 1; len_done|].
  destruct (JS.eq (JS.charCodeAt s i) 92).
  - pose proof (scan_letters_bound (JS.drop (S i) s) (S i) 1) as Hsl. cbv zeta in Hsl.
    destruct (scan_letters (JS.drop (S i) s) (S i) 1) as [i' len]. cbn [fst snd] in Hsl.
    destruct (len =? 1) eqn:Elen.
    + assert (Hi' : i' = S i) by lia. subst i'.
      destruct (JS.eq (JS.charCodeAt s (S i)) 42) eqn:E42.
      { apply eq_Some, charCodeAt_length in E42. change (RtfTkLen 1026) with 2. len_done. }
      destruct (JS.eq (JS.charCodeAt s (S i)) 39) eqn:E39.
      { apply eq_Some, charCodeAt_length in E39.
        destruct (Z.of_nat (S i) + 2 >? Z.of_nat (String.length s)) eqn:Egt.
        - rewrite Z.gtb_ltb in Egt. apply Z.ltb_lt in Egt.
          replace (Z.of_nat (String.length s) - Z.of_nat (S i) + 2) with 3 by lia.
          change (RtfTkLen 3) with 3. len_done.
        - rewrite Z.gtb_ltb in Egt. apply Z.ltb_ge in Egt.
          destruct (hexdigit (JS.charCodeAt s (S i + 1))) as [d1|] eqn:H1;
            [|change (RtfTkLen 4) with 4; len_done].
          destruct (hexdigit (JS.charCodeAt s (S i + 2))) as [d2|] eqn:H2;
            [|change (RtfTkLen 4) with 4; len_done].
          destruct (character_fields d1 d2) as (_ & L & _);
            [eapply hexdigit_range; eassumption .. |].
          rewrite L. len_done. }
      rewrite invalid_test_never, RtfTkLen_symbol. len_done.
    + assert (Hlen : 2 <= len) by lia.
      destruct (JS.eq (JS.charCodeAt s i') 45
                || JS.ge (JS.charCodeAt s i') 48 && JS.le (JS.charCodeAt s i') 57) eqn:Enum.
      * assert (Hc : (i' < String.length s)%nat).
        { destruct (JS.charCodeAt s i') as [c|] eqn:Ec;
            [eapply charCodeAt_length; eassumption | discriminate]. }
        pose proof (scan_value_bound (JS.drop (S i') s) (S i') len) as Hsv.
        pose proof (drop_length s (S i')) as Hdl'.
        destruct (scan_value (JS.drop (S i') s) (S i') len) as [i'' len']. cbn [snd] in Hsv.
        rewrite RtfTkLen_valued by lia. len_done.
      * destruct (JS.eq (JS.charCodeAt s i') 32) eqn:E32.
        { apply eq_Some, charCodeAt_length in E32. rewrite RtfTkLen_plain by lia. len_done. }
        rewrite RtfTkLen_plain by lia. len_done.
  - destruct (JS.eq (JS.charCodeAt s i) 10 || JS.eq (JS.charCodeAt s i) 13).
    + rewrite scan_crlf_run by lia.
      pose proof (crlf_run_length (JS.drop (S i) s)) as Hr.
      destruct (crlf_fields (Z.min (1 + Z.of_nat (crlf_run (JS.drop (S i) s))) 255)
                  ltac:(lia)) as (_ & L & _).
      rewrite L. len_done.
    + rewrite scan_data_run by lia.
      pose proof (data_run_length (JS.drop (S i) s)) as Hr.
      destruct (data_fields (Z.min (1 + Z.of_nat (data_run (JS.drop (S i) s))) 255)
                  ltac:(lia)) as (_ & L & _).
      rewrite L. len_done.
Qed.

(** X9.  While at most 255 characters are left from an index inside the
    source, the length of the token there is at least 1 and at most one
    more than the number of characters left; only the token of a
    backslash can be longer than the text that is left. *)
Theorem token_length_bound (s : string) (i : nat) :
  (i < String.length s)%nat -> (String.length s - i <= 255)%nat ->
  1 <= RtfTkLen (GetRtfTk s i) <= Z.of_nat (String.length s - i) + 1 /\
  (JS.charCodeAt s i <> Some 92 ->
   RtfTkLen (GetRtfTk s i) <= Z.of_nat (String.length s - i)).
Proof.
  intros Hi Hrem. destruct (GetRtfTk_length s i Hi Hrem) as [Hb Hnb].
  split; [exact Hb|]. intros Hc. apply Hnb.
  destruct (JS.charCodeAt s i) as [c|]; [|reflexivity].
  cbn [JS.eq]. apply Z.eqb_neq. intros ->. apply Hc. reflexivity.
Qed.

Lemma token_length_bound_witness :
  1 <= RtfTkLen (GetRtfTk "{\b bold text}" 4) <= Z.of_nat (String.length "{\b bold text}" - 4) + 1 /\
  (JS.charCodeAt "{\b bold text}" 4 <> Some 92 ->
   RtfTkLen (GetRtfTk "{\b bold text}" 4) <= Z.of_nat (String.length "{\b bold text}" - 4)).
Proof. apply (token_length_bound "{\b bold text}" 4); cbn; lia. Defined.

(** ** Scanning a short source *)

Lemma scan_short (s : string) (fuel pos : nat) :
  (String.length s - pos < fuel)%nat -> (String.length s - pos <= 255)%nat ->
  (pos <= String.length s + 1)%nat ->
  exists tks p, scan fuel s pos = Some (tks, p) /\
    (String.length s <= p <= String.length s + 1)%nat /\ (pos <= p)%nat /\
    sum_len tks = Z.of_nat p - Z.of_nat pos /\ lexes s pos tks p.
Proof.
  revert pos; induction fuel as [|fuel IH]; intros pos Hfuel Hrem Hpos; [lia|].
  cbn [scan]. destruct (pos <? String.length s)%nat eqn:Hin.
  - apply Nat.ltb_lt in Hin.
    destruct (GetRtfTk_length s pos Hin Hrem) as [Hlen _].
    destruct (IH (pos + Z.to_nat (RtfTkLen (GetRtfTk s pos)))%nat)
      as (tks & p & Hscan & Hp & Hle & Hsum & Hlex); try lia.
    rewrite Hscan. exists (GetRtfTk s pos :: tks), p.
    split; [reflexivity|]. split; [exact Hp|]. split; [lia|].
    split; [cbn [sum_len fold_right]; fold (sum_len tks); lia|].
    econstructor; [exact Hin | reflexivity | exact Hlex].
  - apply Nat.ltb_ge in Hin. exists [], pos.
    split; [reflexivity|]. split; [lia|]. split; [lia|].
    split; [cbn; lia | constructor].
Qed.

(** X10.  A source of at most 255 characters is always scanned to its
    end: tokenizing from the start and advancing by the length of each
    token ends after at most as many tokens as there are characters, with
    the cursor at the end of the source or one past it, and the lengths
    of the tokens add up to the final cursor. *)
Theorem scan_short_source (s : string) :
  (String.length s <= 255)%nat ->
  exists tks p, scan (S (String.length s)) s 0 = Some (tks, p) /\
    (String.length s <= p <= String.length s + 1)%nat /\
    sum_len tks = Z.of_nat p /\ lexes s 0 tks p.
Proof.
  intros Hlen.
  destruct (scan_short s (S (String.length s)) 0) as (tks & p & Hs & Hp & _ & Hsum & Hlex);
    try lia.
  exists tks, p. repeat split; try assumption; lia.
Qed.

Lemma scan_short_source_witness :
  exists tks p, scan 15 "{\b bold text}" 0 = Some (tks, p) /\
    (14 <= p <= 15)%nat /\ sum_len tks = Z.of_nat p /\ lexes "{\b bold text}" 0 tks p.
Proof. apply (scan_short_source "{\b bold text}"). cbn. lia. Defined.

Lemma RtfSkipB_short (s : string) (fuel ps : nat) (bc : Z) :
  (String.length s - ps < fuel)%nat -> (String.length s - ps <= 255)%nat ->
  (ps <= String.length s + 1)%nat ->
  exists p, RtfSkipB_loop fuel s ps bc = Some p /\ (ps <= p <= String.length s + 1)%nat /\
    ((ps < String.length s)%nat -> (ps < p)%nat).
Proof.
  revert ps bc; induction fuel as [|fuel IH]; intros ps bc Hfuel Hrem Hps; [lia|].
  destruct (ps <? String.length s)%nat eqn:Hin.
  - apply Nat.ltb_lt in Hin.
    destruct (GetRtfTk_length s ps Hin Hrem) as [Hlen _].
    rewrite RtfSkipB_loop_step by exact Hin. cbv zeta.
    assert (Hnext : forall bc', exists p,
               RtfSkipB_loop fuel s (ps + Z.to_nat (RtfTkLen (GetRtfTk s ps))) bc' = Some p /\
               (ps <= p <= String.length s + 1)%nat /\ ((ps < String.length s)%nat -> (ps < p)%nat)).
    { intros bc'.
      destruct (IH (ps + Z.to_nat (RtfTkLen (GetRtfTk s ps)))%nat bc')
        as (p & Hgo & Hp & _); try lia.
      exists p. split; [exact Hgo|]. lia. }
    destruct (RtfTkTyp (GetRtfTk s ps) =? 2); [apply Hnext|].
    destruct (RtfTkTyp (GetRtfTk s ps) =? 3); [|apply Hnext].
    destruct (bc =? 0); [|apply Hnext].
    eexists. split; [reflexivity|]. lia.
  - apply Nat.ltb_ge in Hin. cbn [RtfSkipB_loop].
    replace (ps <? String.length s)%nat with false by (symmetry; apply Nat.ltb_ge; lia).
    exists ps. split; [reflexivity|]. lia.
Qed.

(** X11.  On a source of at most 255 characters the block skipper always
    answers, whatever the brace count it is given: from an index inside
    the source it answers an offset after that index and at most one past
    the end of the source. *)
Theorem RtfSkipB_short_source (s : string) (i : nat) (bc : option Z) :
  (String.length s <= 255)%nat -> (i < String.length s)%nat ->
  exists p, RtfSkipB (S (String.length s)) s i bc = Some p /\
    (i < p <= String.length s + 1)%nat.
Proof.
  intros Hlen Hi. unfold RtfSkipB.
  destruct (RtfSkipB_short s (S (String.length s)) i (match bc with Some b => b | None => 0 end))
    as (p & Hgo & Hp & Hlt); try lia.
  exists p. split; [exact Hgo|]. specialize (Hlt Hi). lia.
Qed.

Lemma RtfSkipB_short_source_witness :
  exists p, RtfSkipB 15 "{\b bold text}" 1 (Some 2) = Some p /\ (1 < p <= 15)%nat.
Proof. apply (RtfSkipB_short_source "{\b bold text}" 1 (Some 2)); cbn; lia. Defined.

(** ** The block skipper with a brace count *)

Lemma RtfSkipB_loop_leaves (s : string) (k : nat) (tks : list Z) :
  leaves k tks ->
  forall (i p fuel : nat),
    lexes s i tks p ->
    RtfTkTyp (GetRtfTk s p) = POP ->
    (length tks < fuel)%nat ->
    RtfSkipB_loop fuel s i (Z.of_nat k) = Some (p + 1)%nat.
Proof.
  induction 1 as [tks Hbal | k inner t ts Hin Hpop Hts IH]; intros i p fuel Hlex Hclose Hfuel.
  - eapply RtfSkipB_loop_matching_close; eassumption.
  - destruct (lexes_app_inv _ _ _ _ _ Hlex) as (q & Hinner & Hrest).
    inversion Hrest as [|q' tk tks' p' Hlt Htk Hrest']; subst.
    rewrite length_app in Hfuel. cbn [length] in Hfuel.
    replace fuel with (length inner + S (fuel - length inner - 1))%nat by lia.
    rewrite (RtfSkipB_loop_balanced s inner Hin i q) by (assumption || lia).
    rewrite RtfSkipB_loop_step by exact Hlt. cbv zeta.
    unfold POP in Hpop. rewrite Hpop.
    change (3 =? 2) with false. change (3 =? 3) with true. cbv iota.
    replace (Z.of_nat (S k) =? 0) with false by (symmetry; apply Z.eqb_neq; lia).
    replace (Z.of_nat (S k) - 1) with (Z.of_nat k) by lia.
    apply IH; [exact Hrest' | exact Hclose | lia].
Qed.

(** X12.  Given the brace count [k], the block skipper leaves [k] more
    groups than without it: when the tokens from the starting offset up
    to offset [p] close [k] groups that were open before them and are
    balanced otherwise, and the token at [p] is a [GroupClose], the
    skipper answers [p + 1], the offset past that close brace. *)
Theorem RtfSkipB_brace_count (s : string) (i p k : nat) (tks : list Z) (fuel : nat) :
  lexes s i tks p ->
  leaves k tks ->
  RtfTkTyp (GetRtfTk s p) = POP ->
  (length tks < fuel)%nat ->
  JS.charCodeAt s p = Some 125 /\
  RtfSkipB fuel s i (Some (Z.of_nat k)) = Some (p + 1)%nat.
Proof.
  intros Hlex Hlv Hclose Hfuel.
  split; [apply GetRtfTk_pop; exact Hclose|].
  unfold RtfSkipB. eapply RtfSkipB_loop_leaves; eassumption.
Qed.

Lemma RtfSkipB_brace_count_witness :
  JS.charCodeAt "a{b}c}d}e" 7 = Some 125 /\
  RtfSkipB 10 "a{b}c}d}e" 0 (Some 1) = Some 8%nat.
Proof.
  pose (s := "a{b}c}d}e"%string).
  apply (RtfSkipB_brace_count s 0 7 1
           [GetRtfTk s 0; GetRtfTk s 1; GetRtfTk s 2; GetRtfTk s 3; GetRtfTk s 4;
            GetRtfTk s 5; GetRtfTk s 6] 10).
  - repeat (eapply lexes_cons; [vm_compute; lia | reflexivity | ]). apply lexes_nil.
  - apply (leaves_S 0 [GetRtfTk s 0; GetRtfTk s 1; GetRtfTk s 2; GetRtfTk s 3; GetRtfTk s 4]
             (GetRtfTk s 5) [GetRtfTk s 6]); [| reflexivity |].
    + apply balanced_plain; [vm_compute; discriminate .. |].
      apply (balanced_group (GetRtfTk s 1) [GetRtfTk s 2] (GetRtfTk s 3) [GetRtfTk s 4]);
        [reflexivity | | reflexivity |];
        (apply balanced_plain; [vm_compute; discriminate .. | apply balanced_nil]).
    + apply leaves_O. apply balanced_plain; [vm_compute; discriminate .. | apply balanced_nil].
  - vm_compute; reflexivity.
  - vm_compute; lia.
Defined.

(** ** A block that is not closed *)

Lemma RtfSkipB_loop_open (s : string) (fuel ps : nat) (bc : Z) (p : nat) :
  (forall j, (ps <= j)%nat -> JS.charCodeAt s j <> Some 125) ->
  RtfSkipB_loop fuel s ps bc = Some p -> (String.length s <= p)%nat.
Proof.
  revert ps bc; induction fuel as [|fuel IH]; intros ps bc Hno Hgo; [discriminate|].
  destruct (ps <? String.length s)%nat eqn:Hin.
  - apply Nat.ltb_lt in Hin.
    rewrite RtfSkipB_loop_step in Hgo by exact Hin. cbv zeta in Hgo.
    assert (Hnext : forall bc', RtfSkipB_loop fuel s (ps + Z.to_nat (RtfTkLen (GetRtfTk s ps))) bc'
                                = Some p -> (String.length s <= p)%nat).
    { intros bc'. apply IH. intros j Hj. apply Hno. lia. }
    destruct (RtfTkTyp (GetRtfTk s ps) =? 2); [eapply Hnext; eassumption|].
    destruct (RtfTkTyp (GetRtfTk s ps) =? 3) eqn:E3; [|eapply Hnext; eassumption].
    exfalso. apply (Hno ps (Nat.le_refl ps)).
    apply GetRtfTk_pop. unfold POP. lia.
  - apply Nat.ltb_ge in Hin. cbn [RtfSkipB_loop] in Hgo.
    replace (ps <? String.length s)%nat with false in Hgo by (symmetry; apply Nat.ltb_ge; lia).
    injection Hgo as <-. exact Hin.
Qed.

(** X13.  A block that is not closed is skipped to the end of the
    source without an error: when no close brace stands at or after the
    starting index of a source of at most 255 characters, the skipper
    answers the length of the source, or one more. *)
Theorem RtfSkipB_unclosed (s : string) (i : nat) (bc : option Z) :
  (String.length s <= 255)%nat -> (i <= String.length s)%nat ->
  (forall j, (i <= j)%nat -> JS.charCodeAt s j <> Some 125) ->
  exists p, RtfSkipB (S (String.length s)) s i bc = Some p /\
    (String.length s <= p <= String.length s + 1)%nat.
Proof.
  intros Hlen Hi Hno. unfold RtfSkipB.
  destruct (RtfSkipB_short s (S (String.length s)) i (match bc with Some b => b | None => 0 end))
    as (p & Hgo & Hp & _); try lia.
  exists p. split; [exact Hgo|].
  pose proof (RtfSkipB_loop_open _ _ _ _ _ Hno Hgo). lia.
Qed.

Lemma RtfSkipB_unclosed_witness :
  exists p, RtfSkipB 9 "{\b text" 1 None = Some p /\ (8 <= p <= 9)%nat.
Proof.
  apply (RtfSkipB_unclosed "{\b text" 1 None); [cbn; lia | cbn; lia |].
  intros j _. do 8 (destruct j as [|j]; [vm_compute; discriminate|]).
  vm_compute. discriminate.
Defined.

(** ** The numbers of a package *)

Lemma shl_bit (x k n : Z) :
  0 <= k -> 0 <= n < 32 -> Z.testbit (JS.shl x k) n = Z.testbit x (n - k).
Proof.
  intros Hk Hn. destruct (Z_lt_dec n k) as [Hlt | Hge].
  - rewrite shl_bit_low, Z.testbit_neg_r by lia. reflexivity.
  - apply shl_bit_high; lia.
Qed.

Lemma int32_ext (a b : Z) :
  (forall n, 0 <= n < 32 -> Z.testbit a n = Z.testbit b n) -> JS.toInt32 a = JS.toInt32 b.
Proof.
  intros H. apply toInt32_eq. change 4294967296 with (2 ^ 32).
  apply Z.bits_inj'. intros n Hn. destruct (Z_lt_dec n 32) as [Hlt | Hge].
  - rewrite !Z.mod_pow2_bits_low by lia. apply H. lia.
  - rewrite !Z.mod_pow2_bits_high by lia. reflexivity.
Qed.

Lemma nib_bit (l : list Z) :
  Forall (fun h => 0 <= h < 16) l ->
  forall m, 0 <= m ->
  Z.testbit (Pkg.nib l) m = Z.testbit (nth (Z.to_nat (m / 4)) l 0) (m mod 4).
Proof.
  induction 1 as [|h l Hh Hl IH]; intros m Hm; cbn [Pkg.nib].
  - rewrite Z.testbit_0_l. destruct (Z.to_nat (m / 4)); cbn [nth]; rewrite Z.testbit_0_l;
      reflexivity.
  - destruct (Z_lt_dec m 4) as [Hlt | Hge].
    + replace (m / 4) with 0 by (symmetry; apply Z.div_small; lia).
      rewrite Z.mod_small by lia. change (Z.to_nat 0) with 0%nat. cbn [nth].
      rewrite <- (Z.mod_pow2_bits_low (h + 16 * Pkg.nib l) 4 m) by lia.
      change (2 ^ 4) with 16. f_equal.
      symmetry. apply Z.mod_unique with (Pkg.nib l); lia.
    + replace m with ((m - 4) + 4) at 1 by lia.
      rewrite <- (Z.div_pow2_bits (h + 16 * Pkg.nib l) 4 (m - 4)) by lia.
      change (2 ^ 4) with 16.
      replace ((h + 16 * Pkg.nib l) / 16) with (Pkg.nib l)
        by (apply Z.div_unique with h; lia).
      rewrite IH by lia.
      replace (m / 4) with ((m - 4) / 4 + 1)
        by (replace m with (m - 4 + 1 * 4) at 2 by lia; rewrite Z.div_add by lia; reflexivity).
      replace (m mod 4) with ((m - 4) mod 4)
        by (replace m with (m - 4 + 1 * 4) at 2 by lia; rewrite Z.mod_add by lia; reflexivity).
      pose proof (Z.div_pos (m - 4) 4 ltac:(lia) ltac:(lia)).
      rewrite Z2Nat.inj_add by lia. rewrite Nat.add_comm. reflexivity.
Qed.

(** Case analysis on a bit position below [k]. *)
Ltac below n k :=
  let k' := eval compute in k in
  lazymatch k' with
  | 0 => exfalso; lia
  | _ => let j := eval compute in (k' - 1) in
         destruct (Z.eq_dec n j) as [-> | ?]; [|below n j]
  end.

(** The bit of a hexadecimal digit at a known position. *)
Ltac bit_norm :=
  repeat match goal with
         | |- context [Z.testbit ?h (?a - ?b)] =>
             let v := eval vm_compute in (a - b) in change (a - b) with v
         | |- context [Z.to_nat (?a / 4)] =>
             let v := eval vm_compute in (Z.to_nat (a / 4)) in change (Z.to_nat (a / 4)) with v
         | |- context [?a mod 4] =>
             let v := eval vm_compute in (a mod 4) in change (a mod 4) with v
         end;
  cbn [nth];
  repeat match goal with
         | |- context [Z.testbit ?h (Z.neg ?p)] => rewrite (Z.testbit_neg_r h (Z.neg p)) by lia
         | |- context [Z.testbit 0 ?n] => rewrite (Z.testbit_0_l n)
         | H : 0 <= ?h < 16 |- context [Z.testbit ?h ?n] =>
             lazymatch n with
             | 0 => fail | 1 => fail | 2 => fail | 3 => fail
             | _ => rewrite (small_bits h 4 n) by (change (2 ^ 4) with 16; lia)
             end
         end;
  rewrite ?orb_false_r; cbn [orb]; try reflexivity.

Lemma le2_value (h1 h2 h3 h4 : Z) :
  0 <= h1 < 16 -> 0 <= h2 < 16 -> 0 <= h3 < 16 -> 0 <= h4 < 16 ->
  JS.bor (JS.bor (JS.bor (JS.shl h1 4) h2) (JS.shl h3 12)) (JS.shl h4 8)
  = Pkg.nib [h2; h1; h4; h3].
Proof.
  intros H1 H2 H3 H4.
  rewrite <- bor_int32. rewrite <- (toInt32_id (Pkg.nib [h2; h1; h4; h3])) by (cbn; lia).
  apply int32_ext. intros n Hn.
  rewrite !bor_bit, !shl_bit by lia.
  rewrite nib_bit by (repeat constructor; lia || assumption).
  below n 32; bit_norm.
Qed.

Lemma le4_value (h1 h2 h3 h4 h5 h6 h7 h8 : Z) :
  0 <= h1 < 16 -> 0 <= h2 < 16 -> 0 <= h3 < 16 -> 0 <= h4 < 16 ->
  0 <= h5 < 16 -> 0 <= h6 < 16 -> 0 <= h7 < 16 -> 0 <= h8 < 16 ->
  JS.bor (JS.bor (JS.bor (JS.bor (JS.bor (JS.bor (JS.bor
    (JS.shl h1 4) h2) (JS.shl h3 12)) (JS.shl h4 8))
    (JS.shl h5 20)) (JS.shl h6 16)) (JS.shl h7 28)) (JS.shl h8 24)
  = JS.toInt32 (Pkg.nib [h2; h1; h4; h3; h6; h5; h8; h7]).
Proof.
  intros H1 H2 H3 H4 H5 H6 H7 H8.
  rewrite <- bor_int32. apply int32_ext. intros n Hn.
  rewrite !bor_bit, !shl_bit by lia.
  rewrite nib_bit by (repeat constructor; lia || assumption).
  below n 32; bit_norm.
Qed.

Lemma be4_value (h1 h2 h3 h4 h5 h6 h7 h8 : Z) :
  0 <= h1 < 16 -> 0 <= h2 < 16 -> 0 <= h3 < 16 -> 0 <= h4 < 16 ->
  0 <= h5 < 16 -> 0 <= h6 < 16 -> 0 <= h7 < 16 -> 0 <= h8 < 16 ->
  JS.bor (JS.bor (JS.bor (JS.bor (JS.bor (JS.bor (JS.bor
    (JS.shl h1 28) (JS.shl h2 24)) (JS.shl h3 20)) (JS.shl h4 16))
    (JS.shl h5 12)) (JS.shl h6 8)) (JS.shl h7 4)) h8
  = JS.toInt32 (Pkg.nib [h8; h7; h6; h5; h4; h3; h2; h1]).
Proof.
  intros H1 H2 H3 H4 H5 H6 H7 H8.
  rewrite <- bor_int32. apply int32_ext. intros n Hn.
  rewrite !bor_bit, !shl_bit by lia.
  rewrite nib_bit by (repeat constructor; lia || assumption).
  below n 32; bit_norm.
Qed.

Lemma byte_nibbles (b : Z) :
  0 <= b < 256 -> 0 <= b / 16 < 16 /\ 0 <= b mod 16 < 16 /\ b = 16 * (b / 16) + b mod 16.
Proof.
  intros Hb. pose proof (Z.div_mod b 16 ltac:(lia)) as Hdm.
  pose proof (Z.mod_pos_bound b 16 ltac:(lia)). lia.
Qed.

Lemma bind_ok {A B : Type} (m : Pkg.Dec A) (k : A -> Pkg.Dec B) (i : nat) (a : A) (j : nat) :
  m i = Pkg.Ok a j -> (m ≫= k) i = k a j.
Proof.
  intros H. unfold mbind, Pkg.dec_bind, Pkg.bind. rewrite H. reflexivity.
Qed.

Lemma string_app_assoc (a b c : string) : ((a ++ b) ++ c)%string = (a ++ (b ++ c))%string.
Proof.
  induction a as [|x a IH]; [reflexivity|].
  rewrite !append_cons, IH. reflexivity.
Qed.

Lemma hex_app (l1 l2 : list Z) : Pkg.hex (l1 ++ l2) = (Pkg.hex l1 ++ Pkg.hex l2)%string.
Proof.
  induction l1 as [|b l1 IH]; cbn [app Pkg.hex]; [reflexivity|].
  rewrite IH, string_app_assoc. reflexivity.
Qed.

Section Hex.
Variable txt : string.
Variable end_ : nat.

(** [hx_] on a hexadecimal digit. *)
Lemma hx_hexchar (i : nat) (n : Z) (rest : string) :
  0 <= n < 16 ->
  JS.drop i txt = String (Pkg.hexchar n) rest ->
  Pkg.hx_ txt end_ i = Pkg.Ok n (S i) /\ JS.drop (S i) txt = rest.
Proof.
  intros Hn Hd. split; [|eapply drop_cons_inv; exact Hd].
  unfold Pkg.hx_. rewrite Hd. below n 16; reflexivity.
Qed.

Ltac read_digit :=
  lazymatch goal with
  | Hd : JS.drop ?i txt = String (Pkg.hexchar ?n) ?r |- _ =>
      let Hx := fresh "Hx" in let Hd' := fresh "Hd" in
      destruct (hx_hexchar i n r ltac:(lia) Hd) as [Hx Hd'];
      rewrite (bind_ok _ _ _ _ _ Hx); cbv beta; clear Hd Hx
  end.

Lemma drop_hex4 (i : nat) (b0 b1 b2 b3 : Z) (rest : string) :
  JS.drop i txt = (Pkg.hex [b0; b1; b2; b3] ++ rest)%string ->
  JS.drop (8 + i) txt = rest.
Proof.
  intros Hd. rewrite Nat.add_comm, <- drop_add, Hd. reflexivity.
Qed.

Lemma le2_hex (i : nat) (b0 b1 : Z) (rest : string) :
  0 <= b0 < 256 -> 0 <= b1 < 256 ->
  JS.drop i txt = (Pkg.hex [b0; b1] ++ rest)%string ->
  Pkg.le2_ txt end_ i = Pkg.Ok (b0 + 256 * b1) (4 + i) /\ JS.drop (4 + i) txt = rest.
Proof.
  intros H0 H1 Hd.
  split; [|rewrite Nat.add_comm, <- drop_add, Hd; reflexivity].
  destruct (byte_nibbles b0 H0) as (A0 & B0 & E0).
  destruct (byte_nibbles b1 H1) as (A1 & B1 & E1).
  cbn [Pkg.hex] in Hd. unfold Pkg.hex2 in Hd.
  repeat (rewrite ?append_cons, ?append_nil in Hd).
  unfold Pkg.le2_. do 4 read_digit.
  rewrite le2_value by assumption. cbn [Pkg.nib].
  unfold mret, Pkg.dec_ret, Pkg.ret. f_equal. lia.
Qed.

Lemma le4_hex (i : nat) (b0 b1 b2 b3 : Z) (rest : string) :
  0 <= b0 < 256 -> 0 <= b1 < 256 -> 0 <= b2 < 256 -> 0 <= b3 < 256 ->
  JS.drop i txt = (Pkg.hex [b0; b1; b2; b3] ++ rest)%string ->
  Pkg.le4_ txt end_ i
  = Pkg.Ok (JS.toInt32 (b0 + 256 * b1 + 65536 * b2 + 16777216 * b3)) (8 + i) /\
  JS.drop (8 + i) txt = rest.
Proof.
  intros H0 H1 H2 H3 Hd. split; [|eapply drop_hex4; exact Hd].
  destruct (byte_nibbles b0 H0) as (A0 & B0 & E0).
  destruct (byte_nibbles b1 H1) as (A1 & B1 & E1).
  destruct (byte_nibbles b2 H2) as (A2 & B2 & E2).
  destruct (byte_nibbles b3 H3) as (A3 & B3 & E3).
  cbn [Pkg.hex] in Hd. unfold Pkg.hex2 in Hd.
  repeat (rewrite ?append_cons, ?append_nil in Hd).
  unfold Pkg.le4_. do 8 read_digit.
  rewrite le4_value by assumption. cbn [Pkg.nib].
  unfold mret, Pkg.dec_ret, Pkg.ret. f_equal. f_equal. lia.
Qed.

Lemma be4_hex (i : nat) (b0 b1 b2 b3 : Z) (rest : string) :
  0 <= b0 < 256 -> 0 <= b1 < 256 -> 0 <= b2 < 256 -> 0 <= b3 < 256 ->
  JS.drop i txt = (Pkg.hex [b0; b1; b2; b3] ++ rest)%string ->
  Pkg.be4_ txt end_ i
  = Pkg.Ok (JS.toInt32 (16777216 * b0 + 65536 * b1 + 256 * b2 + b3)) (8 + i) /\
  JS.drop (8 + i) txt = rest.
Proof.
  intros H0 H1 H2 H3 Hd. split; [|eapply drop_hex4; exact Hd].
  destruct (byte_nibbles b0 H0) as (A0 & B0 & E0).
  destruct (byte_nibbles b1 H1) as (A1 & B1 & E1).
  destruct (byte_nibbles b2 H2) as (A2 & B2 & E2).
  destruct (byte_nibbles b3 H3) as (A3 & B3 & E3).
  cbn [Pkg.hex] in Hd. unfold Pkg.hex2 in Hd.
  repeat (rewrite ?append_cons, ?append_nil in Hd).
  unfold Pkg.be4_. do 8 read_digit.
  rewrite be4_value by assumption. cbn [Pkg.nib].
  unfold mret, Pkg.dec_ret, Pkg.ret. f_equal. f_equal. lia.
Qed.

(** X14.  The numbers of a package are read from hexadecimal text byte
    by byte: [le2_] and [le4_] take the first byte as the lowest, [be4_]
    as the highest, and each moves the cursor past the digits it read,
    whatever the end of the range is.  The four-byte numbers are signed:
    from 2^31 on they come out negative. *)
Theorem numbers_of_hex (i : nat) (b0 b1 b2 b3 : Z) (rest : string) :
  0 <= b0 < 256 -> 0 <= b1 < 256 -> 0 <= b2 < 256 -> 0 <= b3 < 256 ->
  JS.drop i txt = (Pkg.hex [b0; b1; b2; b3] ++ rest)%string ->
  Pkg.le2_ txt end_ i = Pkg.Ok (b0 + 256 * b1) (4 + i) /\
  Pkg.le4_ txt end_ i
  = Pkg.Ok (JS.toInt32 (b0 + 256 * b1 + 65536 * b2 + 16777216 * b3)) (8 + i) /\
  Pkg.be4_ txt end_ i
  = Pkg.Ok (JS.toInt32 (16777216 * b0 + 65536 * b1 + 256 * b2 + b3)) (8 + i).
Proof.
  intros H0 H1 H2 H3 Hd.
  split; [|split].
  - apply (le2_hex i b0 b1 (Pkg.hex [b2; b3] ++ rest)); [exact H0 | exact H1|].
    rewrite Hd. change [b0; b1; b2; b3] with ([b0; b1] ++ [b2; b3]).
    rewrite hex_app. apply string_app_assoc.
  - apply (le4_hex i b0 b1 b2 b3 rest); assumption.
  - apply (be4_hex i b0 b1 b2 b3 rest); assumption.
Qed.

End Hex.

Lemma numbers_of_hex_witness :
  Pkg.le2_ "0200FF80 " 9%nat 0%nat = Pkg.Ok 2 4%nat /\
  Pkg.le4_ "0200FF80 " 9%nat 0%nat = Pkg.Ok (-2130771966) 8%nat /\
  Pkg.be4_ "0200FF80 " 9%nat 0%nat = Pkg.Ok 33619840 8%nat.
Proof.
  apply (numbers_of_hex "0200FF80 " 9%nat 0%nat 2 0 255 128 " "); try lia. reflexivity.
Defined.

(** ** The strings of a package *)

Lemma byte_value (b : Z) : 0 <= b < 256 -> JS.bor (JS.shl (b / 16) 4) (b mod 16) = b.
Proof.
  intros Hb. pose (P := fun b => JS.bor (JS.shl (b / 16) 4) (b mod 16) =? b).
  assert (HP : P b = true) by (apply byte_cases; [vm_compute; reflexivity | exact Hb]).
  unfold P in HP. lia.
Qed.

Lemma fromCharCode_bytes (a : list Z) :
  Forall (fun c => 0 <= c < 256) a -> Pkg.fromCharCode a = a.
Proof.
  unfold Pkg.fromCharCode. induction 1 as [|c a Hc Ha IH]; cbn [map]; [reflexivity|].
  rewrite IH, Z.mod_small by lia. reflexivity.
Qed.

Lemma hex_cons (b : Z) (l : list Z) (rest : string) :
  (Pkg.hex (b :: l) ++ rest)%string = (Pkg.hex2 b ++ (Pkg.hex l ++ rest))%string.
Proof. cbn [Pkg.hex]. apply string_app_assoc. Qed.

Section HexStrings.
Variable txt : string.
Variable end_ : nat.

(** A byte from its two digits. *)
Lemma byte_hex2 (i : nat) (b : Z) (rest : string) :
  0 <= b < 256 ->
  JS.drop i txt = (Pkg.hex2 b ++ rest)%string ->
  Pkg.byte_ txt end_ i = Pkg.Ok b (2 + i) /\ JS.drop (2 + i) txt = rest.
Proof.
  intros Hb Hd. destruct (byte_nibbles b Hb) as (A & B & E).
  unfold Pkg.hex2 in Hd. rewrite !append_cons, append_nil in Hd.
  destruct (hx_hexchar txt end_ i _ _ A Hd) as [Hx1 Hd1].
  destruct (hx_hexchar txt end_ (S i) _ _ B Hd1) as [Hx2 Hd2].
  split; [|exact Hd2].
  unfold Pkg.byte_. rewrite (bind_ok _ _ _ _ _ Hx1). cbv beta.
  rewrite (bind_ok _ _ _ _ _ Hx2). cbv beta.
  rewrite byte_value by exact Hb. reflexivity.
Qed.

Lemma str_loop_hex (rest : string) (l : list Z) :
  Forall (fun b => 1 <= b < 256) l ->
  forall (fuel : nat) (a : list Z) (hs : list (list Z)) (j : nat),
    Forall (fun c => 0 <= c < 256) a ->
    JS.drop j txt = (Pkg.hex (l ++ [0]) ++ rest)%string ->
    (j + 2 * length l < end_)%nat -> (length l < fuel)%nat ->
    exists a' hs',
      Pkg.str_loop txt end_ fuel a hs j = Pkg.Ok (a', hs') (2 * length l + 2 + j) /\
      concat hs' ++ a' = concat hs ++ a ++ l /\ Forall (fun c => 0 <= c < 256) a'.
Proof.
  induction 1 as [|b l Hb Hl IH]; intros fuel a hs j Ha Hd Hend Hfuel;
    (destruct fuel as [|fuel]; [cbn [length] in Hfuel; lia|]);
    cbn [Pkg.str_loop]; rewrite (bind_ok Pkg.cursor _ j j j eq_refl);
    (replace (j <? end_)%nat with true by (symmetry; apply Nat.ltb_lt; cbn [length] in Hend; lia)).
  - cbn [app] in Hd. rewrite hex_cons in Hd. cbn [Pkg.hex] in Hd. rewrite append_nil in Hd.
    destruct (byte_hex2 j 0 rest ltac:(lia) Hd) as [Hby _].
    rewrite (bind_ok _ _ _ _ _ Hby). cbv beta. change (0 =? 0) with true. cbv iota.
    exists a, hs. split; [reflexivity|]. split; [rewrite app_nil_r; reflexivity | exact Ha].
  - cbn [app] in Hd. rewrite hex_cons in Hd. cbn [length] in Hend, Hfuel.
    destruct (byte_hex2 j b _ ltac:(lia) Hd) as [Hby Hd'].
    rewrite (bind_ok _ _ _ _ _ Hby). cbv beta.
    replace (b =? 0) with false by lia. cbv iota zeta.
    assert (Ha' : Forall (fun c => 0 <= c < 256) (a ++ [b])).
    { apply Forall_app. split; [exact Ha|]. constructor; [lia | constructor]. }
    destruct (Z.of_nat (length (a ++ [b])) >? 500).
    + destruct (IH fuel [] (hs ++ [Pkg.fromCharCode (a ++ [b])]) (2 + j)%nat)
        as (a' & hs' & Hgo & Hcat & Hr); [constructor | exact Hd' | lia | lia |].
      exists a', hs'. split; [rewrite Hgo; f_equal; cbn [length]; lia|].
      split; [|exact Hr].
      rewrite Hcat, concat_app, fromCharCode_bytes by exact Ha'.
      cbn [concat app]. rewrite app_nil_r, <- !app_assoc. reflexivity.
    + destruct (IH fuel (a ++ [b]) hs (2 + j)%nat)
        as (a' & hs' & Hgo & Hcat & Hr); [exact Ha' | exact Hd' | lia | lia |].
      exists a', hs'. split; [rewrite Hgo; f_equal; cbn [length]; lia|].
      split; [|exact Hr].
      rewrite Hcat, <- !app_assoc. reflexivity.
Qed.

(** X15.  [str_] reads a zero-terminated string back from its
    hexadecimal text: the bytes before the first zero byte, in order,
    however many there are, with the cursor left after the zero byte. *)
Theorem str_of_hex (i : nat) (l : list Z) (rest : string) :
  Forall (fun b => 1 <= b < 256) l ->
  JS.drop i txt = (Pkg.hex (l ++ [0]) ++ rest)%string ->
  (i + 2 * length l < end_)%nat ->
  Pkg.str_ txt end_ i = Pkg.Ok l (2 * length l + 2 + i).
Proof.
  intros Hl Hd Hend. unfold Pkg.str_.
  rewrite (bind_ok Pkg.cursor _ i i i eq_refl).
  destruct (str_loop_hex rest l Hl (end_ - i) [] [] i) as (a' & hs' & Hgo & Hcat & Hr);
    [constructor | exact Hd | exact Hend | lia |].
  rewrite (bind_ok _ _ _ _ _ Hgo). cbv beta iota zeta.
  unfold mret, Pkg.dec_ret, Pkg.ret. f_equal.
  cbn [concat app] in Hcat. rewrite <- Hcat.
  destruct (Z.of_nat (length a') >? 0) eqn:E.
  - rewrite concat_app, fromCharCode_bytes by exact Hr. cbn [concat]. rewrite app_nil_r.
    reflexivity.
  - destruct a' as [|c a']; [rewrite app_nil_r; reflexivity|].
    cbn [length] in E. rewrite Z.gtb_ltb in E. apply Z.ltb_ge in E. lia.
Qed.

End HexStrings.

Lemma str_of_hex_witness :
  Pkg.str_ "4C4D00 0000" 11%nat 0%nat = Pkg.Ok [76; 77] 6%nat.
Proof.
  apply (str_of_hex "4C4D00 0000" 11%nat 0%nat [76; 77] " 0000").
  - repeat constructor; lia.
  - reflexivity.
  - cbn. lia.
Defined.

Section HexCounted.
Variable txt : string.
Variable end_ : nat.

Lemma bstr_loop_hex (rest : string) (len : Z) (l : list Z) :
  forall (b : Z) (fuel : nat) (a : list Z) (cnt : Z) (hs : list (list Z)) (j : nat),
    Forall (fun c => 0 <= c < 256) (b :: l) ->
    Forall (fun c => 0 <= c < 256) a ->
    JS.drop j txt = (Pkg.hex (b :: l) ++ rest)%string ->
    (j + 2 * length (b :: l) <= end_)%nat -> (length (b :: l) <= fuel)%nat ->
    Z.of_nat (length (b :: l)) = Z.max 1 (len - cnt) ->
    exists a' hs',
      Pkg.bstr_loop txt end_ fuel len a cnt hs j = Pkg.Ok (a', hs') (2 * length (b :: l) + j) /\
      concat hs' ++ a' = concat hs ++ a ++ b :: l /\ Forall (fun c => 0 <= c < 256) a'.
Proof.
  induction l as [|b' l IH]; intros b fuel a cnt hs j Hl Ha Hd Hend Hfuel Hlen;
    cbn [length] in Hend, Hfuel, Hlen;
    (destruct fuel as [|fuel]; [lia|]);
    cbn [Pkg.bstr_loop]; rewrite (bind_ok Pkg.cursor _ j j j eq_refl);
    (replace (j <? end_)%nat with true by (symmetry; apply Nat.ltb_lt; lia));
    rewrite hex_cons in Hd;
    pose proof (Forall_inv Hl) as Hb;
    destruct (byte_hex2 txt end_ j b _ Hb Hd) as [Hby Hd'];
    rewrite (bind_ok _ _ _ _ _ Hby); cbv beta zeta;
    assert (Ha' : Forall (fun c => 0 <= c < 256) (a ++ [b]))
      by (apply Forall_app; split; [exact Ha | constructor; [exact Hb | constructor]]).
  - replace (cnt + 1 >=? len) with true by lia.
    exists (a ++ [b]), hs. split; [reflexivity|].
    split; [reflexivity | exact Ha'].
  - replace (cnt + 1 >=? len) with false by lia.
    apply Forall_inv_tail in Hl.
    destruct (Z.of_nat (length (a ++ [b])) >? 500).
    + destruct (IH b' fuel [] (cnt + 1) (hs ++ [Pkg.fromCharCode (a ++ [b])]) (2 + j)%nat)
        as (a' & hs' & Hgo & Hcat & Hr);
        [exact Hl | constructor | exact Hd' | cbn [length]; lia | cbn [length]; lia
        | cbn [length]; lia |].
      exists a', hs'. split; [rewrite Hgo; f_equal; cbn [length]; lia|].
      split; [|exact Hr].
      rewrite Hcat, concat_app, fromCharCode_bytes by exact Ha'.
      cbn [concat app]. rewrite app_nil_r, <- !app_assoc. reflexivity.
    + destruct (IH b' fuel (a ++ [b]) (cnt + 1) hs (2 + j)%nat)
        as (a' & hs' & Hgo & Hcat & Hr);
        [exact Hl | exact Ha' | exact Hd' | cbn [length]; lia | cbn [length]; lia
        | cbn [length]; lia |].
      exists a', hs'. split; [rewrite Hgo; f_equal; cbn [length]; lia|].
      split; [|exact Hr].
      rewrite Hcat, <- !app_assoc. reflexivity.
Qed.

(** X16.  [bstr_] on the hexadecimal text of a counted string.  Where
    [dtrace] is not defined it reads the four bytes of the count and
    ends in a [ReferenceError].  Where it is defined, it reads the
    string back: after the count [len], lowest byte first, it takes
    [len] bytes, and one byte when [len] is zero or negative; asked for
    a zero-terminated string it answers the bytes without the last one
    when that is zero, and throws with the last byte otherwise. *)
Theorem bstr_of_hex (G : Pkg.Hooks) (zt : bool) (i : nat) (b0 b1 b2 b3 : Z) (l : list Z)
        (rest : string) :
  0 <= b0 < 256 -> 0 <= b1 < 256 -> 0 <= b2 < 256 -> 0 <= b3 < 256 ->
  Forall (fun c => 0 <= c < 256) l ->
  Z.of_nat (length l) = Z.max 1 (JS.toInt32 (b0 + 256 * b1 + 65536 * b2 + 16777216 * b3)) ->
  JS.drop i txt = (Pkg.hex [b0; b1; b2; b3] ++ Pkg.hex l ++ rest)%string ->
  (8 + i + 2 * length l <= end_)%nat ->
  Pkg.bstr_ G txt end_ zt i =
  if Pkg.has_dtrace G then
    if zt then
      match last l with
      | Some 0 => Pkg.Ok (removelast l) (2 * length l + (8 + i))
      | c => Pkg.Throw (Pkg.UnterminatedString c)
      end
    else Pkg.Ok l (2 * length l + (8 + i))
  else Pkg.Throw (Pkg.NotDefined "dtrace").
Proof.
  intros H0 H1 H2 H3 Hl Hlen Hd Hend.
  destruct (le4_hex txt end_ i b0 b1 b2 b3 _ H0 H1 H2 H3 Hd) as [Hle Hd'].
  set (len := JS.toInt32 (b0 + 256 * b1 + 65536 * b2 + 16777216 * b3)) in *.
  unfold Pkg.bstr_. rewrite (bind_ok _ _ _ _ _ Hle). cbv beta.
  unfold Pkg.dtrace at 1. destruct (Pkg.has_dtrace G); [|reflexivity].
  rewrite (bind_ok (Pkg.ret tt) _ (8 + i)%nat tt (8 + i)%nat eq_refl).
  rewrite (bind_ok Pkg.cursor _ (8 + i)%nat (8 + i)%nat (8 + i)%nat eq_refl).
  replace (Z.of_nat (8 + i) + len >? Z.of_nat end_) with false
    by (symmetry; rewrite Z.gtb_ltb; apply Z.ltb_ge; lia).
  destruct l as [|b l]; [cbn [length] in Hlen; lia|].
  destruct (bstr_loop_hex rest len l b (end_ - (8 + i))%nat [] 0 [] (8 + i)%nat)
    as (a' & hs' & Hgo & Hcat & Hr);
    [exact Hl | constructor | exact Hd' | lia | lia | rewrite Z.sub_0_r; exact Hlen |].
  rewrite (bind_ok _ _ _ _ _ Hgo). cbv beta iota zeta.
  cbn [concat app] in Hcat.
  assert (Hs : concat (if Z.of_nat (length a') >? 0 then hs' ++ [Pkg.fromCharCode a'] else hs')
               = b :: l).
  { rewrite <- Hcat. destruct (Z.of_nat (length a') >? 0) eqn:E.
    - rewrite concat_app, fromCharCode_bytes by exact Hr. cbn [concat]. rewrite app_nil_r.
      reflexivity.
    - destruct a' as [|c a']; [rewrite app_nil_r; reflexivity|].
      cbn [length] in E. rewrite Z.gtb_ltb in E. apply Z.ltb_ge in E. lia. }
  rewrite Hs. destruct zt; [|reflexivity].
  destruct (last (b :: l)) as [[|p|p]|]; reflexivity.
Qed.

End HexCounted.

Lemma bstr_of_hex_witness :
  Pkg.bstr_ Pkg.all_hooks "030000005C6100 " 16%nat true 0%nat = Pkg.Ok [92; 97] 14%nat /\
  Pkg.bstr_ Pkg.no_hooks "030000005C6100 " 16%nat true 0%nat
  = Pkg.Throw (Pkg.NotDefined "dtrace").
Proof.
  split.
  - apply (bstr_of_hex "030000005C6100 " 16%nat Pkg.all_hooks true 0%nat 3 0 0 0
                       [92; 97; 0] " ").
    all: try lia.
    + repeat constructor; lia.
    + reflexivity.
    + reflexivity.
    + cbn. lia.
  - apply (bstr_of_hex "030000005C6100 " 16%nat Pkg.no_hooks true 0%nat 3 0 0 0
                       [92; 97; 0] " ").
    all: try lia.
    + repeat constructor; lia.
    + reflexivity.
    + reflexivity.
    + cbn. lia.
Defined.

(** ** What a decoded package holds *)

Section Decoded.
Variable G : Pkg.Hooks.
Variable txt : string.
Variable end_ : nat.

Lemma yields_any {A : Type} (m : Pkg.Dec A) : Pkg.yields m (fun _ => True).
Proof. intros i a j _. exact I. Qed.

Lemma yields_ret {A : Type} (a : A) (Q : A -> Prop) : Q a -> Pkg.yields (mret a) Q.
Proof. intros HQ i b j [= <- _]. exact HQ. Qed.

Lemma yields_throw {A : Type} (e : Pkg.Error) (Q : A -> Prop) : Pkg.yields (Pkg.throw e) Q.
Proof. intros i a j H. discriminate H. Qed.

Lemma yields_bind {A B : Type} (m : Pkg.Dec A) (k : A -> Pkg.Dec B)
      (P : A -> Prop) (Q : B -> Prop) :
  Pkg.yields m P -> (forall a, P a -> Pkg.yields (k a) Q) -> Pkg.yields (m ≫= k) Q.
Proof.
  intros Hm Hk i b j H. unfold mbind, Pkg.dec_bind, Pkg.bind in H.
  destruct (m i) as [a i'|e] eqn:E; [|discriminate].
  exact (Hk a (Hm _ _ _ E) _ _ _ H).
Qed.

(** A hook that returns is defined. *)
Lemma yields_trace : Pkg.yields (Pkg.trace G) (fun _ => Pkg.has_trace G = true).
Proof.
  unfold Pkg.trace. destruct (Pkg.has_trace G); [|apply yields_throw].
  intros i a j _. reflexivity.
Qed.

Lemma yields_dtrace : Pkg.yields (Pkg.dtrace G) (fun _ => Pkg.has_dtrace G = true).
Proof.
  unfold Pkg.dtrace. destruct (Pkg.has_dtrace G); [|apply yields_throw].
  intros i a j _. reflexivity.
Qed.

Lemma yields_bstr (zt : bool) :
  Pkg.yields (Pkg.bstr_ G txt end_ zt) (fun _ => Pkg.has_dtrace G = true).
Proof.
  unfold Pkg.bstr_.
  eapply yields_bind; [apply yields_any | intros len _].
  eapply yields_bind; [apply yields_dtrace | intros u Hd].
  intros i a j _. exact Hd.
Qed.

Lemma yields_strings_loop (n : nat) (acc : list (list Z)) (bc : Z) :
  Pkg.yields (Pkg.strings_loop G txt end_ n acc bc)
             (fun r => length (fst r) = (length acc + n)%nat /\
                       forall k, (k < length acc)%nat -> nth k (fst r) [] = nth k acc []).
Proof.
  revert acc bc; induction n as [|n IH]; intros acc bc; cbn [Pkg.strings_loop].
  - apply yields_ret. cbn [fst]. split; [lia | reflexivity].
  - eapply yields_bind; [apply yields_any | intros str _]. cbv zeta.
    eapply yields_bind; [apply yields_any | intros u _].
    intros i r j H. destruct (IH _ _ _ _ _ H) as [Hlen Hnth].
    rewrite length_app in Hlen, Hnth. cbn [length] in Hlen, Hnth.
    split; [lia|]. intros k Hk. rewrite Hnth by lia. apply app_nth1. exact Hk.
Qed.

Lemma yields_static_loop (fuel : nat) (size : Z) (acc : list (list Z * option (list Z)))
      (bc : Z) :
  Forall (fun it => exists d, snd it = Some d) acc ->
  Pkg.yields (Pkg.static_loop G txt end_ fuel size acc bc)
             (fun r => Forall (fun it => exists d, snd it = Some d) (fst r)).
Proof.
  revert acc bc; induction fuel as [|fuel IH]; intros acc bc Hacc; cbn [Pkg.static_loop].
  - apply yields_ret. exact Hacc.
  - eapply yields_bind; [apply yields_any | intros i _].
    destruct (i <? end_)%nat; [|apply yields_ret; exact Hacc].
    eapply yields_bind; [apply yields_any | intros u1 _].
    eapply yields_bind; [apply yields_any | intros p _]. cbv zeta.
    eapply yields_bind; [apply yields_any | intros u2 _].
    eapply yields_bind; [apply yields_any | intros d _]. cbv zeta.
    assert (Hacc' : Forall (fun it => exists d, snd it = Some d) (acc ++ [(p, Some d)])).
    { apply Forall_app. split; [exact Hacc|]. constructor; [|constructor].
      exists d. reflexivity. }
    destruct (_ =? _); [apply yields_ret; exact Hacc' | apply IH; exact Hacc'].
Qed.

Lemma yields_linked_loop (n : nat) (lbl : list Z) (acc : list (list Z * option (list Z)))
      (bc : Z) :
  Forall (fun it => snd it = None) acc ->
  Pkg.yields (Pkg.linked_loop G txt end_ n lbl acc bc)
             (fun r => length (fst r) = (length acc + n)%nat /\
                       Forall (fun it => snd it = None) (fst r)).
Proof.
  revert acc bc; induction n as [|n IH]; intros acc bc Hacc; cbn [Pkg.linked_loop].
  - apply yields_ret. cbn [fst]. split; [lia | exact Hacc].
  - eapply yields_bind; [apply yields_any | intros p _].
    eapply yields_bind; [apply yields_any | intros u _]. cbv zeta.
    eapply yields_bind; [apply yields_any | intros q _].
    intros i r j H.
    assert (Hacc' : Forall (fun it => snd it = None) (acc ++ [(q, None)])).
    { apply Forall_app. split; [exact Hacc|]. constructor; [reflexivity | constructor]. }
    destruct (IH _ _ Hacc' _ _ _ H) as [Hlen Hnone].
    rewrite length_app in Hlen. cbn [length] in Hlen. split; [lia | exact Hnone].
Qed.

End Decoded.

(** Where the last of the characters [c] stands in a list. *)
Lemma lastIndexOf_from_spec (p : list Z) (c i found : Z) :
  (Forall (fun x => x <> c) p /\ Pkg.lastIndexOf_from p c i found = found) \/
  (exists a b, p = a ++ c :: b /\ Forall (fun x => x <> c) b /\
               Pkg.lastIndexOf_from p c i found = i + Z.of_nat (length a)).
Proof.
  revert i found; induction p as [|x p IH]; intros i found; cbn [Pkg.lastIndexOf_from].
  - left. split; [constructor | reflexivity].
  - destruct (IH (i + 1) (if x =? c then i else found)) as [[Hp Hr] | (a & b & -> & Hb & Hr)].
    + destruct (x =? c) eqn:E.
      * apply Z.eqb_eq in E. subst x. right. exists [], p.
        split; [reflexivity|]. split; [exact Hp|]. rewrite Hr. cbn [length]. lia.
      * apply Z.eqb_neq in E. left. split; [constructor; assumption | exact Hr].
    + right. exists (x :: a), b. split; [reflexivity|]. split; [exact Hb|].
      rewrite Hr. cbn [length]. lia.
Qed.

(** The name of an item holds no backslash after its first character. *)
Lemma item_name_backslash (p : list Z) :
  Forall (fun x => x <> 92) (tail (Pkg.item_name p)).
Proof.
  unfold Pkg.item_name, Pkg.lastIndexOf.
  destruct (lastIndexOf_from_spec p 92 0 (-1)) as [[Hp ->] | (a & b & -> & Hb & ->)].
  - change (-1 >? 0) with false. cbv iota.
    destruct p as [|x p]; [constructor|]. cbn [tail]. apply Forall_inv_tail in Hp. exact Hp.
  - destruct a as [|x a].
    + cbn [length app]. change (0 + Z.of_nat 0 >? 0) with false. cbv iota.
      cbn [tail]. exact Hb.
    + replace (0 + Z.of_nat (length (x :: a)) >? 0) with true
        by (symmetry; rewrite Z.gtb_ltb; apply Z.ltb_lt; cbn [length]; lia).
      replace (Z.to_nat (0 + Z.of_nat (length (x :: a)) + 1))
        with (length (x :: a) + 1)%nat by lia.
      rewrite <- drop_drop, drop_app_length. cbn [drop].
      destruct b as [|y b]; [constructor|]. cbn [tail]. apply Forall_inv_tail in Hb. exact Hb.
Qed.

(** X17.  [RtfPkgOb] returns a package only where [trace] and [dtrace]
    are both defined: run without them, as the module is shipped, every
    call of it ends in an exception.  A package that it returns has a
    total size from 2 to 1048576, from 2 to 10 strings, of which the
    first is its label, and the OLE type 1 or 3; no name of an item
    holds a backslash after its first character; the items of a linked
    package (type 1) carry no data and those of a static package
    (type 3) all carry data. *)
Theorem RtfPkgOb_result (G : Pkg.Hooks) (txt : string) (beg end_ : nat)
        (pkg : Pkg.Package) (j : nat) :
  Pkg.RtfPkgOb G txt beg end_ = Pkg.Ok pkg j ->
  (Pkg.has_trace G = true /\ Pkg.has_dtrace G = true) /\
  2 <= Pkg.totalsz pkg <= 1048576 /\
  (2 <= length (Pkg.strings pkg) <= 10)%nat /\
  Pkg.label pkg = nth 0 (Pkg.strings pkg) [] /\
  Forall (fun it => Forall (fun x => x <> 92) (tail (Pkg.name it))) (Pkg.items pkg) /\
  ((Pkg.oletype pkg = 1 /\ Forall (fun it => Pkg.data it = None) (Pkg.items pkg)) \/
   (Pkg.oletype pkg = 3 /\ Forall (fun it => exists d, Pkg.data it = Some d) (Pkg.items pkg))).
Proof.
  revert beg pkg j.
  refine (_ : Pkg.yields (Pkg.RtfPkgOb_body G txt end_) (fun pkg => _)).
  unfold Pkg.RtfPkgOb_body.
  eapply yields_bind; [apply yields_any | intros n _].
  destruct (negb (n =? 17104896)); [apply yields_throw|].
  eapply yields_bind; [apply yields_any | intros n2 _].
  destruct (negb (n2 =? 2)); [apply yields_throw|].
  eapply yields_bind; [apply yields_bstr | intros pid Hdtrace].
  eapply yields_bind; [apply yields_trace | intros u0 Htrace].
  eapply yields_bind; [apply yields_any | intros z1 _].
  eapply yields_bind; [apply yields_any | intros u _].
  eapply yields_bind; [apply yields_any | intros size _].
  eapply yields_bind; [apply yields_any | intros u1 _].
  destruct ((size <? 2) || (size >? 1048576)) eqn:Esize; [apply yields_throw|].
  cbv zeta.
  eapply yields_bind; [apply yields_any | intros nstr _].
  eapply yields_bind; [apply yields_any | intros u2 _].
  destruct ((nstr <? 2) || (nstr >? 10)) eqn:Enstr; [apply yields_throw|].
  eapply yields_bind; [apply (yields_strings_loop G txt end_ (Z.to_nat nstr) [] (0 + 2)) | ].
  intros [strs bc] [Hlen _]. cbn [fst length Nat.add] in Hlen.
  eapply yields_bind; [apply yields_any | intros z _].
  destruct (negb (z =? 0)); [apply yields_throw|].
  eapply yields_bind; [apply yields_any | intros ty _].
  eapply yields_bind; [apply yields_any | intros u3 _].
  destruct (negb (ty =? 1) && negb (ty =? 3)) eqn:Ety; [apply yields_throw|].
  apply orb_false_elim in Esize as [Es1 Es2]. apply orb_false_elim in Enstr as [En1 En2].
  rewrite Z.gtb_ltb in Es2, En2.
  apply Z.ltb_ge in Es1, Es2, En1, En2.
  eapply yields_bind with
    (P := fun its => (ty = 1 /\ Forall (fun it => snd it = None) its) \/
                     (ty = 3 /\ Forall (fun it => exists d, snd it = Some d) its)).
  - destruct (ty =? 3) eqn:E3.
    + eapply yields_bind; [apply yields_any | intros i _].
      eapply yields_bind; [apply (yields_static_loop G txt end_ _ _ [] _); constructor|].
      intros [its bc'] Hits. apply yields_ret. right. split; [lia | exact Hits].
    + eapply yields_bind; [apply yields_any | intros m _].
      eapply yields_bind; [apply yields_any | intros u4 _].
      eapply yields_bind; [apply (yields_linked_loop G txt end_ _ _ [] _); constructor|].
      intros [its bc'] [_ Hits].
      destruct (ty =? 1) eqn:E1; [|discriminate].
      destruct (negb (bc' =? size - 2)); [apply yields_throw|].
      apply yields_ret. left. split; [lia | exact Hits].
  - intros its Hits.
    eapply yields_bind; [apply yields_any | intros trm _].
    destruct (negb (trm =? 0)); [apply yields_throw|].
    apply yields_ret. cbn [Pkg.totalsz Pkg.strings Pkg.label Pkg.items Pkg.oletype].
    split; [split; assumption|]. split; [lia|]. split; [lia|]. split; [reflexivity|].
    split.
    + apply Forall_map. apply Forall_forall. intros it _. apply item_name_backslash.
    + destruct Hits as [[Hty Hits] | [Hty Hits]]; [left | right]; (split; [exact Hty|]);
        apply Forall_map; exact Hits.
Qed.

Lemma RtfPkgOb_result_witness :
  match Pkg.RtfPkgOb Pkg.all_hooks pkg_linked 0 112 with
  | Pkg.Ok pkg _ =>
      (Pkg.has_trace Pkg.all_hooks = true /\ Pkg.has_dtrace Pkg.all_hooks = true) /\
      2 <= Pkg.totalsz pkg <= 1048576 /\
      (2 <= length (Pkg.strings pkg) <= 10)%nat /\
      Pkg.label pkg = nth 0 (Pkg.strings pkg) [] /\
      Forall (fun it => Forall (fun x => x <> 92) (tail (Pkg.name it))) (Pkg.items pkg) /\
      ((Pkg.oletype pkg = 1 /\ Forall (fun it => Pkg.data it = None) (Pkg.items pkg)) \/
       (Pkg.oletype pkg = 3 /\
        Forall (fun it => exists d, Pkg.data it = Some d) (Pkg.items pkg)))
  | Pkg.Throw _ => False
  end.
Proof.
  destruct (Pkg.RtfPkgOb Pkg.all_hooks pkg_linked 0 112) as [pkg j|e] eqn:E.
  - exact (RtfPkgOb_result Pkg.all_hooks pkg_linked 0 112 pkg j E).
  - vm_compute in E. discriminate E.
Defined.

(** ** Registering handlers *)

Section Registration.
Context `{H : Host}.

Lemma absent_last (h : Handler) (l : list Handler) : absent h (l ++ [h]) = false.
Proof.
  unfold absent. rewrite forallb_app. cbn [forallb].
  rewrite bool_decide_eq_true_2 by reflexivity. cbn [negb andb]. apply andb_false_r.
Qed.

Lemma dhd_get_insert (d : gmap string (list Handler)) (k : string) (l : list Handler) :
  dhd_get (<[k := l]> d) k = Own l.
Proof. unfold dhd_get. rewrite lookup_insert_eq. reflexivity. Qed.

(** X18.  Registering the same handler for the same destination again
    changes nothing: [HandleDest] leaves the parser as the first
    registration left it, for a name or path as for a pattern. *)
Theorem HandleDest_idempotent (p : RtfParser) (d : Dest) (h : Handler) :
  fst (HandleDest (fst (HandleDest p d h)) d h) = fst (HandleDest p d h).
Proof.
  unfold HandleDest at 2 3. destruct d as [re|d| |].
  - cbn [dhr set_cache set_bare].
    destruct (forallb _ (dhr p)) eqn:Hnew; cbn [fst].
    + unfold HandleDest. cbn [dhr set_cache set_bare set_registry].
      rewrite forallb_app. cbn [forallb snd fst].
      rewrite bool_decide_eq_true_2, String.eqb_refl by reflexivity.
      cbn [negb andb]. rewrite andb_false_r. reflexivity.
    + unfold HandleDest. cbn [dhr set_cache set_bare]. rewrite Hnew. reflexivity.
  - cbn [dhd set_cache set_bare].
    destruct (dhd_get (dhd p) d) as [l|v|v|] eqn:Hl.
    + destruct (absent h l) eqn:Habs; cbn [fst].
      * unfold HandleDest. cbn [dhd set_cache set_bare set_registry].
        rewrite dhd_get_insert, absent_last. reflexivity.
      * unfold HandleDest. cbn [dhd set_cache set_bare]. rewrite Hl, Habs. reflexivity.
    + cbn [fst]. unfold HandleDest. cbn [dhd set_cache set_bare]. rewrite Hl. reflexivity.
    + cbn [fst]. unfold HandleDest. cbn [dhd set_cache set_bare]. rewrite Hl. reflexivity.
    + cbn [fst]. unfold HandleDest. cbn [dhd set_cache set_bare set_registry].
      rewrite dhd_get_insert. change [h] with ([] ++ [h]). rewrite absent_last.
      reflexivity.
  - reflexivity.
  - reflexivity.
Qed.







End Registration.


(** ** The main loop outside of groups *)

Lemma push_iff (s : string) (i : nat) :
  (RtfTkTyp (GetRtfTk s i) =? 2) = JS.eq (JS.charCodeAt s i) 123.
Proof.
  kinds s i;
    (destruct (RtfTkTyp (GetRtfTk s i) =? 2) eqn:Ety; [apply Z.eqb_eq in Ety | apply Z.eqb_neq in Ety]);
    try reflexivity; try lia; try congruence; symmetry; assumption.
Qed.

Lemma pop_iff (s : string) (i : nat) :
  (RtfTkTyp (GetRtfTk s i) =? 3) = JS.eq (JS.charCodeAt s i) 125.
Proof.
  kinds s i;
    (destruct (RtfTkTyp (GetRtfTk s i) =? 3) eqn:Ety; [apply Z.eqb_eq in Ety | apply Z.eqb_neq in Ety]);
    try reflexivity; try lia; try congruence; symmetry; assumption.
Qed.

Section Outside.
Context `{HC : Calls}.

(** X20.  Tokens outside of every group.  Before the first group the
    current frame is the empty object the constructor made, and any
    token but an open brace makes [Document] throw: a close brace the
    error for too many closing braces, everything else, a blank or a
    line break too, a [TypeError] from reading the handlers of that
    object.  After the last group has been closed the current frame is
    [null], and a token that is no brace is passed over: the cursor
    moves by its length and nothing else changes. *)
Theorem tokens_outside_groups (fuel : nat) (p : RtfParser) :
  stk p = [] -> (pos p < String.length (txt p))%nat ->
  JS.charCodeAt (txt p) (pos p) <> Some 123 ->
  let c := JS.charCodeAt (txt p) (pos p) in
  let tok := GetRtfTk (txt p) (pos p) in
  (frm p = CurInit ->
   Document (S fuel) false p
   = Throws (if JS.eq c 125 then TooManyClosingBraces else TypeError)) /\
  (frm p = CurNull ->
   Document_iter fuel p
   = if JS.eq c 125 then Throws TooManyClosingBraces
     else Done (set_pos p (pos p + Z.to_nat (RtfTkLen tok)))).
Proof.
  intros Hstk Hpos Hopen c tok.
  assert (Hiter : Document_iter fuel p =
                  if JS.eq c 125 then Throws TooManyClosingBraces
                  else match frm p with
                       | CurNull => Done (set_pos p (pos p + Z.to_nat (RtfTkLen tok)))
                       | CurInit => Throws TypeError
                       | CurFrame f =>
                           match call_all (f_dh f) tok (txt p) (pos p) f (stk p) (world p) with
                           | inl e => Throws (HandlerThrew e)
                           | inr w =>
                               Done (set_pos (set_world p w) (pos p + Z.to_nat (RtfTkLen tok)))
                           end
                       end).
  { unfold Document_iter.
    change (JS.band (JS.shr (GetRtfTk (txt p) (pos p)) 8) 7) with (RtfTkTyp tok).
    unfold tok. rewrite push_iff, pop_iff. fold c.
    replace (JS.eq c 123) with false.
    - rewrite Hstk. destruct (JS.eq c 125); reflexivity.
    - symmetry. destruct c as [z|] eqn:E; [|reflexivity].
      cbn [JS.eq]. apply Z.eqb_neq. intros ->. apply Hopen. exact E. }
  split; intros Hfrm.
  - unfold Document. cbn [orb].
    replace (pos p =? String.length (txt p))%nat with false
      by (symmetry; apply Nat.eqb_neq; lia).
    cbn [Document_loop].
    replace (pos p <? String.length (txt p))%nat with true
      by (symmetry; apply Nat.ltb_lt; lia).
    rewrite Hiter, Hfrm. destruct (JS.eq c 125); reflexivity.
  - rewrite Hiter, Hfrm. reflexivity.
Qed.

End Outside.

Lemma tokens_outside_groups_witness :
  @Document demo_host demo_calls 1 false (@new_parser demo_host " {\rtf1}" tt)
  = Throws TypeError.
Proof.
  apply (proj1 (@tokens_outside_groups demo_host demo_calls 0
                  (@new_parser demo_host " {\rtf1}" tt) eq_refl ltac:(cbn; lia)
                  ltac:(discriminate))).
  reflexivity.
Defined.

(** ** The stack of the parser *)

Lemma snoc_cases {A : Type} (l : list A) : l = [] \/ exists l' x, l = l' ++ [x].
Proof.
  induction l as [|a l IH]; [left; reflexivity|]. right.
  destruct IH as [-> | (l' & x & ->)].
  - exists [], a. reflexivity.
  - exists (a :: l'), x. reflexivity.
Qed.

Section Stack.
Context `{HC : Calls}.

Lemma frames_ok_push (st : list Frame) (tok : Z) (fpos : nat) (ctl : string)
      (dh : list Handler) :
  frames_ok st -> frames_ok (st ++ [MkFrame _ tok fpos ctl (stack_path st ctl) dh]).
Proof.
  intros Hst k f Hk.
  destruct (decide (k < length st)%nat) as [Hlt | Hge].
  - rewrite lookup_app_l in Hk by exact Hlt.
    rewrite take_app_le by lia. apply Hst. exact Hk.
  - rewrite lookup_app_r in Hk by lia.
    destruct (k - length st)%nat as [|n] eqn:E; [|destruct n; discriminate].
    injection Hk as <-. cbn [f_pth f_ctl].
    assert (k = length st) by lia. subst k.
    rewrite take_app_length. reflexivity.
Qed.

Lemma frames_ok_pop (st : list Frame) : frames_ok st -> frames_ok (removelast st).
Proof.
  intros Hst. destruct (snoc_cases st) as [-> | (st' & x & ->)]; [exact Hst|].
  rewrite removelast_last. intros k f Hk.
  pose proof (lookup_lt_Some _ _ _ Hk) as Hlt.
  rewrite <- (take_app_le st' [x] k) by lia.
  apply Hst. rewrite lookup_app_l by exact Hlt. exact Hk.
Qed.

Lemma Document_iter_keeps (fuel : nat) (p p' : RtfParser) :
  frames_ok (stk p) -> current_ok p ->
  Document_iter fuel p = Done p' ->
  frames_ok (stk p') /\ current_ok p' /\
  txt p' = txt p /\ dhd p' = dhd p /\ dhr p' = dhr p.
Proof.
  intros Hfr Hcur. unfold Document_iter.
  destruct (JS.band (JS.shr (GetRtfTk (txt p) (pos p)) 8) 7 =? 2).
  - destruct (after_open _ _) as [[ign cpos] tok].
    destruct (negb _); [discriminate|].
    cbn [txt pos stk set_pos].
    destruct (Handlers _ _ _) as [dh p1] eqn:HH.
    destruct (Handlers_frame _ _ _ _ _ HH) as (Htxt & Hpos & Hw & Hstk & Hfrm & Hd & Hr).
    cbn [txt pos stk frm world dhd dhr set_pos] in Htxt, Hpos, Hw, Hstk, Hfrm, Hd, Hr.
    destruct dh as [|[dh|]]; [discriminate| |].
    + destruct (call_all _ _ _ _ _ _ _) as [e|w]; [discriminate|].
      intros [= <-]. cbn [txt pos stk frm world dhd dhr set_pos set_world set_stack].
      rewrite Hstk, Hpos.
      split; [apply frames_ok_push; exact Hfr|].
      split; [unfold current_ok; cbn [stk frm set_pos set_world set_stack];
              rewrite last_snoc; reflexivity|].
      auto.
    + destruct (negb ign); [discriminate|].
      destruct (RtfSkipB _ _ _ _) as [q|]; [|discriminate].
      intros [= <-]. cbn [txt pos stk frm world dhd dhr set_pos].
      rewrite Hstk. split; [exact Hfr|].
      split; [unfold current_ok; cbn [stk frm set_pos]; rewrite Hstk, Hfrm; exact Hcur|].
      auto.
  - destruct (JS.band (JS.shr (GetRtfTk (txt p) (pos p)) 8) 7 =? 3).
    + pose proof (frames_ok_pop _ Hfr) as Hpop.
      remember (removelast (stk p)) as st' eqn:Est'.
      destruct (stk p) as [|f0 st] eqn:Est; [discriminate|].
      destruct (frm p) as [| |f]; try discriminate.
      destruct (call_all _ _ _ _ _ _ _) as [e|w]; [discriminate|].
      intros [= <-]. cbn [txt pos stk frm world dhd dhr set_pos set_world set_stack].
      split; [exact Hpop|].
      split; [|auto].
      unfold current_ok. cbn [stk frm set_pos set_world set_stack].
      destruct (last st'); [reflexivity | right; reflexivity].
    + destruct (frm p) as [| |f] eqn:Efrm; try discriminate.
      * intros [= <-]. cbn [txt pos stk frm world dhd dhr set_pos].
        split; [exact Hfr|]. split; [|auto].
        unfold current_ok. cbn [stk frm set_pos]. rewrite Efrm.
        unfold current_ok in Hcur. rewrite Efrm in Hcur. exact Hcur.
      * destruct (call_all _ _ _ _ _ _ _) as [e|w]; [discriminate|].
        intros [= <-]. cbn [txt pos stk frm world dhd dhr set_pos set_world].
        split; [exact Hfr|]. split; [|auto].
        unfold current_ok. cbn [stk frm set_pos set_world]. rewrite Efrm.
        unfold current_ok in Hcur. rewrite Efrm in Hcur. exact Hcur.
Qed.

Lemma Document_loop_keeps (fuel : nat) :
  forall (p p' : RtfParser),
    frames_ok (stk p) -> current_ok p ->
    Document_loop fuel p = Done p' ->
    frames_ok (stk p') /\ current_ok p' /\
    txt p' = txt p /\ dhd p' = dhd p /\ dhr p' = dhr p /\
    (String.length (txt p') <= pos p')%nat.
Proof.
  induction fuel as [|fuel IH]; intros p p' Hfr Hcur; cbn [Document_loop]; [discriminate|].
  destruct (pos p <? String.length (txt p))%nat eqn:Hin.
  - destruct (Document_iter fuel p) as [p1| |] eqn:Hit; try discriminate.
    destruct (Document_iter_keeps _ _ _ Hfr Hcur Hit) as (Hfr1 & Hcur1 & Ht1 & Hd1 & Hr1).
    intros Hloop. destruct (IH _ _ Hfr1 Hcur1 Hloop) as (Hfr' & Hcur' & Ht' & Hd' & Hr' & Hp').
    repeat split; try assumption; congruence.
  - intros [= <-]. apply Nat.ltb_ge in Hin. repeat split; assumption.
Qed.

(** X21.  The parser keeps track of its stack.  When the main loop
    ends without an exception it has read the whole source, every frame
    on the stack carries the path made of the names of the frames below
    it and its own, separated by semicolons, and the current frame is
    the top of the stack, or [null] (before the first group, the empty
    object) when the stack is empty; the source and the registered
    handlers are as before.  Groups left open at the end of the source
    are no error: their frames stay on the stack. *)
Theorem Document_keeps_stack (fuel : nat) (p p' : RtfParser) :
  frames_ok (stk p) -> current_ok p ->
  Document fuel false p = Done p' ->
  frames_ok (stk p') /\ current_ok p' /\
  txt p' = txt p /\ dhd p' = dhd p /\ dhr p' = dhr p /\
  (String.length (txt p') <= pos p')%nat.
Proof.
  intros Hfr Hcur. unfold Document. cbn [orb].
  destruct (pos p =? String.length (txt p))%nat eqn:E.
  - intros [= <-]. apply Nat.eqb_eq in E. repeat split; try assumption. lia.
  - apply Document_loop_keeps; assumption.
Qed.

End Stack.

Lemma Document_keeps_stack_witness :
  let p0 := @new_parser demo_host "{\rtf1{\b x" tt in
  let p1 := fst (HandleDest p0 (DString "rtf") 7%nat) in
  let p := fst (HandleDest p1 (DString "b") 8%nat) in
  match @Document demo_host demo_calls 20 false p with
  | Done p' =>
      frames_ok (stk p') /\ current_ok p' /\
      txt p' = txt p /\ dhd p' = dhd p /\ dhr p' = dhr p /\
      (String.length (txt p') <= pos p')%nat
  | _ => False
  end.
Proof.
  intros p0 p1 p.
  destruct (@Document demo_host demo_calls 20 false p) as [p'| |] eqn:E.
  - apply (@Document_keeps_stack demo_host demo_calls 20 p p'); [| |exact E].
    + intros k f Hk. destruct k; discriminate Hk.
    + left. reflexivity.
  - vm_compute in E. discriminate E.
  - vm_compute in E. discriminate E.
Defined.

(** ** The colour table *)

Section Colors.
Import Basic.

Lemma HandleColorTable_step (s : string) (t : Z) (i : nat) (st : ColorState)
      (cs : list Color) :
  color_inv st cs ->
  match HandleColorTable t s i st with
  | inr st' => color_inv st' (table_step s cs (t, i))
  | inl e => exists txt, e = UnrecognizedToken txt
  end.
Proof.
  intros (Hheap & Hne & Hdoc & Hcol).
  unfold HandleColorTable, table_step.
  change (JS.band (JS.shr t 8) 7) with (RtfTkTyp t).
  destruct (t =? 513) eqn:E513.
  { apply Z.eqb_eq in E513. subst t. rewrite Hdoc.
    change (RtfTkTyp 513 =? DATA) with false. change (RtfTkTyp 513 =? CONTROL) with false.
    repeat split; assumption. }
  destruct (t =? 769) eqn:E769.
  { apply Z.eqb_eq in E769. subst t.
    change (RtfTkTyp 769 =? DATA) with false. change (RtfTkTyp 769 =? CONTROL) with false.
    repeat split; assumption. }
  unfold DATA, CONTROL.
  destruct (RtfTkTyp t =? 1) eqn:E1.
  { destruct (String.eqb ";" (RtfTkTxt t s i)); [|repeat split; assumption].
    rewrite Hdoc, Hheap. unfold color_inv. cbn [heap doc_colors o_color].
    rewrite length_app. cbn [length].
    split; [reflexivity|]. split; [intros E; apply app_eq_nil in E as [_ E]; discriminate|].
    split; [|f_equal; lia].
    f_equal. replace (length cs + 1)%nat with (S (length cs)) by lia.
    rewrite seq_S. reflexivity. }
  destruct (RtfTkTyp t =? 6) eqn:E6; cbn [negb]; [|repeat split; assumption].
  assert (Hset : forall f, color_inv (MkColorState (alter f (length cs - 1)%nat (heap st))
                                                   (doc_colors st) (Some (length cs - 1)%nat))
                                     (alter f (length cs - 1)%nat cs)).
  { intros f. unfold color_inv. cbn [heap doc_colors o_color].
    rewrite length_alter, Hheap. split; [reflexivity|].
    split; [|split; [assumption | reflexivity]].
    intros E. apply Hne. apply (f_equal length) in E. rewrite length_alter in E.
    destruct cs; [reflexivity | discriminate]. }
  unfold set_field. rewrite Hcol. cbv zeta.
  destruct (ctl_is (RtfTkCtl t s i) "red"); [apply Hset|].
  destruct (ctl_is (RtfTkCtl t s i) "green"); [apply Hset|].
  destruct (ctl_is (RtfTkCtl t s i) "blue"); [apply Hset|].
  eexists. reflexivity.
Qed.

Lemma color_calls_inv (s : string) (evs : list (Z * nat)) :
  forall (st : ColorState) (cs : list Color),
    color_inv st cs ->
    match color_calls s evs st with
    | inr st' => color_inv st' (fold_left (table_step s) evs cs)
    | inl e => exists txt, e = UnrecognizedToken txt
    end.
Proof.
  induction evs as [|[t i] evs IH]; intros st cs Hinv; cbn [color_calls fold_left];
    [exact Hinv|].
  pose proof (HandleColorTable_step s t i st cs Hinv) as Hstep.
  destruct (HandleColorTable t s i st) as [e|st1]; [exact Hstep|].
  apply IH. exact Hstep.
Qed.

Lemma lookup_all {A : Type} (l : list A) : map (fun k => l !! k) (seq 0 (length l)) = map Some l.
Proof.
  apply list_eq. intros k. rewrite !list_lookup_fmap.
  destruct (decide (k < length l)%nat) as [Hlt | Hge].
  - rewrite lookup_seq_lt by exact Hlt. cbn [fmap option_fmap option_map Nat.add].
    destruct (lookup_lt_is_Some_2 l k Hlt) as [x Hx]. rewrite Hx. reflexivity.
  - rewrite lookup_seq_ge by lia. rewrite lookup_ge_None_2 by lia. reflexivity.
Qed.

Lemma table_length (s : string) (evs : list (Z * nat)) :
  forall cs,
    length (fold_left (table_step s) evs cs)
    = (length cs
       + length (List.filter (fun ev => (RtfTkTyp (fst ev) =? DATA)%Z
                                   && String.eqb ";" (RtfTkTxt (fst ev) s (snd ev))) evs))%nat.
Proof.
  induction evs as [|[t i] evs IH]; intros cs; cbn [fold_left List.filter length]; [lia|].
  rewrite IH. unfold table_step. cbn [fst snd].
  destruct (RtfTkTyp t =? DATA).
  - destruct (String.eqb ";" (RtfTkTxt t s i)); cbn [andb length].
    + rewrite length_app. cbn [length]. lia.
    + lia.
  - cbn [andb].
    destruct (RtfTkTyp t =? CONTROL); [|lia].
    destruct (ctl_is _ _); [rewrite length_alter; lia|].
    destruct (ctl_is _ _); [rewrite length_alter; lia|].
    destruct (ctl_is _ _); [rewrite length_alter; lia|]. lia.
Qed.

(** X22.  The colour table handler.  Called for the open brace of a
    colour table in a document that has none yet and then for the
    tokens of the table, [HandleColorTable] leaves in [doc.colors] the
    colours that the text of the table says: one more than there are
    [;] text tokens, each with the components that [\red], [\green] and
    [\blue] gave it after the [;] before it, and zero where none was
    given.  The shared objects behind [o.color] never let a later token
    change an earlier colour.  The only exception it can throw is the
    one for an unrecognized control word. *)
Theorem color_table_of_calls (s : string) (bps : nat) (evs : list (Z * nat)) :
  match color_calls s ((513, bps) :: evs) (MkColorState [] None None) with
  | inr st => colors_of st = Some (map Some (color_table s evs))
  | inl e => exists txt, e = UnrecognizedToken txt
  end /\
  length (color_table s evs)
  = S (length (List.filter (fun ev => (RtfTkTyp (fst ev) =? DATA)
                                 && String.eqb ";" (RtfTkTxt (fst ev) s (snd ev))) evs)).
Proof.
  split; [|unfold color_table; rewrite table_length; reflexivity].
  cbn [color_calls]. change (HandleColorTable 513 s bps (MkColorState [] None None))
    with (@inr ColorError _ (MkColorState [zero_color] (Some [0%nat]) (Some 0%nat))).
  cbv iota. set (st0 := MkColorState [zero_color] (Some [0%nat]) (Some 0%nat)).
  assert (Hinv : color_inv st0 [zero_color]) by (repeat split; discriminate).
  pose proof (color_calls_inv s evs _ _ Hinv) as Hrun.
  destruct (color_calls s evs st0) as [e|st]; [exact Hrun|].
  destruct Hrun as (Hheap & _ & Hdoc & _).
  fold (color_table s evs) in Hheap, Hdoc.
  unfold colors_of. rewrite Hdoc. f_equal.
  rewrite <- Hheap. apply lookup_all.
Qed.

End Colors.

(** ** Destinations that are plain text *)

Lemma substring_split0 (n m : nat) (s : string) :
  String.substring 0 (n + m) s = (String.substring 0 n s ++ String.substring n m s)%string.
Proof.
  revert s; induction n as [|n IH]; intros s; cbn [Nat.add].
  - destruct s; [destruct m|]; reflexivity.
  - destruct s as [|c s]; [reflexivity|].
    cbn [String.substring]. rewrite IH, append_cons. reflexivity.
Qed.

Lemma substring_split (a n m : nat) (s : string) :
  String.substring a (n + m) s
  = (String.substring a n s ++ String.substring (a + n) m s)%string.
Proof.
  revert s; induction a as [|a IH]; intros s; [apply substring_split0|].
  destruct s as [|c s]; cbn [String.substring Nat.add]; [|apply IH].
  destruct (n + m)%nat, n; reflexivity.
Qed.

Lemma substring_none (a : nat) (s : string) : String.substring a 0 s = EmptyString.
Proof.
  revert s; induction a as [|a IH]; intros [|c s]; cbn [String.substring];
    try reflexivity. apply IH.
Qed.

Lemma lexes_forward (s : string) (i j : nat) (tks : list Z) :
  Skip.lexes s i tks j -> (i <= j)%nat.
Proof. induction 1; lia. Qed.

Lemma concat_empty_sep (x : string) (xs : list string) :
  String.concat "" (x :: xs) = (x ++ String.concat "" xs)%string.
Proof.
  destruct xs as [|y xs]; cbn [String.concat]; [|rewrite append_nil; reflexivity].
  induction x as [|c x IH]; [reflexivity|]. rewrite append_cons, <- IH. reflexivity.
Qed.

Section PcData.
Import Basic.

(** The texts of the tokens of a scan make up the text it went over. *)
Lemma lexes_text (s : string) (i j : nat) (tks : list Z) :
  Skip.lexes s i tks j ->
  String.concat "" (map (fun ev => RtfTkTxt (fst ev) s (snd ev)) (events i tks))
  = JS.substr s i (j - i).
Proof.
  induction 1 as [i | i tk tks j Hlt Htk Hrest IH]; cbn [events map].
  - replace (i - i)%nat with 0%nat by lia. unfold JS.substr.
    rewrite substring_none. reflexivity.
  - rewrite concat_empty_sep. cbn [fst snd]. rewrite IH.
    pose proof (lexes_forward _ _ _ _ Hrest) as Hle.
    unfold RtfTkTxt, JS.substr.
    change (JS.band tk 255) with (RtfTkLen tk).
    replace (j - i)%nat with (Z.to_nat (RtfTkLen tk) + (j - (i + Z.to_nat (RtfTkLen tk))))%nat
      by lia.
    symmetry. apply substring_split.
Qed.

Lemma pc_calls_data (G : Pkg.Hooks) (ctl : string) (s : string) (evs : list (Z * nat)) :
  Forall (fun ev => RtfTkTyp (fst ev) = DATA) evs ->
  forall (d : list string) (parent : option (gmap string string)),
    pc_calls G ctl s evs (MkPcState (Some d) parent)
    = inr (MkPcState (Some (d ++ map (fun ev => RtfTkTxt (fst ev) s (snd ev)) evs)) parent).
Proof.
  induction 1 as [|[t i] evs Ht Hevs IH]; intros d parent; cbn [pc_calls map].
  - rewrite app_nil_r. reflexivity.
  - cbn [fst snd] in Ht |- *. unfold HandlePcData.
    assert (H513 : (t =? 513) = false)
      by (apply Z.eqb_neq; intros ->; vm_compute in Ht; discriminate).
    assert (H769 : (t =? 769) = false)
      by (apply Z.eqb_neq; intros ->; vm_compute in Ht; discriminate).
    rewrite H513, H769. cbv zeta. rewrite Ht. change (negb (DATA =? 1)) with false.
    cbn [o_dat pfrm]. rewrite IH, <- app_assoc. reflexivity.
Qed.

Lemma events_data (i : nat) (tks : list Z) :
  Forall (fun t => RtfTkTyp t = DATA) tks ->
  Forall (fun ev => RtfTkTyp (fst ev) = DATA) (events i tks).
Proof.
  intros H; revert i; induction H as [|t tks Ht Htks IH]; intros i; cbn [events];
    constructor; [exact Ht | apply IH].
Qed.

Lemma pc_calls_app (G : Pkg.Hooks) (ctl : string) (s : string) (evs1 evs2 : list (Z * nat))
      (st st1 : PcState) :
  pc_calls G ctl s evs1 st = inr st1 ->
  pc_calls G ctl s (evs1 ++ evs2) st = pc_calls G ctl s evs2 st1.
Proof.
  revert st; induction evs1 as [|[t i] evs1 IH]; intros st; cbn [pc_calls app].
  - intros [= ->]. reflexivity.
  - destruct (HandlePcData G ctl t s i st) as [e|st']; [discriminate | apply IH].
Qed.

(** X23.  The plain-text handler.  Called for the open brace of a
    destination, for the text tokens that follow one another from the
    offset [a] to the offset [b], and for the close brace there,
    [HandlePcData] sets the property named by the destination on the
    frame below to the text of the source from [a] to [b], however many
    tokens it came in; where [dtrace] is not defined, as in the module
    on its own, the call for the close brace then ends in a
    [ReferenceError], the property being set all the same.  (Under the
    name [__proto__], which no control word has, the assignment sets
    nothing.)  When the stack holds no frame below, that call ends in a
    [TypeError]. *)
Theorem PcData_text (G : Pkg.Hooks) (ctl : string) (s : string) (bps a b : nat)
        (tks : list Z) (parent : option (gmap string string)) :
  Skip.lexes s a tks b ->
  Forall (fun t => RtfTkTyp t = DATA) tks ->
  pc_calls G ctl s ((513, bps) :: events a tks ++ [(769, b)]) (MkPcState None parent)
  = match parent with
    | Some props =>
        let st := MkPcState (Some (map (fun ev => RtfTkTxt (fst ev) s (snd ev))
                                       (events a tks)))
                            (Some (if String.eqb ctl "__proto__" then props
                                   else <[ctl := JS.substr s a (b - a)]> props)) in
        if Pkg.has_dtrace G then inr st else inl (PcNotDefined st)
    | None => inl PcTypeError
    end.
Proof.
  intros Hlex Hdata.
  cbn [pc_calls]. change (HandlePcData G ctl 513 s bps (MkPcState None parent))
    with (@inr PcError _ (MkPcState (Some []) parent)).
  cbv iota.
  rewrite (pc_calls_app G ctl s (events a tks) [(769, b)] _ _
             (pc_calls_data G ctl s _ (events_data a tks Hdata) [] parent)).
  cbn [app pc_calls]. unfold HandlePcData.
  change (769 =? 513) with false. change (769 =? 769) with true. cbv iota.
  cbn [pfrm o_dat]. destruct parent as [props|]; [|reflexivity].
  cbv zeta. rewrite (lexes_text s a b tks Hlex).
  destruct (Pkg.has_dtrace G); reflexivity.
Qed.

End PcData.

Lemma PcData_text_witness :
  Basic.pc_calls Pkg.all_hooks "objclass" "{\objclass Package}"
                 [(513, 0%nat); (257 + 6, 11%nat); (769, 18%nat)]
                 (Basic.MkPcState None (Some ∅))
  = inr (Basic.MkPcState (Some ["Package"%string])
                         (Some (<["objclass"%string := "Package"%string]> ∅))) /\
  Basic.pc_calls Pkg.no_hooks "objclass" "{\objclass Package}"
                 [(513, 0%nat); (257 + 6, 11%nat); (769, 18%nat)]
                 (Basic.MkPcState None (Some ∅))
  = inl (Basic.PcNotDefined
           (Basic.MkPcState (Some ["Package"%string])
                            (Some (<["objclass"%string := "Package"%string]> ∅)))).
Proof.
  split.
  - apply (PcData_text Pkg.all_hooks "objclass" "{\objclass Package}" 0 11 18
                       [GetRtfTk "{\objclass Package}" 11] (Some ∅)).
    + eapply Skip.lexes_cons; [vm_compute; lia | reflexivity | apply Skip.lexes_nil].
    + constructor; [reflexivity | constructor].
  - apply (PcData_text Pkg.no_hooks "objclass" "{\objclass Package}" 0 11 18
                       [GetRtfTk "{\objclass Package}" 11] (Some ∅)).
    + eapply Skip.lexes_cons; [vm_compute; lia | reflexivity | apply Skip.lexes_nil].
    + constructor; [reflexivity | constructor].
Defined.

(** ** The character of a token *)

Lemma type_mask (t : Z) : JS.band t 1792 = 256 * RtfTkTyp t.
Proof.
  pose proof (RtfTkTyp_range t) as Hr.
  replace (256 * RtfTkTyp t) with (Z.shiftl (RtfTkTyp t) 8)
    by (rewrite Z.shiftl_mul_pow2 by lia; change (2 ^ 8) with 256; lia).
  unfold JS.band. change (JS.toInt32 1792) with 1792.
  apply Z.bits_inj'. intros n Hn.
  rewrite Z.land_spec, bits_1792, Z.shiftl_spec by lia.
  destruct (Z_lt_dec n 8) as [Hlow | Hge].
  - rewrite (Z.testbit_neg_r (RtfTkTyp t) (n - 8)) by lia.
    replace (n =? 8) with false by lia. replace (n =? 9) with false by lia.
    replace (n =? 10) with false by lia. apply andb_false_r.
  - destruct (Z_lt_dec n 11) as [Hin | Hhigh].
    + rewrite RtfTkTyp_bit by lia. replace (n - 8 + 8) with n by lia.
      replace ((n =? 8) || (n =? 9) || (n =? 10)) with true by lia.
      apply andb_true_r.
    + rewrite (small_bits (RtfTkTyp t) 3 (n - 8)) by (change (2 ^ 3) with 8; lia).
      replace (n =? 8) with false by lia. replace (n =? 9) with false by lia.
      replace (n =? 10) with false by lia. apply andb_false_r.
Qed.

Lemma RtfTkChr_value (t v : Z) :
  RtfTkTyp t = SYMBOL \/ RtfTkTyp t = CHARACTER ->
  RtfTkVal t = Some v -> RtfTkChr t = Some (v mod 65536).
Proof.
  intros Hty Hv. unfold RtfTkChr. rewrite type_mask.
  unfold RtfTkVal in Hv. destruct (JS.shr t 31 =? 0); [discriminate|].
  injection Hv as <-.
  unfold SYMBOL, CHARACTER in Hty.
  destruct Hty as [-> | ->]; reflexivity.
Qed.

Lemma hex_pair (d1 d2 : Z) :
  0 <= d1 < 16 -> 0 <= d2 < 16 -> Z.lor (Z.shiftl d1 4) d2 = 16 * d1 + d2.
Proof.
  intros H1 H2.
  pose (P := fun c => Z.lor (Z.shiftl (c / 16) 4) (c mod 16) =? c).
  assert (HP : P (16 * d1 + d2) = true) by (apply byte_cases; [vm_compute; reflexivity | lia]).
  unfold P in HP.
  replace ((16 * d1 + d2) / 16) with d1 in HP by (apply Z.div_unique with d2; lia).
  replace ((16 * d1 + d2) mod 16) with d2 in HP by (apply Z.mod_unique with d1; lia).
  lia.
Qed.

(** X24.  [RtfTkChr] answers [null] exactly for the tokens that are
    neither a symbol nor a character.  For the symbol token of a
    backslash and a byte it answers that byte.  For the character token
    of [\'HH] it answers the code of the two digits plus 32768, not the
    code itself: the token holds the code without the offset that the
    accessor takes off. *)
Theorem RtfTkChr_of_token :
  (forall t, RtfTkChr t = None <-> RtfTkTyp t <> SYMBOL /\ RtfTkTyp t <> CHARACTER) /\
  (forall s i c,
      JS.charCodeAt s i = Some 92 -> JS.charCodeAt s (S i) = Some c ->
      ~ (97 <= c <= 122) -> c <> 42 -> c <> 39 ->
      RtfTkChr (GetRtfTk s i) = Some c) /\
  (forall s i h1 h2 d1 d2,
      JS.charCodeAt s i = Some 92 -> JS.charCodeAt s (S i) = Some 39 ->
      JS.charCodeAt s (S i + 1) = Some h1 -> JS.charCodeAt s (S i + 2) = Some h2 ->
      hexdigit (Some h1) = Some d1 -> hexdigit (Some h2) = Some d2 ->
      RtfTkChr (GetRtfTk s i) = Some (16 * d1 + d2 + 32768)).
Proof.
  split; [|split].
  - intros t. unfold RtfTkChr. rewrite type_mask.
    pose proof (RtfTkTyp_range t) as Hr. unfold SYMBOL, CHARACTER.
    destruct (256 * RtfTkTyp t =? 1792) eqn:E7;
      [apply Z.eqb_eq in E7 | apply Z.eqb_neq in E7];
      (destruct (256 * RtfTkTyp t =? 1280) eqn:E5;
       [apply Z.eqb_eq in E5 | apply Z.eqb_neq in E5]);
      cbn [negb andb]; (split; [intros X | intros [X5 X7]]);
      try discriminate X; try reflexivity; try (exfalso; lia); split; lia.
  - intros s i c H0 H1 Hlow Hstar Hapo.
    destruct (GetRtfTk_backslash_byte s i c H0 H1 Hlow Hstar Hapo) as (T & _ & V).
    rewrite (RtfTkChr_value _ c (or_introl T) V).
    pose proof (charCodeAt_drop _ _ _ H1) as (a & Ha & _).
    pose proof (code_range a) as Hc. rewrite Z.mod_small by lia. reflexivity.
  - intros s i h1 h2 d1 d2 H0 H1 H2 H3 E1 E2.
    pose proof (hexdigit_range _ _ E1) as R1. pose proof (hexdigit_range _ _ E2) as R2.
    rewrite (GetRtfTk_apostrophe s i h1 h2 H0 H1 H2 H3), E1, E2.
    destruct (character_fields d1 d2 R1 R2) as (T & _ & V).
    rewrite (RtfTkChr_value _ _ (or_intror T) V), hex_pair by assumption.
    f_equal. rewrite <- (Z_mod_plus_full _ 1 65536), Z.mod_small by lia. lia.
Qed.

Lemma RtfTkChr_of_token_witness :
  RtfTkChr (GetRtfTk "\'41" 0) = Some 32833 /\ RtfTkChr (GetRtfTk "\~" 0) = Some 126.
Proof.
  destruct RtfTkChr_of_token as (_ & Hsym & Hhex). split.
  - apply (Hhex "\'41"%string 0%nat 52 49 4 1); reflexivity.
  - apply (Hsym "\~"%string 0%nat 126); try reflexivity; lia.
Defined.

(** ** Control words of more than 16 letters *)

Lemma long_control_fields (k len : Z) :
  0 <= k < 256 -> 0 <= len < 256 ->
  let t := JS.bor (JS.bor (JS.shl k 11) 1536) len in
  RtfTkTyp t = CONTROL /\ RtfTkLen t = len /\ RtfTkVal t = None /\
  JS.band (JS.shr t 11) 15 = k mod 16 /\ (JS.band t 1792 =? 1536) = true.
Proof.
  intros Hk Hlen t.
  assert (Hbit : forall n, 0 <= n < 32 ->
            Z.testbit t n
            = (if n <? 11 then false else Z.testbit k (n - 11))
              || ((n =? 9) || (n =? 10)) || Z.testbit len n).
  { intros n Hn. unfold t. rewrite !bor_bit, bits_1536 by lia. f_equal. f_equal.
    destruct (n <? 11) eqn:E; [apply shl_bit_low | apply shl_bit_high]; lia. }
  assert (Hk' : forall n, 8 <= n -> Z.testbit k n = false)
    by (intros n Hn; apply (small_bits k 8); [change (2 ^ 8) with 256; lia | lia]).
  assert (Hl' : forall n, 8 <= n -> Z.testbit len n = false)
    by (intros n Hn; apply (small_bits len 8); [change (2 ^ 8) with 256; lia | lia]).
  assert (Htyp : RtfTkTyp t = CONTROL).
  { unfold RtfTkTyp. change 7 with (Z.ones 3). apply field_eq; try lia.
    - unfold CONTROL. change (2 ^ 3) with 8. lia.
    - intros n Hn. rewrite Hbit by lia.
      replace (n + 8 <? 11) with true by lia.
      rewrite Hl' by lia. rewrite !orb_false_r. cbn [orb].
      below n 3; reflexivity. }
  split; [exact Htyp|].
  split; [apply RtfTkLen_plain; exact Hlen|].
  split.
  { unfold RtfTkVal. rewrite shr31_zero, Hbit by lia.
    change (31 <? 11) with false. cbv iota.
    rewrite Hk', Hl' by lia. reflexivity. }
  split.
  { change 15 with (Z.ones 4). apply field_eq; try lia.
    - change (2 ^ 4) with 16. apply Z.mod_pos_bound. lia.
    - intros n Hn. rewrite Hbit by lia.
      replace (n + 11 <? 11) with false by lia.
      replace (n + 11 =? 9) with false by lia. replace (n + 11 =? 10) with false by lia.
      rewrite Hl' by lia. rewrite !orb_false_r.
      replace (n + 11 - 11) with n by lia.
      change 16 with (2 ^ 4). rewrite Z.mod_pow2_bits_low by lia. reflexivity. }
  rewrite type_mask, Htyp. reflexivity.
Qed.

Lemma substring_prefix (k : nat) (a b : string) :
  (k <= String.length a)%nat -> String.substring 0 k (a ++ b) = String.substring 0 k a.
Proof.
  revert a; induction k as [|k IH]; intros a Hk.
  - destruct a, b; reflexivity.
  - destruct a as [|c a]; [cbn [String.length] in Hk; lia|].
    rewrite append_cons. cbn [String.substring]. f_equal. apply IH.
    cbn [String.length] in Hk. lia.
Qed.

(** X25.  A control word of up to 253 letters without a parameter gives
    a token of kind [ControlWord] of the right length, but its name is
    cut: the token keeps the number of letters less 1 in four bits, so
    [RtfTkCtl] answers only the first [(n - 1) mod 16 + 1] of the [n]
    letters.  Up to 16 letters that is the whole name; of the 17 letters
    of [\listoverridetable] it is the first alone. *)
Theorem long_control_word_name (s : string) (i : nat) (name tail : string) :
  JS.drop i s = String "\" (name ++ tail) ->
  lowers name = true -> (1 <= String.length name <= 253)%nat ->
  JS.ge (JS.charCodeAt tail 0) 97 && JS.le (JS.charCodeAt tail 0) 122 = false ->
  JS.eq (JS.charCodeAt tail 0) 45
  || (JS.ge (JS.charCodeAt tail 0) 48 && JS.le (JS.charCodeAt tail 0) 57) = false ->
  let t := GetRtfTk s i in
  RtfTkTyp t = CONTROL /\
  RtfTkLen t = Z.of_nat (String.length name)
               + (if JS.eq (JS.charCodeAt tail 0) 32 then 2 else 1) /\
  RtfTkCtl t s i = Some (JS.substr name 0 (S ((String.length name - 1) mod 16))).
Proof.
  intros Hdrop Hlow Hn Hnl Hnd. cbv zeta.
  rewrite (GetRtfTk_plain s i name tail Hdrop Hlow ltac:(lia) Hnl Hnd). cbv zeta.
  destruct (drop_cons_inv _ _ _ _ Hdrop) as [_ Hd].
  set (n := Z.of_nat (String.length name)).
  set (len := if JS.eq (JS.charCodeAt tail 0) 32 then n + 2 else n + 1).
  assert (Hlen : 0 <= len < 256) by (unfold len, n; destruct (JS.eq _ 32); lia).
  destruct (long_control_fields (n - 1) len ltac:(unfold n; lia) Hlen) as (T & L & _ & K & C).
  split; [exact T|]. split; [rewrite L; unfold len; destruct (JS.eq _ 32); lia|].
  unfold RtfTkCtl. rewrite C, K. cbn [negb]. f_equal.
  assert (Hk : Z.to_nat (1 + (n - 1) mod 16) = S ((String.length name - 1) mod 16)).
  { unfold n. replace (Z.of_nat (String.length name) - 1)
      with (Z.of_nat (String.length name - 1)) by lia.
    change 16 with (Z.of_nat 16). rewrite <- Nat2Z.inj_mod. lia. }
  rewrite Hk. unfold JS.substr.
  replace (1 + i)%nat with (S i + 0)%nat by lia.
  rewrite substring_drop, Hd. apply substring_prefix.
  pose proof (Nat.Div0.mod_le (String.length name - 1) 16). lia.
Qed.

Lemma long_control_word_name_witness :
  let t := GetRtfTk "{\listoverridetable}" 1 in
  RtfTkTyp t = CONTROL /\ RtfTkLen t = 18 /\
  RtfTkCtl t "{\listoverridetable}" 1 = Some "l"%string.
Proof.
  apply (long_control_word_name "{\listoverridetable}" 1 "listoverridetable" "}");
    [reflexivity | reflexivity | cbn; lia | reflexivity | reflexivity].
Defined.

(** ** The version of the document *)

Section Handled.
Context `{HC : Calls}.

(** One turn of the main loop at the open brace of a destination that
    has handlers. *)
Lemma Document_iter_handled
      (fuel : nat) (p p1 : RtfParser) (ign : bool) (cpos : nat) (tok : Z)
      (dh : list Handler) :
  let open := GetRtfTk (txt p) (pos p) in
  let ctl := ctl_text (RtfTkCtl tok (txt p) cpos) in
  let pth := stack_path (stk p) ctl in
  let nfr := MkFrame _ tok cpos ctl pth dh in
  RtfTkTyp open = PUSH ->
  after_open (txt p) (pos p + Z.to_nat (RtfTkLen open)) = (ign, cpos, tok) ->
  RtfTkTyp tok = CONTROL ->
  Handlers (set_pos p cpos) ctl pth = (Resolved (Some dh), p1) ->
  Document_iter fuel p =
  match call_all dh open (txt p) (pos p) nfr (stk p ++ [nfr]) (world p) with
  | inl e => Throws (HandlerThrew e)
  | inr w =>
      Done (set_pos (set_world (set_stack p1 (stk p ++ [nfr]) (CurFrame nfr)) w)
                    (cpos + Z.to_nat (RtfTkLen tok)))
  end.
Proof.
  intros open ctl pth nfr Hopen Hafter Hctl Hres.
  destruct (Handlers_frame _ _ _ _ _ Hres) as (Htxt & Hpos & Hw & Hstk & _).
  cbn [txt pos world stk set_pos] in Htxt, Hpos, Hw, Hstk.
  unfold Document_iter.
  change (JS.band (JS.shr (GetRtfTk (txt p) (pos p)) 8) 7) with (RtfTkTyp open).
  rewrite Hopen. change (PUSH =? 2) with true. cbv iota.
  change (JS.band (GetRtfTk (txt p) (pos p)) 255) with (RtfTkLen open).
  rewrite Hafter.
  change (JS.band (JS.shr tok 8) 7) with (RtfTkTyp tok).
  rewrite Hctl. change (negb (CONTROL =? 6)) with false. cbv iota.
  change (txt (set_pos p cpos)) with (txt p).
  change (pos (set_pos p cpos)) with cpos.
  change (stk (set_pos p cpos)) with (stk p).
  fold ctl. fold pth. rewrite Hres.
  cbn [txt pos world stk set_stack set_world set_pos].
  rewrite Htxt, Hpos, Hw, Hstk. fold nfr.
  change (JS.band tok 255) with (RtfTkLen tok). reflexivity.
Qed.

End Handled.

Section Version.
Import Basic.
Variable W : Type.
Variable E : Type.
Variable others :
  BasicHandler -> Z -> string -> nat -> @Frame (basic_host W E) ->
  list (@Frame (basic_host W E)) -> Doc * W -> E + Doc * W.

(** X26.  The version of the document is the parameter of [\rtf].  On
    a source that begins with [{\rtf] and a number, the first turn of
    the main loop of a parser made by [new RtfParser(text)] pushes the
    frame of the destination [;rtf], whose only handler is
    [HandleMeta], calls it for the open brace, and so sets [doc.ver] to
    the number, leaving the rest of the meta data as it was; the cursor
    is then past the control word. *)
Theorem rtf_version (fuel : nat) (param rest : string) (w : Doc * W) (v : Z) :
  numeric param = true -> (1 <= String.length param <= 200)%nat ->
  JS.eq (JS.charCodeAt rest 0) 45
  || (JS.ge (JS.charCodeAt rest 0) 48 && JS.le (JS.charCodeAt rest 0) 57) = false ->
  JS.parseInt param = Some v -> -32768 <= v <= 32767 ->
  let text := ("{\rtf" ++ param ++ rest)%string in
  exists p',
    @Document_iter (basic_host W E) (basic_calls W E others) fuel (RtfParser_new W E text w)
    = Done p' /\
    fst (world p') = MkDoc (Some (Some v)) (d_charset (fst w)) (d_codepage (fst w))
                           (d_deff (fst w)) /\
    snd (world p') = snd w /\
    map f_pth (stk p') = [";rtf"%string] /\ map f_dh (stk p') = [[HMeta]] /\
    Z.of_nat (pos p')
    = 4 + Z.of_nat (String.length param)
      + match JS.charCodeAt rest 0 with
        | None => 0
        | Some r => if r =? 32 then 2 else 1
        end.
Proof.
  intros Hnum Hlen Hrest Hparse Hv text.
  set (p := RtfParser_new W E text w).
  assert (Htxt : txt p = text) by reflexivity.
  assert (Hpos : pos p = 0%nat) by reflexivity.
  assert (Hstk : stk p = []) by reflexivity.
  assert (Hworld : world p = w) by reflexivity.
  assert (Hne : param <> EmptyString) by (intros ->; cbn in Hlen; lia).
  pose proof (GetRtfTk_valued text 1 "rtf" param rest eq_refl eq_refl ltac:(cbn; lia)
                Hnum Hne Hrest) as Htok.
  set (tok := GetRtfTk text 1) in *.
  assert (Hfields : RtfTkTyp tok = CONTROL /\ RtfTkCtl tok text 1 = Some "rtf"%string /\
                    RtfTkVal tok = Some v /\
                    RtfTkLen tok = 3 + Z.of_nat (String.length param)
                                   + match JS.charCodeAt rest 0 with
                                     | None => 0
                                     | Some r => if r =? 32 then 2 else 1
                                     end).
  { rewrite Htok. change (Z.of_nat (String.length "rtf")) with 3.
    set (len := 3 + Z.of_nat (String.length param) + _).
    assert (Hl : 0 <= len < 256)
      by (unfold len; destruct (JS.charCodeAt rest 0) as [r|]; [destruct (r =? 32)|]; lia).
    destruct (valued_control_fields (JS.toInt32o (JS.add (JS.parseInt param) 32768))
                (3 - 1) len ltac:(lia) Hl) as (T & L & V & K & C).
    split; [exact T|]. split; [|split; [|exact L]].
    - unfold RtfTkCtl. rewrite C, K. cbn [negb]. f_equal.
      apply (substr_name text 1 "rtf" (param ++ rest)). reflexivity.
    - rewrite V, Hparse, add_small by lia. cbn [JS.toInt32o]. rewrite toInt32_mod16.
      f_equal. rewrite Z.mod_small by lia. lia. }
  destruct Hfields as (Htyp & Hctl & Hval & Hlen').
  assert (Hopen : GetRtfTk (txt p) (pos p) = 513) by reflexivity.
  assert (Hafter : after_open (txt p) (pos p + Z.to_nat (RtfTkLen (GetRtfTk (txt p) (pos p))))
                   = (false, 1%nat, tok)).
  { rewrite Hopen, Htxt, Hpos. change (0 + Z.to_nat (RtfTkLen 513))%nat with 1%nat.
    unfold after_open. fold tok.
    change (JS.band (JS.shr tok 8) 7) with (RtfTkTyp tok). rewrite Htyp. reflexivity. }
  set (p1 := set_cache (set_pos p 1) (<[";rtf"%string := Some [HMeta]]> ∅) 0 (0 + 1)).
  assert (Hres : @Handlers (basic_host W E) (set_pos p 1) "rtf" ";rtf"
                 = (@Resolved (basic_host W E) (Some [HMeta]), p1))
    by reflexivity.
  assert (Hpush : RtfTkTyp (GetRtfTk (txt p) (pos p)) = PUSH) by reflexivity.
  assert (Hres' : @Handlers (basic_host W E) (set_pos p 1)
                    (ctl_text (RtfTkCtl tok (txt p) 1))
                    (stack_path (stk p) (ctl_text (RtfTkCtl tok (txt p) 1)))
                  = (@Resolved (basic_host W E) (Some [HMeta]), p1)).
  { rewrite Htxt, Hctl, Hstk. exact Hres. }
  pose proof (@Document_iter_handled (basic_host W E) (basic_calls W E others)
                fuel p p1 false 1%nat tok [HMeta] Hpush Hafter Htyp Hres') as Hiter.
  cbv zeta in Hiter.
  rewrite Hiter. rewrite Hopen, Hpos, Hstk, Hworld, Htxt, Hctl.
  cbn [call_all app ctl_text].
  unfold call, basic_calls at 1. cbn [f_tok].
  unfold HandleMeta. change (513 =? 513) with true. cbv iota.
  eexists. split; [reflexivity|].
  cbn [world stk pos set_pos set_world set_stack set_cache fst snd map f_pth f_dh app].
  rewrite Hval.
  split; [reflexivity|]. split; [reflexivity|]. split; [reflexivity|].
  split; [reflexivity|].
  rewrite Hlen'.
  destruct (JS.charCodeAt rest 0) as [r|]; [destruct (r =? 32)|]; lia.
Qed.

End Version.

Lemma rtf_version_witness :
  exists p',
    @Document_iter (Basic.basic_host unit unit)
                   (Basic.basic_calls unit unit (fun _ _ _ _ _ _ w => inr w)) 5
                   (Basic.RtfParser_new unit unit "{\rtf1\ansi}"
                                        (Basic.MkDoc None None None None, tt))
    = Done p' /\
    fst (world p') = Basic.MkDoc (Some (Some 1)) None None None /\
    snd (world p') = tt /\
    map f_pth (stk p') = [";rtf"%string] /\ map f_dh (stk p') = [[Basic.HMeta]] /\
    Z.of_nat (pos p') = 6.
Proof.
  apply (rtf_version unit unit (fun _ _ _ _ _ _ w => inr w) 5 "1" "\ansi}"
                     (Basic.MkDoc None None None None, tt) 1);
    try reflexivity; cbn; lia.
Defined.

(** ** Meta data from control words *)

Section Meta.
Import Basic.

(** The token of a control word is never the token of an open brace. *)
Lemma control_is_not_open (t : Z) : RtfTkTyp t = CONTROL -> (t =? 513) = false.
Proof.
  intros T. apply Z.eqb_neq. intros ->. vm_compute in T. discriminate.
Qed.

(** The name and the value of a control word with a parameter in the
    range of the value field. *)
Lemma valued_word (s : string) (i : nat) (name param rest : string) (v : Z) :
  JS.drop i s = String "\" (name ++ param ++ rest) ->
  lowers name = true -> (1 <= String.length name <= 16)%nat ->
  numeric param = true -> (1 <= String.length param <= 200)%nat ->
  JS.eq (JS.charCodeAt rest 0) 45
  || (JS.ge (JS.charCodeAt rest 0) 48 && JS.le (JS.charCodeAt rest 0) 57) = false ->
  JS.parseInt param = Some v -> -32768 <= v <= 32767 ->
  RtfTkTyp (GetRtfTk s i) = CONTROL /\ RtfTkCtl (GetRtfTk s i) s i = Some name /\
  RtfTkVal (GetRtfTk s i) = Some v.
Proof.
  intros Hdrop Hlow Hn Hnum Hp Hrest Hparse Hv.
  assert (Hne : param <> EmptyString) by (intros ->; cbn in Hp; lia).
  rewrite (GetRtfTk_valued s i name param rest Hdrop Hlow ltac:(lia) Hnum Hne Hrest).
  destruct (drop_cons_inv _ _ _ _ Hdrop) as [_ Hd].
  set (len := Z.of_nat (String.length name) + Z.of_nat (String.length param) + _).
  assert (Hlen : 0 <= len < 256).
  { unfold len. destruct (JS.charCodeAt rest 0) as [r|]; [destruct (r =? 32)|]; lia. }
  destruct (valued_control_fields (JS.toInt32o (JS.add (JS.parseInt param) 32768))
              (Z.of_nat (String.length name) - 1) len ltac:(lia) Hlen)
    as (T & _ & V & K & C).
  split; [exact T|]. split.
  - unfold RtfTkCtl. rewrite C, K. cbn [negb].
    replace (Z.to_nat (1 + (Z.of_nat (String.length name) - 1))) with (String.length name) by lia.
    f_equal. eapply substr_name; eassumption.
  - rewrite V, Hparse, add_small by lia. cbn [JS.toInt32o]. rewrite toInt32_mod16.
    f_equal. rewrite Z.mod_small by lia. lia.
Qed.

(** X27.  [HandleMeta] on the token of one of the control words
    [\ansi], [\mac], [\pc] and [\pca], read from the source by
    [GetRtfTk], sets the character set of the document to the name of
    the control word and leaves the rest of the document as it is. *)
Theorem meta_charset (s : string) (i : nat) (name tail : string) (o_tok : Z) (doc : Doc) :
  JS.drop i s = String "\" (name ++ tail) ->
  In name ["ansi"; "mac"; "pc"; "pca"]%string ->
  JS.ge (JS.charCodeAt tail 0) 97 && JS.le (JS.charCodeAt tail 0) 122 = false ->
  JS.eq (JS.charCodeAt tail 0) 45
  || (JS.ge (JS.charCodeAt tail 0) 48 && JS.le (JS.charCodeAt tail 0) 57) = false ->
  HandleMeta (GetRtfTk s i) s i o_tok doc
  = MkDoc (d_ver doc) (Some name) (d_codepage doc) (d_deff doc).
Proof.
  intros Hdrop Hin Hnl Hnd.
  assert (Hlow : lowers name = true /\ (1 <= String.length name <= 16)%nat).
  { cbn [In] in Hin. destruct Hin as [<- | [<- | [<- | [<- | []]]]]; cbn; split; (reflexivity || lia). }
  destruct Hlow as [Hlow Hn].
  assert (Hf : RtfTkTyp (GetRtfTk s i) = CONTROL /\ RtfTkCtl (GetRtfTk s i) s i = Some name).
  { rewrite (GetRtfTk_plain s i name tail Hdrop Hlow ltac:(lia) Hnl Hnd). cbv zeta.
    destruct (drop_cons_inv _ _ _ _ Hdrop) as [_ Hd].
    destruct (plain_control_fields (Z.of_nat (String.length name)) ltac:(lia))
      as [(T1 & _ & _ & S1 & C1) (T2 & _ & _ & S2 & C2)].
    destruct (JS.eq (JS.charCodeAt tail 0) 32).
    - split; [exact T2|]. unfold RtfTkCtl. rewrite C2, S2. cbn [negb].
      replace (Z.to_nat (1 + (Z.of_nat (String.length name) - 1)))
        with (String.length name) by lia.
      f_equal. eapply substr_name; eassumption.
    - split; [exact T1|]. unfold RtfTkCtl. rewrite C1, S1. cbn [negb].
      replace (Z.to_nat (1 + (Z.of_nat (String.length name) - 1)))
        with (String.length name) by lia.
      f_equal. eapply substr_name; eassumption. }
  destruct Hf as [T C].
  unfold HandleMeta. rewrite (control_is_not_open _ T), C.
  cbn [In] in Hin. destruct Hin as [<- | [<- | [<- | [<- | []]]]]; reflexivity.
Qed.

(** X28.  [HandleMeta] on the token of [\ansicpgN] sets the code page of
    the document to N, and on the token of [\deffN] its default font,
    for a number N in -32768..32767; nothing else of the document
    changes. *)
Theorem meta_numbers (s : string) (i : nat) (name param rest : string)
        (o_tok : Z) (doc : Doc) (v : Z) :
  JS.drop i s = String "\" (name ++ param ++ rest) ->
  name = "ansicpg"%string \/ name = "deff"%string ->
  numeric param = true -> (1 <= String.length param <= 200)%nat ->
  JS.eq (JS.charCodeAt rest 0) 45
  || (JS.ge (JS.charCodeAt rest 0) 48 && JS.le (JS.charCodeAt rest 0) 57) = false ->
  JS.parseInt param = Some v -> -32768 <= v <= 32767 ->
  HandleMeta (GetRtfTk s i) s i o_tok doc
  = if String.eqb name "deff"
    then MkDoc (d_ver doc) (d_charset doc) (d_codepage doc) (Some (Some v))
    else MkDoc (d_ver doc) (d_charset doc) (Some (Some v)) (d_deff doc).
Proof.
  intros Hdrop Hname Hnum Hp Hrest Hparse Hv.
  assert (Hlow : lowers name = true /\ (1 <= String.length name <= 16)%nat)
    by (destruct Hname as [-> | ->]; cbn; split; (reflexivity || lia)).
  destruct Hlow as [Hlow Hn].
  destruct (valued_word s i name param rest v Hdrop Hlow Hn Hnum Hp Hrest Hparse Hv)
    as (T & C & V).
  unfold HandleMeta. rewrite (control_is_not_open _ T), C, V.
  destruct Hname as [-> | ->]; reflexivity.
Qed.

End Meta.

Lemma meta_charset_witness :
  Basic.HandleMeta (GetRtfTk "{\rtf1\ansi\deff0}" 6) "{\rtf1\ansi\deff0}" 6 0
                   (Basic.MkDoc (Some (Some 1)) None None None)
  = Basic.MkDoc (Some (Some 1)) (Some "ansi"%string) None None.
Proof.
  apply (meta_charset "{\rtf1\ansi\deff0}" 6 "ansi" "\deff0}");
    [reflexivity | cbn; tauto | reflexivity | reflexivity].
Defined.

Lemma meta_numbers_witness :
  Basic.HandleMeta (GetRtfTk "{\rtf1\ansi\ansicpg1252}" 11) "{\rtf1\ansi\ansicpg1252}" 11 0
                   (Basic.MkDoc (Some (Some 1)) (Some "ansi"%string) None None)
  = Basic.MkDoc (Some (Some 1)) (Some "ansi"%string) (Some (Some 1252)) None.
Proof.
  apply (meta_numbers "{\rtf1\ansi\ansicpg1252}" 11 "ansicpg" "1252" "}");
    [reflexivity | left; reflexivity | reflexivity | cbn; lia | reflexivity
    | reflexivity | lia].
Defined.

(** ** Escaped text *)

Section Escaping.
Import Html.

(** Induction on a text two characters at a time. *)
Lemma string_pair_ind (P : string -> Prop) :
  P EmptyString -> (forall a, P (String a EmptyString)) ->
  (forall a b s, P s -> P (String b s) -> P (String a (String b s))) ->
  forall s, P s.
Proof.
  intros H0 H1 H2 s.
  enough (H : P s /\ forall a, P (String a s)) by apply H.
  induction s as [|b s [IHs IHc]].
  - split; [exact H0 | exact H1].
  - split; [apply IHc|]. intros a. apply H2; [exact IHs | apply IHc].
Qed.

Lemma replace_blanks_pair (r : string) (a b : ascii) (s : string) :
  replace_blanks r (String a (String b s))
  = if Ascii.eqb a " " && Ascii.eqb b " "
    then (r ++ replace_blanks r s)%string
    else String a (replace_blanks r (String b s)).
Proof. reflexivity. Qed.

Lemma has_app (c : ascii) (a b : string) : has c (a ++ b) = has c a || has c b.
Proof.
  induction a as [|x a IH]; [reflexivity|].
  rewrite append_cons. cbn [has]. rewrite IH. apply orb_assoc.
Qed.

Lemma replace_char_has (c d : ascii) (r s : string) :
  has c r = false -> (d = c \/ has c s = false) -> has c (replace_char d r s) = false.
Proof.
  intros Hr Hs. induction s as [|a s IH]; [reflexivity|].
  cbn [replace_char]. destruct (Ascii.eqb a d) eqn:Ead.
  - rewrite has_app, Hr. apply IH.
    destruct Hs as [-> | Hs]; [left; reflexivity | right].
    cbn [has] in Hs. apply orb_false_elim in Hs. apply Hs.
  - cbn [has]. destruct Hs as [-> | Hs].
    + rewrite Ead. apply IH. left; reflexivity.
    + cbn [has] in Hs. apply orb_false_elim in Hs as [-> Hs]. apply IH. right; exact Hs.
Qed.

Lemma replace_blanks_has (c : ascii) (r s : string) :
  has c r = false -> has c s = false -> has c (replace_blanks r s) = false.
Proof.
  intros Hr. induction s as [|a|a b s IH1 IH2] using string_pair_ind; intros Hs.
  - reflexivity.
  - exact Hs.
  - rewrite replace_blanks_pair.
    cbn [has] in Hs. apply orb_false_elim in Hs as [Ha Hs].
    destruct (Ascii.eqb a " " && Ascii.eqb b " ").
    + rewrite has_app, Hr. apply IH1.
      cbn [has] in Hs. apply orb_false_elim in Hs. apply Hs.
    + cbn [has]. rewrite Ha. apply IH2. exact Hs.
Qed.

(** After the blanks are replaced no two blanks are left in a row, and
    the text begins with a blank only if it did before. *)
Lemma replace_blanks_none (s : string) :
  has_blanks (replace_blanks " &nbsp;" s) = false /\
  starts_blank (replace_blanks " &nbsp;" s) = starts_blank s.
Proof.
  induction s as [|a|a b s IH1 IH2] using string_pair_ind.
  - split; reflexivity.
  - split; [|reflexivity]. cbn [replace_blanks has_blanks starts_blank].
    rewrite andb_false_r. reflexivity.
  - rewrite replace_blanks_pair.
    destruct (Ascii.eqb a " ") eqn:Ea; cbn [andb].
    + destruct (Ascii.eqb b " ") eqn:Eb.
      * repeat rewrite append_cons. rewrite append_nil.
        cbn [has_blanks starts_blank]. rewrite Ea.
        split; [|reflexivity]. apply IH1.
      * cbn [has_blanks starts_blank]. rewrite Ea.
        destruct IH2 as [-> ->]. cbn [starts_blank]. rewrite Eb.
        split; reflexivity.
    + cbn [has_blanks starts_blank]. rewrite Ea.
      destruct IH2 as [-> _]. split; reflexivity.
Qed.

(** The characters of markup are gone once they are replaced: none of
    the later replacements brings one back. *)
Lemma esc_markup (s : string) :
  has "<" (esc_ s) = false /\ has ">" (esc_ s) = false /\ has quote (esc_ s) = false.
Proof.
  unfold esc_.
  set (s1 := replace_char "&" "&amp;" s).
  set (s2 := replace_char "<" "&lt;" s1).
  set (s3 := replace_char ">" "&gt;" s2).
  assert (H2 : has "<" s2 = false)
    by (apply replace_char_has; [reflexivity | left; reflexivity]).
  assert (H3 : has "<" s3 = false /\ has ">" s3 = false).
  { split; apply replace_char_has; try reflexivity; [right; exact H2 | left; reflexivity]. }
  destruct H3 as [H3l H3g].
  split; [|split].
  - apply replace_blanks_has; [reflexivity|].
    apply replace_char_has; [reflexivity | right; exact H3l].
  - apply replace_blanks_has; [reflexivity|].
    apply replace_char_has; [reflexivity | right; exact H3g].
  - apply replace_blanks_has; [reflexivity|].
    apply replace_char_has; [reflexivity | left; reflexivity].
Qed.

(** X29.  The text that [esc_] returns holds no ['<'], no ['>'] and no
    double quote, and nowhere two blanks in a row, whatever the text it
    was given. *)
Theorem esc_output (s : string) :
  has "<" (esc_ s) = false /\ has ">" (esc_ s) = false /\
  has quote (esc_ s) = false /\ has_blanks (esc_ s) = false.
Proof.
  destruct (esc_markup s) as (Hl & Hg & Hq).
  split; [exact Hl|]. split; [exact Hg|]. split; [exact Hq|].
  unfold esc_. apply replace_blanks_none.
Qed.

Lemma length_app (a b : string) :
  String.length (a ++ b) = (String.length a + String.length b)%nat.
Proof.
  induction a as [|x a IH]; [reflexivity|].
  rewrite append_cons. cbn [String.length]. rewrite IH. reflexivity.
Qed.

(** A replacement by a text of two characters or more makes the text
    longer when there is something to replace. *)
Lemma replace_char_length (c : ascii) (r s : string) :
  (2 <= String.length r)%nat ->
  (String.length s <= String.length (replace_char c r s))%nat /\
  (has c s = true -> (String.length s < String.length (replace_char c r s))%nat).
Proof.
  intros Hr. induction s as [|a s [IH1 IH2]]; [split; [reflexivity | discriminate]|].
  cbn [replace_char has]. destruct (Ascii.eqb a c); cbn [orb].
  - rewrite length_app. cbn [String.length]. split; [lia | intros _; lia].
  - cbn [String.length]. split; [lia | intros H; apply IH2 in H; lia].
Qed.

Lemma replace_blanks_length (r s : string) :
  (2 <= String.length r)%nat ->
  (String.length s <= String.length (replace_blanks r s))%nat.
Proof.
  intros Hr. induction s as [|a|a b s IH1 IH2] using string_pair_ind.
  - reflexivity.
  - reflexivity.
  - rewrite replace_blanks_pair. destruct (Ascii.eqb a " " && Ascii.eqb b " ").
    + rewrite length_app. cbn [String.length]. lia.
    + cbn [String.length] in *. lia.
Qed.

Lemma replace_char_absent (c : ascii) (r s : string) :
  has c s = false -> replace_char c r s = s.
Proof.
  induction s as [|a s IH]; [reflexivity|].
  cbn [has replace_char]. intros H. apply orb_false_elim in H as [-> H].
  rewrite (IH H). reflexivity.
Qed.

Lemma replace_blanks_absent (r s : string) :
  has_blanks s = false -> replace_blanks r s = s.
Proof.
  induction s as [|a|a b s IH1 IH2] using string_pair_ind; intros H.
  - reflexivity.
  - reflexivity.
  - rewrite replace_blanks_pair. cbn [has_blanks starts_blank] in H.
    apply orb_false_elim in H as [-> H].
    rewrite IH2; [reflexivity|]. exact H.
Qed.

(** What is to be replaced later is still there after an earlier
    replacement. *)
Lemma replace_char_keeps (c d : ascii) (r s : string) :
  c <> d -> has c s = true -> has c (replace_char d r s) = true.
Proof.
  intros Hcd. induction s as [|a s IH]; [discriminate|].
  cbn [has replace_char]. destruct (Ascii.eqb a d) eqn:Ead.
  - apply Ascii.eqb_eq in Ead. subst a.
    replace (Ascii.eqb d c) with false
      by (symmetry; apply Ascii.eqb_neq; congruence).
    cbn [orb]. intros H. rewrite has_app, (IH H). apply orb_true_r.
  - cbn [has]. destruct (Ascii.eqb a c); [reflexivity|]. cbn [orb]. exact IH.
Qed.

Lemma has_blanks_app (r s : string) :
  has_blanks s = true -> has_blanks (r ++ s) = true.
Proof.
  intros H. induction r as [|a r IH]; [exact H|].
  rewrite append_cons. cbn [has_blanks]. rewrite IH. apply orb_true_r.
Qed.

Lemma replace_char_keeps_blanks (d : ascii) (r s : string) :
  d <> " "%char ->
  (starts_blank s = true -> starts_blank (replace_char d r s) = true) /\
  (has_blanks s = true -> has_blanks (replace_char d r s) = true).
Proof.
  intros Hd. induction s as [|a s [IHs IHb]]; [split; discriminate|].
  cbn [starts_blank has_blanks replace_char].
  destruct (Ascii.eqb a d) eqn:Ead.
  - apply Ascii.eqb_eq in Ead. subst a.
    replace (Ascii.eqb d " ") with false by (symmetry; apply Ascii.eqb_neq; exact Hd).
    cbn [andb orb]. split; [discriminate|].
    intros H. apply has_blanks_app, IHb, H.
  - cbn [starts_blank has_blanks]. split; [exact (fun H => H)|].
    intros H. apply orb_true_iff in H as [H | H].
    + apply andb_prop in H as [-> H]. rewrite (IHs H). reflexivity.
    + rewrite (IHb H). apply orb_true_r.
Qed.

Lemma replace_blanks_longer (r s : string) :
  (3 <= String.length r)%nat -> has_blanks s = true ->
  (String.length s < String.length (replace_blanks r s))%nat.
Proof.
  intros Hr. induction s as [|a|a b s IH1 IH2] using string_pair_ind; intros H.
  - discriminate.
  - cbn [has_blanks starts_blank] in H. rewrite andb_false_r in H. discriminate.
  - rewrite replace_blanks_pair. cbn [has_blanks] in H. cbn [starts_blank] in H.
    destruct (Ascii.eqb a " " && Ascii.eqb b " ").
    + rewrite length_app. cbn [String.length].
      pose proof (replace_blanks_length r s ltac:(lia)). lia.
    + cbn [orb] in H. specialize (IH2 H). cbn [String.length] in *. lia.
Qed.

(** A text that holds something to replace comes back longer. *)
Lemma esc_longer (s : string) :
  has "&" s || has "<" s || has ">" s || has quote s || has_blanks s = true ->
  (String.length s < String.length (esc_ s))%nat.
Proof.
  intros H. unfold esc_.
  set (s1 := replace_char "&" "&amp;" s).
  set (s2 := replace_char "<" "&lt;" s1).
  set (s3 := replace_char ">" "&gt;" s2).
  set (s4 := replace_char quote "&quot;" s3).
  destruct (replace_char_length "&" "&amp;" s ltac:(cbn; lia)) as [L1 S1].
  destruct (replace_char_length "<" "&lt;" s1 ltac:(cbn; lia)) as [L2 S2].
  destruct (replace_char_length ">" "&gt;" s2 ltac:(cbn; lia)) as [L3 S3].
  destruct (replace_char_length quote "&quot;" s3 ltac:(cbn; lia)) as [L4 S4].
  pose proof (replace_blanks_length " &nbsp;" s4 ltac:(cbn; lia)) as L5.
  fold s1 in L1, S1. fold s2 in L2, S2. fold s3 in L3, S3. fold s4 in L4, S4.
  destruct (has "&" s) eqn:Ha; [specialize (S1 eq_refl); lia|].
  destruct (has "<" s) eqn:Hl.
  { assert (has "<" s1 = true) as K by (apply replace_char_keeps; [discriminate | exact Hl]).
    specialize (S2 K). lia. }
  destruct (has ">" s) eqn:Hg.
  { assert (has ">" s2 = true) as K
      by (repeat (apply replace_char_keeps; [discriminate|]); exact Hg).
    specialize (S3 K). lia. }
  destruct (has quote s) eqn:Hq.
  { assert (has quote s3 = true) as K
      by (repeat (apply replace_char_keeps; [discriminate|]); exact Hq).
    specialize (S4 K). lia. }
  cbn [orb] in H.
  assert (has_blanks s4 = true) as K.
  { repeat (apply replace_char_keeps_blanks; [discriminate|]). exact H. }
  pose proof (replace_blanks_longer " &nbsp;" s4 ltac:(cbn; lia) K). lia.
Qed.

(** X30.  [esc_] returns a text as it is exactly when the text holds no
    ['&'], ['<'], ['>'] or double quote and nowhere two blanks in a
    row; every other text comes back longer. *)
Theorem esc_unchanged (s : string) :
  (esc_ s = s <->
   has "&" s = false /\ has "<" s = false /\ has ">" s = false /\
   has quote s = false /\ has_blanks s = false) /\
  (esc_ s <> s -> (String.length s < String.length (esc_ s))%nat).
Proof.
  assert (Hfix : has "&" s = false /\ has "<" s = false /\ has ">" s = false /\
                 has quote s = false /\ has_blanks s = false -> esc_ s = s).
  { intros (Ha & Hl & Hg & Hq & Hb). unfold esc_.
    rewrite (replace_char_absent "&" _ s Ha), (replace_char_absent "<" _ s Hl),
      (replace_char_absent ">" _ s Hg), (replace_char_absent quote _ s Hq).
    apply replace_blanks_absent. exact Hb. }
  assert (Hcases : (has "&" s = false /\ has "<" s = false /\ has ">" s = false /\
                    has quote s = false /\ has_blanks s = false) \/
                   has "&" s || has "<" s || has ">" s || has quote s || has_blanks s = true).
  { destruct (has "&" s), (has "<" s), (has ">" s), (has quote s), (has_blanks s);
      (right; reflexivity) || (left; repeat split; reflexivity). }
  split; [split; [|exact Hfix]|].
  - intros H. destruct Hcases as [Hc | Hc]; [exact Hc|].
    pose proof (esc_longer s Hc) as Hlen. rewrite H in Hlen. lia.
  - intros Hne. destruct Hcases as [Hc | Hc]; [elim Hne; exact (Hfix Hc)|].
    exact (esc_longer s Hc).
Qed.

End Escaping.

Lemma esc_unchanged_witness :
  (String.length "a  <b" < String.length (Html.esc_ "a  <b"))%nat.
Proof.
  apply (proj2 (esc_unchanged "a  <b")).
  intros H. vm_compute in H. discriminate.
Defined.
